(** * obsidian-heatmap: the calendar heatmap component

    A shallow embedding of the Svelte component that draws the heatmap
    (its script block: [tooltip], [refreshSVG], [generateSVG], the four
    generators and the reactive [colorScale]) together with the parts of
    d3-time, d3-scale and d3-interpolate that the component calls.

    Conventions of the model.
    - A JavaScript number is an exact rational or one of [Infinity],
      [-Infinity], [NaN], and the two zeros are identified (the only
      division whose divisor can be zero, in [generateSVG], divides by
      [weekCount + 2], which is [+0] when it is zero).  The component
      record computes without rounding; where a property depends on the
      rounding of IEEE doubles (the width equation of the cell size, the
      position of the week labels, the sum of the year legend), the
      computation is given again in [Binary64], with every operation
      rounded to the nearest double.
    - A [Date] is its time value, an integer number of milliseconds since
      1970-01-01T00:00, read in a local time zone with a constant zero
      offset (the data model of the component is time-zone naive); invalid
      dates are not modelled, and the limits of the time value are a
      hypothesis ([validTime]) where a property needs them.
    - The component instance is a record of its props, its script
      variables, the children of the [svg] element, the tooltip element and
      the console. *)

From Stdlib Require Import ZArith QArith Qround Qabs Qpower List String Bool Lia Lqa.
From Stdlib Require DecimalString Finite PrimFloat SpecFloat FloatOps.
Import ListNotations.

Set Warnings "-register-all".

Local Open Scope Z_scope.

(** ** JavaScript numbers *)

Inductive num : Type :=
| Fin (q : Q)
| PosInf
| NegInf
| NaN.

Declare Scope num_scope.
Delimit Scope num_scope with num.
Bind Scope num_scope with num.

Module Num.

Definition of_Z (z : Z) : num := Fin (inject_Z z).

Definition neg (a : num) : num :=
  match a with
  | Fin q => Fin (- q)
  | PosInf => NegInf
  | NegInf => PosInf
  | NaN => NaN
  end.

Definition add (a b : num) : num :=
  match a, b with
  | NaN, _ | _, NaN => NaN
  | Fin x, Fin y => Fin (x + y)
  | PosInf, NegInf | NegInf, PosInf => NaN
  | PosInf, _ | _, PosInf => PosInf
  | NegInf, _ | _, NegInf => NegInf
  end.

Definition sub (a b : num) : num := add a (neg b).

(** The infinity carrying the sign of [c] (of a product or a quotient
    whose other factor is infinite); [NaN] when there is no sign. *)
Definition signed_inf (c : comparison) : num :=
  match c with
  | Gt => PosInf
  | Lt => NegInf
  | Eq => NaN
  end.

Definition sign (a : num) : comparison :=
  match a with
  | Fin q => (q ?= 0)%Q
  | PosInf => Gt
  | NegInf => Lt
  | NaN => Eq
  end.

Definition sign_mul (c d : comparison) : comparison :=
  match c, d with
  | Eq, _ | _, Eq => Eq
  | Gt, Gt | Lt, Lt => Gt
  | Gt, Lt | Lt, Gt => Lt
  end.

Definition mul (a b : num) : num :=
  match a, b with
  | NaN, _ | _, NaN => NaN
  | Fin x, Fin y => Fin (x * y)
  | _, _ => signed_inf (sign_mul (sign a) (sign b))
  end.

(** [x / 0] is an infinity of the sign of [x], [0 / 0] is [NaN]; a
    finite number over an infinity is zero. *)
Definition div (a b : num) : num :=
  match a, b with
  | NaN, _ | _, NaN => NaN
  | Fin x, Fin y =>
      if Qeq_bool y 0 then signed_inf (x ?= 0)%Q else Fin (x / y)
  | Fin _, _ => Fin 0
  | _, Fin y =>
      signed_inf (sign_mul (sign a) (if Qeq_bool y 0 then Gt else (y ?= 0)%Q))
  | _, _ => NaN
  end.

(** [a < b], [a <= b], [a > b]: false as soon as one side is [NaN]. *)
Definition ltb (a b : num) : bool :=
  match a, b with
  | NaN, _ | _, NaN => false
  | Fin x, Fin y => negb (Qle_bool y x)
  | _, NegInf | PosInf, _ => false
  | _, _ => true
  end.

Definition leb (a b : num) : bool :=
  match a, b with
  | NaN, _ | _, NaN => false
  | Fin x, Fin y => Qle_bool x y
  | NegInf, _ | _, PosInf => true
  | _, _ => false
  end.

Definition gtb (a b : num) : bool := ltb b a.

(** [Math.min] and [Math.max] of two numbers. *)
Definition min (a b : num) : num :=
  match a, b with
  | NaN, _ | _, NaN => NaN
  | _, _ => if leb a b then a else b
  end.

Definition max (a b : num) : num :=
  match a, b with
  | NaN, _ | _, NaN => NaN
  | _, _ => if leb a b then b else a
  end.

(** [isNaN] and the truth value of a number in a condition. *)
Definition isNaN (a : num) : bool :=
  match a with NaN => true | _ => false end.

Definition truthy (a : num) : bool :=
  match a with
  | Fin q => negb (Qeq_bool q 0)
  | NaN => false
  | _ => true
  end.

(** [a === b] on numbers. *)
Definition eq (a b : num) : Prop :=
  match a, b with
  | Fin x, Fin y => (x == y)%Q
  | PosInf, PosInf | NegInf, NegInf => True
  | _, _ => False
  end.

Definition lt (a b : num) : Prop := ltb a b = true.
Definition le (a b : num) : Prop := leb a b = true.

End Num.

Notation "a + b" := (Num.add a b) : num_scope.
Notation "a - b" := (Num.sub a b) : num_scope.
Notation "a * b" := (Num.mul a b) : num_scope.
Notation "a / b" := (Num.div a b) : num_scope.
Notation "a === b" := (Num.eq a b) (at level 70, no associativity) : num_scope.
Notation "a < b" := (Num.lt a b) : num_scope.
Notation "a <= b" := (Num.le a b) : num_scope.

(** ** Dates *)

(** The time value of a [Date]. *)
Definition Date : Type := Z.

Definition msPerDay : Z := 86400000.
Definition msPerWeek : Z := 7 * msPerDay.

(** The day number (days since 1970-01-01) and the time within the day. *)
Definition dayNumber (t : Date) : Z := t / msPerDay.
Definition timeInDay (t : Date) : Z := t mod msPerDay.

(** The proleptic Gregorian calendar: the day number of a civil date, and
    back.  Months are 1..12 here. *)
Definition days_from_civil (y m d : Z) : Z :=
  let y' := if m <=? 2 then y - 1 else y in
  let era := y' / 400 in
  let yoe := y' - era * 400 in
  let doy := (153 * (if 2 <? m then m - 3 else m + 9) + 2) / 5 + d - 1 in
  let doe := yoe * 365 + yoe / 4 - yoe / 100 + doy in
  era * 146097 + doe - 719468.

Definition civil_from_days (z : Z) : Z * Z * Z :=
  let z' := z + 719468 in
  let era := z' / 146097 in
  let doe := z' - era * 146097 in
  let yoe := (doe - doe / 1460 + doe / 36524 - doe / 146096) / 365 in
  let doy := doe - (365 * yoe + yoe / 4 - yoe / 100) in
  let mp := (5 * doy + 2) / 153 in
  let d := doy - (153 * mp + 2) / 5 + 1 in
  let m := if mp <? 10 then mp + 3 else mp - 9 in
  ((if m <=? 2 then yoe + era * 400 + 1 else yoe + era * 400), m, d).

(** [new Date(y, m - 1, d)]: local midnight of a civil date. *)
Definition ymd (y m d : Z) : Date := days_from_civil y m d * msPerDay.

(** [getDay] (0 is Sunday; 1970-01-01 was a Thursday), [getFullYear],
    [getMonth] (0..11) and [getDate]. *)
Definition getDay (t : Date) : Z := (dayNumber t + 4) mod 7.
Definition getFullYear (t : Date) : Z := fst (fst (civil_from_days (dayNumber t))).
Definition getMonth (t : Date) : Z := snd (fst (civil_from_days (dayNumber t))) - 1.
Definition getDate (t : Date) : Z := snd (civil_from_days (dayNumber t)).

(** [setMonth(k)] keeps the day of the month and the time of day, and
    carries a month outside 0..11 into the year. *)
Definition setMonth (t : Date) (k : Z) : Date :=
  (days_from_civil (getFullYear t + k / 12) (k mod 12 + 1) 1 + getDate t - 1)
  * msPerDay + timeInDay t.

(** [setHours(0, 0, 0, 0)]. *)
Definition startOfDay (t : Date) : Date := t - timeInDay t.

(** [toDateString()] names the calendar day of a date (week day, month,
    day, year); two dates give the same string exactly when they fall on
    the same calendar day, so the string is modelled by the day number. *)
Definition toDateString (t : Date) : Z := dayNumber t.

(** ** d3-time: intervals *)

(** An interval as [timeInterval(floori, offseti, count)] builds it:
    [floori] moves a date down to the boundary at or before it, [offseti]
    moves it by a number of intervals, [counti] counts the boundaries
    between two dates that are already floored. *)
Record timeInterval : Type := {
  floori : Date -> Date;
  offseti : Date -> Z -> Date;
  counti : Date -> Date -> Z
}.

Module Interval.

Definition floor (i : timeInterval) (t : Date) : Date := floori i t.

(** [interval.ceil]: floor [date - 1], move one interval on, floor. *)
Definition ceil (i : timeInterval) (t : Date) : Date :=
  floori i (offseti i (floori i (t - 1)) 1).

Definition offset (i : timeInterval) (t : Date) (step : Z) : Date :=
  offseti i t step.

(** [interval.count(start, end)] floors both dates first. *)
Definition count (i : timeInterval) (t0 t1 : Date) : Z :=
  counti i (floori i t0) (floori i t1).

(** The [do ... while (previous < start && start < stop)] loop of
    [interval.range], with step 1. *)
Fixpoint range_loop (i : timeInterval) (fuel : nat) (start stop : Date)
  : list Date :=
  match fuel with
  | O => []
  | S fuel' =>
      start ::
      (let next := floori i (offseti i start 1) in
       if (start <? next) && (next <? stop)
       then range_loop i fuel' next stop
       else [])
  end.

(** [interval.range(start, stop)]: the boundaries in [[start, stop)].
    The boundaries the loop visits lie at or after [ceil start] and at or
    before [floor stop], so [count + 1] rounds are enough ([range_closed]
    below proves it for the intervals of a fixed period, the day and the
    Monday week). *)
Definition range (i : timeInterval) (start stop : Date) : list Date :=
  let start' := ceil i start in
  if start' <? stop
  then range_loop i (S (Z.to_nat (count i start' stop))) start' stop
  else [].

End Interval.

(** [setDate(getDate() + k)]: with a constant zone offset the date moves by
    [k] whole days and keeps its time of day. *)
Definition addDays (t : Date) (k : Z) : Date := t + k * msPerDay.

Definition timeDay : timeInterval := {|
  floori t := startOfDay t;
  offseti t step := addDays t step;
  counti t0 t1 := (t1 - t0) / msPerDay
|}.

(** [timeMonday] is [timeWeekday(1)]. *)
Definition timeWeekday (i : Z) : timeInterval := {|
  floori t := startOfDay (addDays t (- ((getDay t + 7 - i) mod 7)));
  offseti t step := addDays t (step * 7);
  counti t0 t1 := (t1 - t0) / msPerWeek
|}.

Definition timeMonday : timeInterval := timeWeekday 1.

Definition timeMonth : timeInterval := {|
  floori t := startOfDay (addDays t (1 - getDate t));
  offseti t step := setMonth t (getMonth t + step);
  counti t0 t1 :=
    getMonth t1 - getMonth t0 + (getFullYear t1 - getFullYear t0) * 12
|}.

Definition timeDays (start stop : Date) : list Date :=
  Interval.range timeDay start stop.

(** [timeFormat("%b")]: the abbreviated English month name. *)
Definition monthNames : list string :=
  ["Jan"; "Feb"; "Mar"; "Apr"; "May"; "Jun";
   "Jul"; "Aug"; "Sep"; "Oct"; "Nov"; "Dec"]%string.

Definition timeFormat_b (t : Date) : string :=
  nth (Z.to_nat (getMonth t)) monthNames EmptyString.

(** ** d3-interpolate and d3-scale *)

(** A colour as the three channels of its [rgb(r, g, b)] form. *)
Record rgb : Type := RGB { red : Z; green : Z; blue : Z }.

(** A channel as [rgb.toString] prints it:
    [Math.max(0, Math.min(255, Math.round(value) || 0))]. *)
Definition clampi (v : num) : Z :=
  match v with
  | Fin q => Z.max 0 (Z.min 255 (Qfloor (q + (1 # 2))))
  | PosInf => 255
  | NegInf | NaN => 0
  end.

(** One channel of [interpolateRgb(a, b)] at [t]:
    [d ? a + t * d : a] with [d = b - a]. *)
Definition interpolateChannel (a b : Z) (t : num) : num :=
  if b - a =? 0 then Num.of_Z a
  else (Num.of_Z a + t * Num.of_Z (b - a))%num.

Definition interpolateRgb (a b : rgb) (t : num) : rgb :=
  RGB (clampi (interpolateChannel (red a) (red b) t))
      (clampi (interpolateChannel (green a) (green b) t))
      (clampi (interpolateChannel (blue a) (blue b) t)).

Module Scale.

(** [normalize(a, b)]: the position of [x] between [a] and [b]; a
    constant when the two coincide. *)
Definition normalize (a b x : num) : num :=
  let b' := (b - a)%num in
  if Num.truthy b' then ((x - a) / b')%num
  else if Num.isNaN b' then NaN else Fin (1 # 2).

(** [clamper(a, b)]: clamp to the interval spanned by the first and
    the last domain value. *)
Definition clamper (a b x : num) : num :=
  let '(a', b') := if Num.gtb a b then (b, a) else (a, b) in
  Num.max a' (Num.min b' x).

(** [bisect(domain, x, 1, 2)] on a domain of three values. *)
Definition bisect3 (d1 x : num) : nat :=
  if Num.leb d1 x then 2%nat else 1%nat.

(** [polymap] on three control points: a descending domain is reversed
    with its range, then [x] is interpolated in the segment [bisect]
    selects. *)
Definition polymap3 (d0 d1 d2 : num) (r0 r1 r2 : rgb) (x : num) : rgb :=
  let '(d0', d1', d2', r0', r1', r2') :=
    if Num.ltb d2 d0 then (d2, d1, d0, r2, r1, r0)
    else (d0, d1, d2, r0, r1, r2) in
  match bisect3 d1' x with
  | 1%nat => interpolateRgb r0' r1' (normalize d0' d1' x)
  | _ => interpolateRgb r1' r2' (normalize d1' d2' x)
  end.

(** [scaleLinear().domain([d0, d1, d2]).range([r0, r1, r2]).clamp(true)]
    applied to a number that is not [NaN]. *)
Definition scaleLinear3 (d0 d1 d2 : num) (r0 r1 r2 : rgb) (x : num) : rgb :=
  polymap3 d0 d1 d2 r0 r1 r2 (clamper d0 d2 x).

End Scale.

(** [Math.max(...values)]; [-Infinity] when there is no value. *)
Definition mathMax (values : list num) : num :=
  fold_right Num.max NegInf values.

(** ** The component *)

Module HeatmapDataPoint.
(** Modelled from the spec: the type [HeatmapDataPoint] of [types.ts],
    which is not among the sources; the data model gives it as a calendar
    date and a non-negative integer count. *)
Record t : Type := {
  date : Date;
  count : N
}.
End HeatmapDataPoint.

Definition countNum (d : HeatmapDataPoint.t) : num :=
  Num.of_Z (Z.of_N (HeatmapDataPoint.count d)).

Definition chineseMonths : list (string * string) :=
  [("Jan", "1月"); ("Feb", "2月"); ("Mar", "3月"); ("Apr", "4月");
   ("May", "5月"); ("Jun", "6月"); ("Jul", "7月"); ("Aug", "8月");
   ("Sep", "9月"); ("Oct", "10月"); ("Nov", "11月"); ("Dec", "12月")]%string.

Definition dayCount : Z := 7.
Definition cellGap : Z := 3.

(** The record each day is mapped to in [generateCellsSVG]. *)
Module Cell.
Record t : Type := {
  x : num;
  y : num;
  fill : rgb;
  date : Date;
  count : N
}.
End Cell.

(** SVG nodes: an attribute holds a number, a string, a colour or the
    [translate(x, y)] of a group; a [rect] keeps the cell its two mouse
    listeners close over. *)
Inductive AttrValue : Type :=
| VNum (n : num)
| VStr (s : string)
| VColor (c : rgb)
| VTranslate (tx ty : num).

Inductive Element : Type :=
| SvgText (textContent : string) (attrs : list (string * AttrValue))
| SvgRect (attrs : list (string * AttrValue)) (cell : Cell.t)
| SvgGroup (attrs : list (string * AttrValue)) (children : list Element).

(** A line of the console: the level and the arguments of the call. *)
Inductive LogArg : Type :=
| LStr (s : string)
| LNum (n : num).

Inductive Diagnostic : Type :=
| ConsoleDebug (args : list LogArg)
| ConsoleError (args : list LogArg).

(** The tooltip [div]: its text and the four style properties the
    component writes ([left] and [top] in pixels). *)
Record TooltipElement : Type := {
  textContent : string;
  visibility : string;
  display : string;
  left : option Q;
  top : option Q
}.

(** The instance: the four props, the script variables [height] and
    [cellSize], the children of the [svg] element, the tooltip and the
    console.  [colorScale] is a reactive declaration: the framework
    evaluates it when the component is created and again at each update
    after [dataPoints] was assigned, so the instance keeps the sequence
    the current scale was built from. *)
Record Component : Type := {
  dataPoints : list HeatmapDataPoint.t;
  width : num;
  fontColor : string;
  fontSize : num;
  height : num;
  cellSize : num;
  scaleData : list HeatmapDataPoint.t;
  svgRef : list Element;
  tooltipRef : TooltipElement;
  console : list Diagnostic
}.

Definition emptyColor : rgb := RGB 0xeb 0xed 0xf0.
Definition midColor : rgb := RGB 0x7b 0xc9 0x6f.
Definition highColor : rgb := RGB 0x19 0x61 0x27.

(** The reactive declaration
    [scaleLinear().domain([0, Math.max(...counts, 10) / 2, Math.max(...counts)])
     .range(["#ebedf0", "#7bc96f", "#196127"]).clamp(true)],
    as a function of the sequence it is built from, applied to a finite
    number. *)
Definition colorScale (data : list HeatmapDataPoint.t) (v : Q) : rgb :=
  Scale.scaleLinear3
    (Fin 0)
    (mathMax (map countNum data ++ [Fin 10]) / Fin 2)%num
    (mathMax (map countNum data))
    emptyColor midColor highColor
    (Fin v).

Definition withConsole (c : Component) (d : Diagnostic) : Component := {|
  dataPoints := dataPoints c; width := width c; fontColor := fontColor c;
  fontSize := fontSize c; height := height c; cellSize := cellSize c;
  scaleData := scaleData c; svgRef := svgRef c; tooltipRef := tooltipRef c;
  console := console c ++ [d]
|}.

Definition withSvg (c : Component) (children : list Element) : Component := {|
  dataPoints := dataPoints c; width := width c; fontColor := fontColor c;
  fontSize := fontSize c; height := height c; cellSize := cellSize c;
  scaleData := scaleData c; svgRef := children; tooltipRef := tooltipRef c;
  console := console c
|}.

Definition withGeometry (c : Component) (size h : num) : Component := {|
  dataPoints := dataPoints c; width := width c; fontColor := fontColor c;
  fontSize := fontSize c; height := h; cellSize := size;
  scaleData := scaleData c; svgRef := svgRef c; tooltipRef := tooltipRef c;
  console := console c
|}.

Definition withTooltip (c : Component) (t : TooltipElement) : Component := {|
  dataPoints := dataPoints c; width := width c; fontColor := fontColor c;
  fontSize := fontSize c; height := height c; cellSize := cellSize c;
  scaleData := scaleData c; svgRef := svgRef c; tooltipRef := t;
  console := console c
|}.

Definition withProps (c : Component) (data : list HeatmapDataPoint.t)
    (w : num) (color : string) (size : num) : Component := {|
  dataPoints := data; width := w; fontColor := color; fontSize := size;
  height := height c; cellSize := cellSize c;
  scaleData := scaleData c; svgRef := svgRef c; tooltipRef := tooltipRef c;
  console := console c
|}.

(** *** The tooltip *)

(** What the layout engine answers when [show] asks:
    [svgRef.getBoundingClientRect()] and the client size of the tooltip.
    These are finite numbers. *)
Record DOMRect : Type := { rect_x : Q; rect_y : Q; rect_width : Q }.

Record Layout : Type := {
  svgRect : DOMRect;
  clientWidth : Q;
  clientHeight : Q
}.

Module tooltip.

Local Open Scope Q_scope.

(** [init] stores the element it is given in [tooltipRef], which the
    binding of the template has set to the same element already. *)
Definition init (c : Component) : Component := c.

(** The horizontal placement computed by [show]. *)
Definition adjustedX (env : Layout) (cellX : Q) : Q :=
  let tooltipWidth := clientWidth env in
  let adjustedX := cellX - rect_x (svgRect env) in
  let isNearLeftEdge := negb (Qle_bool 0 (adjustedX - tooltipWidth / 2)) in
  let isNearRightEdge :=
    negb (Qle_bool (adjustedX + tooltipWidth / 2) (rect_width (svgRect env))) in
  if isNearLeftEdge then tooltipWidth / 2
  else if isNearRightEdge then rect_width (svgRect env) - tooltipWidth / 2
  else adjustedX.

Definition adjustedY (env : Layout) (cellY : Q) : Q :=
  cellY - rect_y (svgRect env) - clientHeight env - inject_Z cellGap + 1.

Definition show (env : Layout) (c : Component)
    (content : string) (cellX cellY : Q) : Component :=
  withTooltip c {|
    textContent := content;
    visibility := "visible";
    display := "block";
    left := Some (adjustedX env cellX);
    top := Some (adjustedY env cellY)
  |}.

Definition hide (c : Component) : Component :=
  withTooltip c {|
    textContent := textContent (tooltipRef c);
    visibility := "hidden";
    display := display (tooltipRef c);
    left := left (tooltipRef c);
    top := top (tooltipRef c)
  |}.

End tooltip.

(** *** The generators *)

Definition decimal (n : N) : string :=
  DecimalString.NilZero.string_of_uint (N.to_uint n).

(** [yearCount] is added up here without rounding and printed in
    decimal digits: that is the number and the text of the code as long
    as the counts add up to less than [2 ^ 53] ([yearCount64] is the
    sum in doubles). *)
Definition generateYearLegendSVG (c : Component) : Element :=
  let yearCount :=
    fold_left (fun sum d => (sum + HeatmapDataPoint.count d)%N)
              (dataPoints c) 0%N in
  SvgText ("最近一年记录 " ++ decimal yearCount ++ " 条笔记")
    [("y", VNum (Num.neg (cellSize c) * Fin 2)%num);
     ("font-size", VNum (cellSize c * Fin (3 # 2))%num);
     ("font-weight", VStr "bold");
     ("fill", VStr (fontColor c))]%string.

(** [chineseMonths[englishMonth] || englishMonth]. *)
Definition monthLabelText (englishMonth : string) : string :=
  match find (fun kv => String.eqb (fst kv) englishMonth) chineseMonths with
  | Some (_, label) => if String.eqb label EmptyString then englishMonth else label
  | None => englishMonth
  end.

Definition generateMonthLabelsSVG (c : Component) (startDate endDate : Date)
  : Element :=
  let monthLabels := Interval.range timeMonth startDate endDate in
  let monthLabelY :=
    (Num.of_Z (dayCount + 2) * cellSize c + Num.of_Z ((dayCount - 2) * cellGap))%num in
  SvgGroup []
    (map (fun date =>
            let englishMonth := timeFormat_b date in
            let adjustTimeWeekCount :=
              Interval.count timeMonday
                (Interval.floor timeMonday startDate)
                (Interval.floor timeMonday date) in
            SvgText (monthLabelText englishMonth)
              [("x", VNum (Num.of_Z adjustTimeWeekCount
                           * (cellSize c + Num.of_Z cellGap))%num);
               ("y", VNum monthLabelY);
               ("font-size", VNum (cellSize c - Fin 1)%num);
               ("fill", VStr (fontColor c))]%string)
         monthLabels).

Definition generateWeekLabelsSVG (c : Component) (weekCount : Z) : Element :=
  let weekDays := ["一"; "三"; "五"; "日"]%string in
  let weekLabelX :=
    (cellSize c * Num.of_Z (weekCount + 2)
     + Num.of_Z cellGap * Num.of_Z (weekCount - 1))%num in
  SvgGroup []
    (map (fun '(index, day) =>
            SvgText day
              [("x", VNum weekLabelX);
               ("y", VNum ((Num.of_Z (Z.of_nat index * 2) + Fin (1 # 2))
                           * (cellSize c + Num.of_Z cellGap))%num);
               ("text-anchor", VStr "end");
               ("alignment-baseline", VStr "middle");
               ("font-size", VNum (cellSize c - Fin 1)%num);
               ("fill", VStr (fontColor c))]%string)
         (combine (seq 0 (List.length weekDays)) weekDays)).

(** The record of one day: the first stage of [generateCellsSVG]. *)
Definition cellOf (c : Component) (startDate date : Date) : Cell.t :=
  let week :=
    Interval.count timeMonday
      (Interval.floor timeMonday startDate)
      (Interval.floor timeMonday date) in
  let day := (getDay date + 6) mod 7 in
  let dataPoint :=
    find (fun d => toDateString (HeatmapDataPoint.date d) =? toDateString date)
         (dataPoints c) in
  let count := match dataPoint with
    | Some d => HeatmapDataPoint.count d
    | None => 0%N
    end in
  {| Cell.x := (Num.of_Z week * (cellSize c + Num.of_Z cellGap))%num;
     Cell.y := (Num.of_Z day * (cellSize c + Num.of_Z cellGap))%num;
     Cell.fill := colorScale (scaleData c) (inject_Z (Z.of_N count));
     Cell.date := date;
     Cell.count := count |}.

Definition cells (c : Component) (startDate endDate : Date) : list Cell.t :=
  map (cellOf c startDate) (timeDays startDate endDate).

(** The [rect] of a cell: the second stage. *)
Definition rectOf (c : Component) (cell : Cell.t) : Element :=
  SvgRect
    [("x", VNum (Cell.x cell));
     ("y", VNum (Cell.y cell));
     ("width", VNum (cellSize c));
     ("height", VNum (cellSize c));
     ("fill", VColor (Cell.fill cell));
     ("rx", VStr "2");
     ("ry", VStr "2")]%string
    cell.

Definition generateCellsSVG (c : Component) (startDate endDate : Date)
  : Element :=
  SvgGroup [] (map (rectOf c) (cells c startDate endDate)).

(** The two listeners of a [rect].  [toLocaleDateString] depends on the
    locale of the host and is taken as an argument; [targetX] and
    [targetY] are the corner of the bounding box of the [rect]. *)
Definition mouseover (toLocaleDateString : Date -> string) (env : Layout)
    (c : Component) (cell : Cell.t) (targetX targetY : Q) : Component :=
  let content :=
    (decimal (Cell.count cell) ++ " 条笔记于 "
     ++ toLocaleDateString (Cell.date cell))%string in
  tooltip.show env c content targetX targetY.

Definition mouseout (c : Component) : Component := tooltip.hide c.

(** *** Rendering *)

(** [weekCount] as [generateSVG] computes it from the first and the last
    date. *)
Definition weekCountOf (startDate endDate : Date) : Z :=
  Interval.count timeMonday
    (Interval.floor timeMonday startDate)
    (Interval.floor timeMonday endDate)
  + 1.

(** [cellSize] after the first assignment of [generateSVG], the solution
    of the width equation, and after the second, which caps it. *)
Definition unclampedCellSize (w : num) (weekCount : Z) : num :=
  ((w - Num.of_Z ((weekCount - 1) * cellGap)) / Num.of_Z (weekCount + 2))%num.

Definition cellSizeOf (w : num) (weekCount : Z) : num :=
  Num.min (unclampedCellSize w weekCount) (Fin 14).

Definition heightOf (size : num) : num :=
  ((Num.of_Z dayCount + Fin (7 # 2) + Fin 2) * size
   + Num.of_Z ((dayCount - 1) * cellGap))%num.

(** [dates[0]] and [dates[dates.length - 1]] of a sequence that is not
    empty. *)
Definition firstDate (data : list HeatmapDataPoint.t) : Date :=
  hd 0 (map HeatmapDataPoint.date data).

Definition lastDate (data : list HeatmapDataPoint.t) : Date :=
  last (map HeatmapDataPoint.date data) 0.

(** The two assignments to [cellSize] and the one to [height]. *)
Definition layout (c : Component) (weekCount : Z) : Component :=
  let c := withGeometry c (cellSizeOf (width c) weekCount) (height c) in
  withGeometry c (cellSize c) (heightOf (cellSize c)).

(** The group that holds the four generated parts, moved down by the top
    margin. *)
Definition svgGroup (c : Component) (startDate endDate : Date) (weekCount : Z)
  : Element :=
  let marginTop := (cellSize c * Fin (7 # 2))%num in
  SvgGroup [("transform", VTranslate (Fin 0) marginTop)]%string
    [generateYearLegendSVG c;
     generateMonthLabelsSVG c startDate endDate;
     generateWeekLabelsSVG c weekCount;
     generateCellsSVG c startDate endDate].

Definition generateSVG (c : Component) : Component :=
  let c := withSvg c [] in
  match dataPoints c with
  | [] => withConsole c (ConsoleError [LStr "Heatmap no data available"])
  | _ :: _ =>
      let startDate := firstDate (dataPoints c) in
      let endDate := lastDate (dataPoints c) in
      let weekCount := weekCountOf startDate endDate in
      let c := layout c weekCount in
      let c := withSvg c [svgGroup c startDate endDate weekCount] in
      withConsole c
        (ConsoleDebug [LStr "生成 SVG 完成，width："; LNum (width c);
                       LStr "height："; LNum (height c)])
  end.

Definition refreshSVG (c : Component) (newDataPoints : list HeatmapDataPoint.t)
    (newWidth : num) (newFontColor : string) (newFontSize : num) : Component :=
  if Num.leb newWidth (Fin 0)
  then withConsole c (ConsoleDebug [LStr "newWidth illegal!"; LNum newWidth])
  else generateSVG (withProps c newDataPoints newWidth newFontColor newFontSize).

(** *** The framework around the script *)

(** The update the framework runs after [dataPoints] was assigned: the
    reactive declaration is evaluated again. *)
Definition update (c : Component) : Component := {|
  dataPoints := dataPoints c; width := width c; fontColor := fontColor c;
  fontSize := fontSize c; height := height c; cellSize := cellSize c;
  scaleData := dataPoints c; svgRef := svgRef c; tooltipRef := tooltipRef c;
  console := console c
|}.

(** Creation with the given props, then the [onMount] callback. *)
Definition create (data : list HeatmapDataPoint.t) (w : num)
    (color : string) (size : num) : Component := {|
  dataPoints := data; width := w; fontColor := color; fontSize := size;
  height := Fin 0; cellSize := size;
  scaleData := data; svgRef := [];
  tooltipRef := {| textContent := EmptyString; visibility := EmptyString;
                   display := "none";
                   left := None; top := None |};
  console := []
|}.

Definition onMount (c : Component) : Component :=
  withConsole (tooltip.init (generateSVG c))
    (ConsoleDebug [LStr "Heatmap component mounted"]).

(** ** Sample data *)

(** One data point per day, [n] days from local midnight of [start], all
    with the same count. *)
Definition daily (start : Date) (n : nat) (k : N) : list HeatmapDataPoint.t :=
  map (fun i => {| HeatmapDataPoint.date := addDays start (Z.of_nat i);
                   HeatmapDataPoint.count := k |})
      (seq 0 n).

(** Daily counts of 5 for 2024-01-01 .. 2024-01-08, mounted at width 200;
    the same with every date at 10:00; and a layout in which the tooltip
    (100 wide) is wider than the surface (80 wide, at the origin). *)
Definition scenario : Component :=
  onMount (create (daily (ymd 2024 1 1) 8 5) (Fin 200) "#666" (Fin 14)).

(** The same data mounted at width 1. *)
Definition scenarioNarrow : Component :=
  onMount (create (daily (ymd 2024 1 1) 8 5) (Fin 1) "#666" (Fin 14)).

Definition scenarioAtTen : Component :=
  onMount (create (daily (ymd 2024 1 1 + 10 * 3600000) 8 5)
                  (Fin 200) "#666" (Fin 14)).

(** A sequence with a day entered twice and days left out:
    2024-01-01 with 3, 2024-01-01 again (at 09:00) with 9, 2024-01-05
    with 2. *)
Definition gappy : Component :=
  onMount (create
    [ {| HeatmapDataPoint.date := ymd 2024 1 1; HeatmapDataPoint.count := 3 |};
      {| HeatmapDataPoint.date := ymd 2024 1 1 + 9 * 3600000;
         HeatmapDataPoint.count := 9 |};
      {| HeatmapDataPoint.date := ymd 2024 1 5; HeatmapDataPoint.count := 2 |} ]
    (Fin 200) "#666" (Fin 14)).

Definition narrowSurface : Layout := {|
  svgRect := {| rect_x := 0; rect_y := 0; rect_width := 80 |};
  clientWidth := 100;
  clientHeight := 20
|}.

(** A layout with room for the tooltip (60 wide) on a surface 800 wide
    whose left edge is at 10. *)
Definition wideSurface : Layout := {|
  svgRect := {| rect_x := 10; rect_y := 0; rect_width := 800 |};
  clientWidth := 60;
  clientHeight := 20
|}.


(** ** Notions the properties are stated with *)

(** The sequence is ordered by date (equal dates are allowed). *)
Fixpoint ascending (data : list HeatmapDataPoint.t) : bool :=
  match data with
  | a :: (b :: _) as rest =>
      (HeatmapDataPoint.date a <=? HeatmapDataPoint.date b) && ascending rest
  | _ => true
  end.

(** [weekCount] in a render of the instance. *)
Definition weekCount (c : Component) : Z :=
  weekCountOf (firstDate (dataPoints c)) (lastDate (dataPoints c)).

(** The largest count of the sequence. *)
Definition maxCount (data : list HeatmapDataPoint.t) : N :=
  fold_right N.max 0%N (map HeatmapDataPoint.count data).

(** The middle and the last control point of the domain of the colour
    scale of a sequence that is not empty: half the larger of 10 and the
    largest count, and the largest count. *)
Definition midPoint (data : list HeatmapDataPoint.t) : Q :=
  inject_Z (Z.max (Z.of_N (maxCount data)) 10) / 2.

Definition topPoint (data : list HeatmapDataPoint.t) : Q :=
  inject_Z (Z.of_N (maxCount data)).

(** A date is a Monday boundary when it is local midnight of a Monday. *)
Definition isMondayBoundary (t : Date) : Prop :=
  Interval.floor timeMonday t = t.

(** The Monday boundaries [m] with [a < m < b], and those with
    [a < m <= b], in increasing order. *)
Definition mondaysStrictlyBetween (a b : Date) : list Date :=
  Interval.range timeMonday (a + 1) b.

Definition mondaysAfterUpTo (a b : Date) : list Date :=
  Interval.range timeMonday (a + 1) (b + 1).

(** A boundary of an interval that repeats with a fixed period: the dates
    [phase + k * period]. *)
Definition boundary (period phase : Z) (t : Date) : Prop :=
  (t - phase) mod period = 0.

(** How many dates [start + k * period], [k >= 0], lie below [stop] when
    [start] does. *)
Definition steps (period : Z) (start stop : Date) : Z :=
  (stop - 1 - start) / period + 1.

(** Two dates fall on the same calendar day: the comparison of
    [toDateString] that [generateCellsSVG] makes. *)
Definition sameDay (a b : Date) : Prop := toDateString a = toDateString b.

(** The anchor of a hover relative to the surface, and the two ways the
    tooltip centred on it can leave the surface. *)
Definition anchorX (env : Layout) (cellX : Q) : Q :=
  (cellX - rect_x (svgRect env))%Q.

Definition overflowsLeft (env : Layout) (cellX : Q) : Prop :=
  (anchorX env cellX - clientWidth env / 2 < 0)%Q.

Definition overflowsRight (env : Layout) (cellX : Q) : Prop :=
  (rect_width (svgRect env) < anchorX env cellX + clientWidth env / 2)%Q.

(** The cells of the rectangles drawn on the surface. *)
Fixpoint rectCells (e : Element) : list Cell.t :=
  match e with
  | SvgText _ _ => []
  | SvgRect _ cell => [cell]
  | SvgGroup _ children => flat_map rectCells children
  end.

Definition renderedCells (c : Component) : list Cell.t :=
  flat_map rectCells (svgRef c).

(** ** The plugin ([main.ts]) *)

(** [generateRandomData]: from [startDate], while the current date is at
    or before [endDate], a point dated at the current date with the
    count [Math.floor(Math.random() * 20)], then one day on.  The draws
    of [Math.random] are taken from [random], the [i]-th draw for the
    [i]-th point; a draw is a number in [[0, 1)]. *)
Fixpoint randomDataLoop (random : nat -> Q) (fuel i : nat)
    (currentDate endDate : Date) : list HeatmapDataPoint.t :=
  match fuel with
  | O => []
  | S fuel' =>
      if currentDate <=? endDate
      then {| HeatmapDataPoint.date := currentDate;
              HeatmapDataPoint.count := Z.to_N (Qfloor (random i * 20)) |}
           :: randomDataLoop random fuel' (S i) (addDays currentDate 1) endDate
      else []
  end.

(** The loop runs once for each whole day from [startDate] to [endDate],
    both included. *)
Definition generateRandomData (random : nat -> Q) (startDate endDate : Date)
  : list HeatmapDataPoint.t :=
  randomDataLoop random (Z.to_nat ((endDate - startDate) / msPerDay + 1)) 0
    startDate endDate.

(** [setFullYear(getFullYear() - 1)] keeps the month, the day of the month
    (carried into March from a 29 February) and the time of day. *)
Definition yearBefore (t : Date) : Date :=
  days_from_civil (getFullYear t - 1) (getMonth t + 1) (getDate t) * msPerDay
  + timeInDay t.

(** [getHeatmapDataPoints] at the time [now]. *)
Definition getHeatmapDataPoints (random : nat -> Q) (now : Date)
  : list HeatmapDataPoint.t :=
  generateRandomData random (yearBefore now) now.

(** What [getEditorWidth] finds: a leaf whose view is not a Markdown view,
    or a Markdown view with its [data-mode] attribute and the widths of
    the elements [.markdown-preview-sizer] and [.cm-content], where they
    exist. *)
Inductive ActiveLeaf : Type :=
| OtherView
| MarkdownLeaf (dataMode : string) (previewSizer cmContent : option Q).

Definition getEditorWidth (leaf : ActiveLeaf) : num :=
  match leaf with
  | OtherView => Fin 0
  | MarkdownLeaf dataMode previewSizer cmContent =>
      let content :=
        if String.eqb dataMode "preview" then previewSizer else cmContent in
      match content with
      | Some w => Fin w
      | None => Fin 0
      end
  end.

(** [getFontSize]: [getConfig("baseFontSize") ?? 14]. *)
Definition getFontSize (baseFontSize : option num) : num :=
  match baseFontSize with
  | Some size => size
  | None => Fin 14
  end.

(** What the host answers to the plugin: the active leaf, the theme
    colour, the configured font size, the two configuration flags, the
    time and the draws of [Math.random] of the [k]-th call of
    [getHeatmapDataPoints]. *)
Record Host : Type := {
  activeLeaf : ActiveLeaf;
  themeFontColor : string;
  baseFontSize : option num;
  configReadableLineLength : bool;
  configShowLineNumber : bool;
  now : Date;
  randomOf : nat -> nat -> Q
}.

(** The plugin: its two flags and its heatmaps.  A heatmap is an object;
    the array holds references, which [indexOf] compares, so a heatmap is
    kept with the identity of its object. *)
Record Plugin : Type := {
  readableLineLength : bool;
  showLineNumber : bool;
  heatmaps : list (nat * Component)
}.

(** The code-block processor: a component is created with the values the
    host gives, mounted, and pushed on [heatmaps]; [object] is the
    identity of the new component. *)
Definition processCodeBlock (host : Host) (object : nat) (p : Plugin) : Plugin := {|
  readableLineLength := readableLineLength p;
  showLineNumber := showLineNumber p;
  heatmaps :=
    heatmaps p
    ++ [(object,
         onMount (create (getHeatmapDataPoints (randomOf host 0) (now host))
                         (getEditorWidth (activeLeaf host))
                         (themeFontColor host)
                         (getFontSize (baseFontSize host))))]
|}.

(** [indexOf] and [splice(index, 1)] on the references. *)
Fixpoint indexOf (object : nat) (l : list (nat * Component)) : option nat :=
  match l with
  | [] => None
  | (o, _) :: rest =>
      if Nat.eqb o object then Some 0%nat
      else option_map S (indexOf object rest)
  end.

Fixpoint splice1 {A : Type} (index : nat) (l : list A) : list A :=
  match l, index with
  | [], _ => []
  | _ :: rest, O => rest
  | a :: rest, S index' => a :: splice1 index' rest
  end.

(** [child.onunload] of the heatmap [object]. *)
Definition childOnunload (object : nat) (p : Plugin) : Plugin := {|
  readableLineLength := readableLineLength p;
  showLineNumber := showLineNumber p;
  heatmaps :=
    match indexOf object (heatmaps p) with
    | Some index => splice1 index (heatmaps p)
    | None => heatmaps p
    end
|}.

(** The [onunload] of the plugin. *)
Definition pluginOnunload (p : Plugin) : Plugin := {|
  readableLineLength := readableLineLength p;
  showLineNumber := showLineNumber p;
  heatmaps := []
|}.

(** [refreshHeatmaps]: every heatmap is refreshed with what the host gives
    at that moment; each call of [getHeatmapDataPoints] draws anew. *)
Fixpoint refreshEach (host : Host) (k : nat) (l : list (nat * Component))
  : list (nat * Component) :=
  match l with
  | [] => []
  | (object, heatmap) :: rest =>
      (object,
       refreshSVG heatmap
         (getHeatmapDataPoints (randomOf host k) (now host))
         (getEditorWidth (activeLeaf host))
         (themeFontColor host)
         (getFontSize (baseFontSize host)))
      :: refreshEach host (S k) rest
  end.

Definition refreshHeatmaps (host : Host) (p : Plugin) : Plugin := {|
  readableLineLength := readableLineLength p;
  showLineNumber := showLineNumber p;
  heatmaps := refreshEach host 0 (heatmaps p)
|}.

(** The listener of [config-changed]: the heatmaps are refreshed when one
    of the two flags has changed. *)
Definition onConfigChanged (host : Host) (p : Plugin) : Plugin :=
  let newReadableLineLength := configReadableLineLength host in
  let newShowLineNumber := configShowLineNumber host in
  if negb (Bool.eqb (readableLineLength p) newReadableLineLength)
     || negb (Bool.eqb (showLineNumber p) newShowLineNumber)
  then refreshHeatmaps host {|
         readableLineLength := newReadableLineLength;
         showLineNumber := newShowLineNumber;
         heatmaps := heatmaps p |}
  else p.

(** ** Further notions *)

(** The column and the row of a day, as [generateCellsSVG] computes them
    ([week] and [day] there). *)
Definition weekIndex (startDate date : Date) : Z :=
  Interval.count timeMonday
    (Interval.floor timeMonday startDate)
    (Interval.floor timeMonday date).

Definition dayIndex (date : Date) : Z := (getDay date + 6) mod 7.

(** The total the year legend prints. *)
Definition yearCount (data : list HeatmapDataPoint.t) : N :=
  fold_left (fun sum d => (sum + HeatmapDataPoint.count d)%N) data 0%N.

(** The sum of the counts the cells show. *)
Definition cellCountSum (l : list Cell.t) : N :=
  fold_right (fun cell sum => (Cell.count cell + sum)%N) 0%N l.

(** The count [generateCellsSVG] gives a day: that of the first data point
    on the day, 0 when there is none. *)
Definition countOn (data : list HeatmapDataPoint.t) (day : Date) : N :=
  match find (fun d => toDateString (HeatmapDataPoint.date d) =? toDateString day)
             data with
  | Some d => HeatmapDataPoint.count d
  | None => 0%N
  end.

Definition sumN (l : list N) : N := fold_right N.add 0%N l.

(** The texts of an element and of what it contains. *)
Fixpoint texts (e : Element) : list string :=
  match e with
  | SvgText t _ => [t]
  | SvgRect _ _ => []
  | SvgGroup _ children => flat_map texts children
  end.

(** A sample host with no Markdown view in front, and one in reading
    mode 700 wide; a stream of draws, all 1/2. *)
Definition halves : nat -> Q := fun _ => 1 # 2.

Definition hostWithoutEditor : Host := {|
  activeLeaf := OtherView;
  themeFontColor := "#333";
  baseFontSize := None;
  configReadableLineLength := true;
  configShowLineNumber := false;
  now := ymd 2024 11 2 + 10 * 3600000;
  randomOf := fun _ => halves
|}.

Definition hostReading : Host := {|
  activeLeaf := MarkdownLeaf "preview" (Some 700%Q) None;
  themeFontColor := "#333";
  baseFontSize := Some (Fin 16);
  configReadableLineLength := true;
  configShowLineNumber := false;
  now := ymd 2024 11 2 + 10 * 3600000;
  randomOf := fun _ => halves
|}.

Definition pluginOfTwo : Plugin := {|
  readableLineLength := true;
  showLineNumber := false;
  heatmaps := [(0%nat, scenario); (1%nat, gappy)]
|}.

(** The [k]-th point [generateRandomData] makes. *)
Definition randomPoint (random : nat -> Q) (startDate : Date) (k : nat)
  : HeatmapDataPoint.t :=
  {| HeatmapDataPoint.date := addDays startDate (Z.of_nat k);
     HeatmapDataPoint.count := Z.to_N (Qfloor (random k * 20)) |}.

(** What [child.onunload] leaves of the array. *)
Definition unloadFrom (object : nat) (l : list (nat * Component))
  : list (nat * Component) :=
  match indexOf object l with
  | Some index => splice1 index l
  | None => l
  end.




(** ** Binary64 *)

(** The numbers of the code are IEEE doubles: the result of an operation
    is its exact result rounded to the nearest double, to the one with
    the even significand when two are as near.  [Binary64] gives the
    operations with that rounding, on the same [num]; the two zeros
    stay identified. *)
Module Binary64.

(** The integer nearest to [m], the even one of two that are as near. *)
Definition roundHalfEven (m : Q) : Z :=
  let f := Qfloor m in
  match (m - inject_Z f ?= 1 # 2)%Q with
  | Lt => f
  | Gt => f + 1
  | Eq => if Z.even f then f else f + 1
  end.

(** The exponent of a positive [x]: the [e] with
    [2 ^ e <= x < 2 ^ (e + 1)]. *)
Definition exponent (x : Q) : Z :=
  let e := Z.log2 (Qnum x) - Z.log2 (Zpos (Qden x)) in
  if Qle_bool (2 ^ e) x then e else e - 1.

(** Rounding to a double: 53 bits of significand, exponents from -1022
    (below, the spacing stays [2 ^ -1074]) to 1023 (above, the result is
    an infinity). *)
Definition round (x : Q) : num :=
  if Qeq_bool x 0 then Fin 0
  else
    let e := Z.max (exponent (Qabs x)) (-1022) in
    let ulp := (2 ^ (e - 52))%Q in
    let r := Qred (inject_Z (roundHalfEven (x / ulp)) * ulp) in
    if Qle_bool (2 ^ 1024) (Qabs r)
    then (if Qle_bool 0 x then PosInf else NegInf)
    else Fin r.

Definition rounded (a : num) : num :=
  match a with
  | Fin q => round q
  | _ => a
  end.

Definition add (a b : num) : num := rounded (Num.add a b).
Definition sub (a b : num) : num := rounded (Num.sub a b).
Definition mul (a b : num) : num := rounded (Num.mul a b).
Definition div (a b : num) : num := rounded (Num.div a b).

End Binary64.

(** The first assignment to [cellSize] in [generateSVG], and the second,
    in binary64. *)
Definition unclampedCellSize64 (w : num) (weekCount : Z) : num :=
  Binary64.div
    (Binary64.sub w
       (Binary64.mul (Binary64.sub (Num.of_Z weekCount) (Fin 1))
                     (Num.of_Z cellGap)))
    (Binary64.add (Num.of_Z weekCount) (Fin 2)).

Definition cellSize64 (w : num) (weekCount : Z) : num :=
  Num.min (unclampedCellSize64 w weekCount) (Fin 14).

(** [weekLabelX] of [generateWeekLabelsSVG] in binary64: the left side
    of the width equation at the cell size. *)
Definition weekLabelX64 (size : num) (weekCount : Z) : num :=
  Binary64.add
    (Binary64.mul size (Binary64.add (Num.of_Z weekCount) (Fin 2)))
    (Binary64.mul (Num.of_Z cellGap)
                  (Binary64.sub (Num.of_Z weekCount) (Fin 1))).

(** A time value a [Date] can hold. *)
Definition validTime (t : Date) : Prop :=
  -8640000000000000 <= t <= 8640000000000000.

(** The data of 57 days from Monday 2024-01-01, nine weeks, mounted at
    the width 113. *)
Definition nineWeeks : Component :=
  onMount (create (daily (ymd 2024 1 1) 57 5) (Fin 113) "#666" (Fin 14)).

(** A double of the kernel as a [num]. *)
Definition ofFloat (f : PrimFloat.float) : num :=
  match FloatOps.Prim2SF f with
  | SpecFloat.S754_zero _ => Fin 0
  | SpecFloat.S754_infinity false => PosInf
  | SpecFloat.S754_infinity true => NegInf
  | SpecFloat.S754_nan => NaN
  | SpecFloat.S754_finite s m e =>
      Fin (Qred ((if s then -1 else 1) * inject_Z (Zpos m) * 2 ^ e))
  end.

(** [yearCount] of [generateYearLegendSVG] as the code adds it up, in
    binary64. *)
Definition yearCount64 (data : list HeatmapDataPoint.t) : num :=
  fold_left (fun sum d => Binary64.add sum (countNum d)) data (Fin 0).

(** A sample host in reading mode whose view has no
    [.markdown-preview-sizer], though it has a [.cm-content]. *)
Definition hostWithoutSizer : Host := {|
  activeLeaf := MarkdownLeaf "preview" None (Some 650%Q);
  themeFontColor := "#333";
  baseFontSize := None;
  configReadableLineLength := true;
  configShowLineNumber := false;
  now := ymd 2024 11 2 + 10 * 3600000;
  randomOf := fun _ => halves
|}.

Section KernelSamples.
Import PrimFloat.

(** Doubles to try the operations on: subnormal, normal, large, of
    both signs, with full and with short significands. *)
Definition kernelSamples : list float :=
  [0x1p-1074; 0x1.fffffffffffffp-1023; 0x1.999999999999ap-4; 3;
   0x1.7b4cccccccccdp+8; 0x1.fffffffffffffp+1023; -0x1.c8p+2]%float.

End KernelSamples.

(** An operation of [Binary64] and one of the kernel agree on two
    doubles. *)
Definition agrees (kernel : PrimFloat.float -> PrimFloat.float -> PrimFloat.float)
    (model : num -> num -> num) (a b : PrimFloat.float) : bool :=
  match model (ofFloat a) (ofFloat b), ofFloat (kernel a b) with
  | Fin x, Fin y => Qeq_bool x y
  | PosInf, PosInf | NegInf, NegInf | NaN, NaN => true
  | _, _ => false
  end.

Definition agreesOn (kernel : PrimFloat.float -> PrimFloat.float -> PrimFloat.float)
    (model : num -> num -> num) : bool :=
  forallb (fun a => forallb (agrees kernel model a) kernelSamples) kernelSamples.

(** * Properties *)

(** ** The model at work *)

Example ymd_2024_01_01 :
  ymd 2024 1 1 = 1704067200000 /\ getDay (ymd 2024 1 1) = 1.
Proof. vm_compute. split; reflexivity. Qed.

Example civil_leap_day :
  civil_from_days (dayNumber (ymd 2024 2 29 + 12 * 3600000)) = (2024, 2, 29)
  /\ addDays (ymd 2024 2 29) 1 = ymd 2024 3 1.
Proof. vm_compute. split; reflexivity. Qed.

Example monday_floor_of_a_wednesday :
  Interval.floor timeMonday (ymd 2024 1 10 + 5000) = ymd 2024 1 8
  /\ Interval.ceil timeDay (ymd 2024 1 10 + 5000) = ymd 2024 1 11.
Proof. vm_compute. split; reflexivity. Qed.

Example months_of_a_winter :
  Interval.range timeMonth (ymd 2023 11 15) (ymd 2024 3 2)
  = [ymd 2023 12 1; ymd 2024 1 1; ymd 2024 2 1; ymd 2024 3 1]
  /\ map timeFormat_b (Interval.range timeMonth (ymd 2023 11 15) (ymd 2024 3 2))
     = ["Dec"; "Jan"; "Feb"; "Mar"]%string.
Proof. split; vm_compute; reflexivity. Qed.

Example scenario_geometry :
  weekCount scenario = 2
  /\ cellSize scenario = Fin 14
  /\ (height scenario === Fin 193)%num.
Proof. vm_compute. repeat split. Qed.

(** ** Arithmetic of intervals with a fixed period *)

Section Periodic.

Variable i : timeInterval.
Variables period phase : Z.
Hypothesis period_pos : 0 < period.
Hypothesis floori_eq : forall t, floori i t = t - (t - phase) mod period.
Hypothesis offseti_eq : forall t k, offseti i t k = t + k * period.
Hypothesis counti_eq : forall a b, counti i a b = (b - a) / period.

Lemma floor_boundary t : boundary period phase (Interval.floor i t).
Proof.
  unfold boundary, Interval.floor. rewrite floori_eq.
  replace (t - (t - phase) mod period - phase)
    with ((t - phase) - (t - phase) mod period) by lia.
  rewrite Zminus_mod_idemp_r, Z.sub_diag. apply Z.mod_0_l. lia.
Qed.

Lemma floor_fix t : boundary period phase t <-> Interval.floor i t = t.
Proof.
  unfold boundary, Interval.floor. rewrite floori_eq. lia.
Qed.

Lemma floor_bounds t : Interval.floor i t <= t < Interval.floor i t + period.
Proof.
  unfold Interval.floor. rewrite floori_eq.
  pose proof (Z.mod_pos_bound (t - phase) period period_pos). lia.
Qed.

Lemma boundary_shift t k :
  boundary period phase t -> boundary period phase (t + k * period).
Proof.
  unfold boundary. intros H.
  replace (t + k * period - phase) with (t - phase + k * period) by lia.
  now rewrite Z.mod_add by lia.
Qed.

(** Two boundaries differ by a multiple of the period. *)
Lemma boundary_diff a b :
  boundary period phase a -> boundary period phase b ->
  exists k, b = a + k * period.
Proof.
  unfold boundary. intros Ha Hb.
  exists ((b - phase) / period - (a - phase) / period).
  pose proof (Z.div_mod (a - phase) period ltac:(lia)).
  pose proof (Z.div_mod (b - phase) period ltac:(lia)).
  nia.
Qed.

Lemma floor_mono a b : a <= b -> Interval.floor i a <= Interval.floor i b.
Proof.
  intros Hab.
  destruct (boundary_diff _ _ (floor_boundary a) (floor_boundary b)) as [k Hk].
  pose proof (floor_bounds a). pose proof (floor_bounds b).
  assert (0 <= k) by nia. nia.
Qed.

Lemma floor_of_boundary_le t m :
  boundary period phase m -> m <= t -> m <= Interval.floor i t.
Proof.
  intros Hm Hle. apply floor_fix in Hm. rewrite <- Hm. now apply floor_mono.
Qed.

(** [ceil] is the first boundary at or after a date. *)
Lemma ceil_boundary t : boundary period phase (Interval.ceil i t).
Proof. unfold Interval.ceil. apply (floor_boundary (offseti i _ 1)). Qed.

Lemma ceil_eq t : Interval.ceil i t = Interval.floor i (t - 1) + period.
Proof.
  unfold Interval.ceil. rewrite offseti_eq.
  fold (Interval.floor i (t - 1)).
  change (Interval.floor i (Interval.floor i (t - 1) + 1 * period)
          = Interval.floor i (t - 1) + period).
  rewrite Z.mul_1_l. apply floor_fix.
  replace period with (1 * period) at 2 by lia.
  apply boundary_shift, floor_boundary.
Qed.

Lemma ceil_bounds t : t <= Interval.ceil i t < t + period.
Proof. rewrite ceil_eq. pose proof (floor_bounds (t - 1)). lia. Qed.

Lemma ceil_least t m :
  boundary period phase m -> t <= m -> Interval.ceil i t <= m.
Proof.
  intros Hm Hle. rewrite ceil_eq.
  destruct (boundary_diff _ _ (floor_boundary (t - 1)) Hm) as [k Hk].
  pose proof (floor_bounds (t - 1)). assert (1 <= k) by nia. nia.
Qed.

(** The count of two dates is the distance of their floors in periods,
    and that distance is a whole number of periods. *)
Lemma count_eq a b :
  Interval.count i a b = (Interval.floor i b - Interval.floor i a) / period.
Proof. unfold Interval.count, Interval.floor. now rewrite counti_eq. Qed.

Lemma count_exact a b :
  Interval.floor i b = Interval.floor i a + Interval.count i a b * period.
Proof.
  rewrite count_eq.
  destruct (boundary_diff _ _ (floor_boundary a) (floor_boundary b)) as [k Hk].
  rewrite Hk. replace (Interval.floor i a + k * period - Interval.floor i a)
    with (k * period) by lia.
  rewrite Z.div_mul; lia.
Qed.

Lemma count_nonneg a b : a <= b -> 0 <= Interval.count i a b.
Proof.
  intros Hab. pose proof (count_exact a b). pose proof (floor_mono a b Hab). nia.
Qed.

(** The loop of [range] started at a boundary below [stop] visits the
    boundaries [start + k * period] below [stop], provided the fuel
    covers them. *)
Lemma steps_pos start stop : start < stop -> 1 <= steps period start stop.
Proof.
  intros H. unfold steps.
  pose proof (Z.div_pos (stop - 1 - start) period ltac:(lia) period_pos). lia.
Qed.

Lemma steps_next start stop :
  start + period < stop ->
  steps period (start + period) stop = steps period start stop - 1.
Proof.
  intros H. unfold steps.
  replace (stop - 1 - (start + period))
    with (stop - 1 - start + (-1) * period) by lia.
  rewrite Z.div_add by lia. lia.
Qed.

Lemma steps_last start stop :
  start < stop -> stop <= start + period -> steps period start stop = 1.
Proof.
  intros H1 H2. unfold steps. rewrite Z.div_small; lia.
Qed.

Lemma range_loop_closed fuel : forall start stop,
  boundary period phase start -> start < stop ->
  steps period start stop <= Z.of_nat fuel ->
  Interval.range_loop i fuel start stop
  = map (fun k => start + Z.of_nat k * period)
        (seq 0 (Z.to_nat (steps period start stop))).
Proof.
  induction fuel as [|fuel IH]; intros start stop Hb Hlt Hfuel.
  - pose proof (steps_pos _ _ Hlt). lia.
  - cbn [Interval.range_loop]. rewrite offseti_eq, Z.mul_1_l.
    assert (Hnext : floori i (start + period) = start + period).
    { apply floor_fix. replace period with (1 * period) at 2 by lia.
      now apply boundary_shift. }
    rewrite Hnext.
    replace (start <? start + period) with true
      by (symmetry; apply Z.ltb_lt; lia).
    cbn [andb].
    destruct (Z.ltb_spec (start + period) stop) as [Hin|Hout].
    + pose proof (steps_next _ _ Hin) as Hs.
      pose proof (steps_pos _ _ Hin) as Hp.
      rewrite IH; [|rewrite <- Hnext; apply floor_boundary| assumption | lia].
      replace (Z.to_nat (steps period start stop))
        with (S (Z.to_nat (steps period (start + period) stop))) by lia.
      cbn [seq map]. f_equal; [lia|].
      rewrite <- seq_shift, map_map. apply map_ext. intros k. lia.
    + rewrite (steps_last _ _ Hlt Hout).
      change (Z.to_nat 1) with 1%nat. cbn [seq map]. f_equal. lia.
Qed.

Lemma range_fuel start stop :
  boundary period phase start -> start < stop ->
  steps period start stop <= Z.of_nat (S (Z.to_nat (Interval.count i start stop))).
Proof.
  intros Hb Hlt.
  pose proof (count_exact start stop) as Hex.
  pose proof (proj1 (floor_fix start) Hb) as Hfs. rewrite Hfs in Hex.
  pose proof (floor_bounds stop) as Hst.
  pose proof (count_nonneg start stop ltac:(lia)) as Hq.
  unfold steps.
  assert ((stop - 1 - start) / period < Interval.count i start stop + 1).
  { apply Z.div_lt_upper_bound; [lia|]. nia. }
  lia.
Qed.

(** [range] in closed form: the fuel it is given is enough. *)
Lemma range_closed a b :
  Interval.range i a b
  = if Interval.ceil i a <? b
    then map (fun k => Interval.ceil i a + Z.of_nat k * period)
             (seq 0 (Z.to_nat (steps period (Interval.ceil i a) b)))
    else [].
Proof.
  unfold Interval.range.
  destruct (Z.ltb_spec (Interval.ceil i a) b) as [Hlt|Hge]; [|reflexivity].
  apply range_loop_closed; auto using ceil_boundary, range_fuel.
Qed.

(** [range a b] lists exactly the boundaries in [[a, b)], each once. *)
Lemma range_In a b x :
  In x (Interval.range i a b) <-> boundary period phase x /\ a <= x < b.
Proof.
  rewrite range_closed.
  pose proof (ceil_bounds a) as Hc. pose proof (ceil_boundary a) as Hcb.
  destruct (Z.ltb_spec (Interval.ceil i a) b) as [Hlt|Hge].
  - rewrite in_map_iff. split.
    + intros [k [Hk Hin]]. apply in_seq in Hin. subst x.
      split; [now apply boundary_shift|].
      assert (Z.of_nat k <= (b - 1 - Interval.ceil i a) / period)
        by (unfold steps in Hin; lia).
      pose proof (Z.mul_div_le (b - 1 - Interval.ceil i a) period period_pos).
      nia.
    + intros [Hb [Hax Hxb]].
      pose proof (ceil_least a x Hb Hax) as Hle.
      destruct (boundary_diff _ _ Hcb Hb) as [k Hk].
      assert (0 <= k) by nia.
      exists (Z.to_nat k). split; [lia|]. apply in_seq.
      assert (k <= (b - 1 - Interval.ceil i a) / period)
        by (apply Z.div_le_lower_bound; [lia|nia]).
      unfold steps. lia.
  - split; [intros []|]. intros [Hb [Hax Hxb]].
    pose proof (ceil_least a x Hb Hax). lia.
Qed.

Lemma range_NoDup a b : NoDup (Interval.range i a b).
Proof.
  rewrite range_closed. destruct (Interval.ceil i a <? b); [|constructor].
  apply Finite.Injective_map_NoDup; [|apply seq_NoDup].
  intros j k Hjk. nia.
Qed.

(** From the boundary after [a] up to the boundary [b], both boundaries,
    there are as many boundaries as periods from [a] to [b]. *)
Lemma range_length_after a b :
  boundary period phase a -> boundary period phase b -> a <= b ->
  Z.of_nat (List.length (Interval.range i (a + 1) (b + 1))) = (b - a) / period.
Proof.
  intros Ha Hb Hab. rewrite range_closed.
  assert (Hc : Interval.ceil i (a + 1) = a + period).
  { rewrite ceil_eq. replace (a + 1 - 1) with a by lia.
    now rewrite (proj1 (floor_fix a) Ha). }
  rewrite Hc. destruct (boundary_diff _ _ Ha Hb) as [k Hk]. subst b.
  replace (a + k * period - a) with (k * period) by lia.
  rewrite Z.div_mul by lia.
  destruct (Z.ltb_spec (a + period) (a + k * period + 1)) as [Hlt|Hge].
  - rewrite length_map, length_seq. unfold steps.
    replace (a + k * period + 1 - 1 - (a + period))
      with ((k - 1) * period) by lia.
    rewrite Z.div_mul by lia. assert (1 <= k) by nia. lia.
  - cbn. assert (0 <= k) by nia. nia.
Qed.

End Periodic.

(** ** The day and the Monday intervals *)

Lemma timeDay_floori t : floori timeDay t = t - (t - 0) mod msPerDay.
Proof. cbn. unfold startOfDay, timeInDay. now rewrite Z.sub_0_r. Qed.

Lemma timeDay_offseti t k : offseti timeDay t k = t + k * msPerDay.
Proof. reflexivity. Qed.

Lemma timeDay_counti a b : counti timeDay a b = (b - a) / msPerDay.
Proof. reflexivity. Qed.

(** 1970-01-05, four days after the epoch, was a Monday. *)
Lemma monday_floor_arith t :
  t + - (((t / 86400000 + 4) mod 7 + 7 - 1) mod 7) * 86400000
  - (t + - (((t / 86400000 + 4) mod 7 + 7 - 1) mod 7) * 86400000) mod 86400000
  = t - (t - 4 * 86400000) mod 604800000.
Proof.
  pose proof (Z.div_mod t 86400000 ltac:(lia)) as H.
  set (d := t / 86400000) in *. set (r := t mod 86400000) in *.
  assert (Hr : 0 <= r < 86400000) by (apply Z.mod_pos_bound; lia).
  set (k := ((d + 4) mod 7 + 7 - 1) mod 7).
  assert (Hk : k = (d + 3) mod 7)
    by (subst k; Z.to_euclidean_division_equations; lia).
  assert (H1 : (t + - k * 86400000) mod 86400000 = r)
    by (now rewrite Z.mod_add by lia).
  rewrite H1.
  assert (H2 : (t - 4 * 86400000) mod 604800000 = k * 86400000 + r).
  { symmetry. apply (Z.mod_unique_pos _ _ ((d + 3) / 7 - 1)).
    - rewrite Hk. pose proof (Z.mod_pos_bound (d + 3) 7 ltac:(lia)). lia.
    - rewrite Hk. pose proof (Z.div_mod (d + 3) 7 ltac:(lia)). lia. }
  rewrite H2. lia.
Qed.

Lemma timeMonday_floori t :
  floori timeMonday t = t - (t - 4 * msPerDay) mod msPerWeek.
Proof. exact (monday_floor_arith t). Qed.

Lemma timeMonday_offseti t k : offseti timeMonday t k = t + k * msPerWeek.
Proof. cbn. unfold addDays, msPerWeek, msPerDay. lia. Qed.

Lemma timeMonday_counti a b : counti timeMonday a b = (b - a) / msPerWeek.
Proof. reflexivity. Qed.

Lemma msPerDay_pos : 0 < msPerDay.
Proof. reflexivity. Qed.

Lemma msPerWeek_pos : 0 < msPerWeek.
Proof. reflexivity. Qed.

(** The days [timeDays] lists are the local midnights from [start] on and
    before [stop], each once. *)
Lemma timeDays_In start stop d :
  In d (timeDays start stop) <-> startOfDay d = d /\ start <= d < stop.
Proof.
  unfold timeDays.
  rewrite (range_In timeDay msPerDay 0 msPerDay_pos
             timeDay_floori timeDay_offseti timeDay_counti).
  rewrite (floor_fix timeDay msPerDay 0 timeDay_floori). reflexivity.
Qed.

Lemma timeDays_NoDup start stop : NoDup (timeDays start stop).
Proof.
  apply (range_NoDup timeDay msPerDay 0 msPerDay_pos
           timeDay_floori timeDay_offseti timeDay_counti).
Qed.

Lemma timeMonday_floor_mono a b :
  a <= b -> Interval.floor timeMonday a <= Interval.floor timeMonday b.
Proof.
  apply (floor_mono timeMonday msPerWeek (4 * msPerDay) msPerWeek_pos
           timeMonday_floori).
Qed.

Lemma timeMonday_floor_idem t :
  Interval.floor timeMonday (Interval.floor timeMonday t)
  = Interval.floor timeMonday t.
Proof.
  apply (floor_fix timeMonday msPerWeek (4 * msPerDay) timeMonday_floori).
  apply (floor_boundary timeMonday msPerWeek (4 * msPerDay) msPerWeek_pos
           timeMonday_floori).
Qed.

(** The Monday boundaries between two dates, as the enumerations list
    them. *)
Lemma mondaysStrictlyBetween_In a b m :
  In m (mondaysStrictlyBetween a b) <-> isMondayBoundary m /\ a < m < b.
Proof.
  unfold mondaysStrictlyBetween, isMondayBoundary.
  rewrite (range_In timeMonday msPerWeek (4 * msPerDay) msPerWeek_pos
             timeMonday_floori timeMonday_offseti timeMonday_counti).
  rewrite (floor_fix timeMonday msPerWeek (4 * msPerDay) timeMonday_floori).
  intuition lia.
Qed.

Lemma mondaysAfterUpTo_In a b m :
  In m (mondaysAfterUpTo a b) <-> isMondayBoundary m /\ a < m <= b.
Proof.
  unfold mondaysAfterUpTo, isMondayBoundary.
  rewrite (range_In timeMonday msPerWeek (4 * msPerDay) msPerWeek_pos
             timeMonday_floori timeMonday_offseti timeMonday_counti).
  rewrite (floor_fix timeMonday msPerWeek (4 * msPerDay) timeMonday_floori).
  intuition lia.
Qed.

Lemma mondaysAfterUpTo_NoDup a b : NoDup (mondaysAfterUpTo a b).
Proof.
  apply (range_NoDup timeMonday msPerWeek (4 * msPerDay) msPerWeek_pos
           timeMonday_floori timeMonday_offseti timeMonday_counti).
Qed.

(** [weekCount] is one more than the whole number of weeks between the
    Monday floors of the two dates. *)
Lemma weekCountOf_eq startDate endDate :
  weekCountOf startDate endDate
  = (Interval.floor timeMonday endDate - Interval.floor timeMonday startDate)
    / msPerWeek + 1.
Proof.
  unfold weekCountOf.
  rewrite (count_eq timeMonday msPerWeek timeMonday_counti).
  now rewrite !timeMonday_floor_idem.
Qed.

Lemma weekCountOf_exact startDate endDate :
  Interval.floor timeMonday endDate
  = Interval.floor timeMonday startDate
    + (weekCountOf startDate endDate - 1) * msPerWeek.
Proof.
  unfold weekCountOf.
  pose proof (count_exact timeMonday msPerWeek (4 * msPerDay) msPerWeek_pos
                timeMonday_floori timeMonday_counti
                (Interval.floor timeMonday startDate)
                (Interval.floor timeMonday endDate)) as H.
  rewrite !timeMonday_floor_idem in H. lia.
Qed.

Lemma weekCountOf_pos startDate endDate :
  startDate <= endDate -> 1 <= weekCountOf startDate endDate.
Proof.
  intros H. pose proof (weekCountOf_exact startDate endDate).
  pose proof (timeMonday_floor_mono _ _ H). pose proof msPerWeek_pos. nia.
Qed.

(** ** The tooltip *)

Section TooltipShow.

Local Open Scope Q_scope.

Variable env : Layout.
Variable cellX : Q.

Lemma adjustedX_near_left :
  overflowsLeft env cellX ->
  tooltip.adjustedX env cellX = clientWidth env / 2.
Proof.
  unfold overflowsLeft, anchorX, tooltip.adjustedX. intros H.
  destruct (Qle_bool 0 _) eqn:E; [|reflexivity].
  apply Qle_bool_iff in E. lra.
Qed.

Lemma adjustedX_near_right :
  ~ overflowsLeft env cellX -> overflowsRight env cellX ->
  tooltip.adjustedX env cellX
  = rect_width (svgRect env) - clientWidth env / 2.
Proof.
  unfold overflowsLeft, overflowsRight, anchorX, tooltip.adjustedX.
  intros Hl Hr.
  destruct (Qle_bool 0 _) eqn:E.
  - cbn [negb]. destruct (Qle_bool _ (rect_width _)) eqn:F; [|reflexivity].
    apply Qle_bool_iff in F. lra.
  - exfalso. apply Hl. apply Qnot_le_lt. intros H.
    apply Qle_bool_iff in H. congruence.
Qed.

Lemma adjustedX_inside :
  ~ overflowsLeft env cellX -> ~ overflowsRight env cellX ->
  tooltip.adjustedX env cellX = anchorX env cellX.
Proof.
  unfold overflowsLeft, overflowsRight, anchorX, tooltip.adjustedX.
  intros Hl Hr.
  destruct (Qle_bool 0 _) eqn:E.
  - cbn [negb]. destruct (Qle_bool _ (rect_width _)) eqn:F; [reflexivity|].
    exfalso. apply Hr. apply Qnot_le_lt. intros H.
    apply Qle_bool_iff in H. congruence.
  - exfalso. apply Hl. apply Qnot_le_lt. intros H.
    apply Qle_bool_iff in H. congruence.
Qed.

(** A tooltip that leaves the surface on both sides is wider than the
    surface. *)
Lemma overflows_both_wider :
  overflowsLeft env cellX -> overflowsRight env cellX ->
  rect_width (svgRect env) < clientWidth env.
Proof.
  unfold overflowsLeft, overflowsRight, anchorX. intros Hl Hr.
  assert (clientWidth env == 2 * (clientWidth env / 2)) by field.
  lra.
Qed.

End TooltipShow.

(** C6: [show] places the tooltip at half its width when, centred on the
    anchor, it would pass the left edge of the surface; at the surface
    width less half its width when it would pass the right edge (the
    cases are taken in this order, so this one is reached when the left
    edge is not passed, which is always so for a tooltip no wider than
    the surface); at the anchor itself, relative to the surface,
    otherwise. *)
Theorem show_left_position env c content cellX cellY :
  exists position,
    left (tooltipRef (tooltip.show env c content cellX cellY)) = Some position
    /\ (overflowsLeft env cellX -> position = (clientWidth env / 2)%Q)
    /\ (~ overflowsLeft env cellX -> overflowsRight env cellX ->
        position = (rect_width (svgRect env) - clientWidth env / 2)%Q)
    /\ ((clientWidth env <= rect_width (svgRect env))%Q ->
        overflowsRight env cellX ->
        position = (rect_width (svgRect env) - clientWidth env / 2)%Q)
    /\ (~ overflowsLeft env cellX -> ~ overflowsRight env cellX ->
        position = anchorX env cellX).
Proof.
  exists (tooltip.adjustedX env cellX). split; [reflexivity|].
  split; [apply adjustedX_near_left|].
  split; [apply adjustedX_near_right|].
  split; [|apply adjustedX_inside].
  intros Hfits Hr. apply adjustedX_near_right; [|assumption].
  intros Hl. pose proof (overflows_both_wider env cellX Hl Hr). lra.
Qed.

(** The three cases of C6 at work: an anchor 5 right of the left edge, one
    795 right of it and one in the middle, for a tooltip 60 wide on a
    surface 800 wide. *)
Lemma show_left_position_witness :
  left (tooltipRef (tooltip.show wideSurface scenario "5" 15 0)) = Some (60 / 2)%Q
  /\ left (tooltipRef (tooltip.show wideSurface scenario "5" 805 0))
     = Some (800 - 60 / 2)%Q
  /\ left (tooltipRef (tooltip.show wideSurface scenario "5" 410 0))
     = Some (410 - 10)%Q.
Proof.
  split; [|split].
  - destruct (show_left_position wideSurface scenario "5" 15 0)
      as [p [Hp [H1 _]]].
    rewrite Hp. f_equal. apply H1. reflexivity.
  - destruct (show_left_position wideSurface scenario "5" 805 0)
      as [p [Hp [_ [_ [H2 _]]]]].
    rewrite Hp. f_equal. apply H2; [discriminate | reflexivity].
  - destruct (show_left_position wideSurface scenario "5" 410 0)
      as [p [Hp [_ [_ [_ H3]]]]].
    rewrite Hp. f_equal. apply H3; discriminate.
Defined.

(** C10, as stated, fails: a tooltip 100 wide on a surface 80 wide,
    hovered at 60, passes the right edge only, and is placed at
    80 - 100 / 2, not at 100 / 2. *)
Lemma wider_tooltip_clamped_right :
  (rect_width (svgRect narrowSurface) < clientWidth narrowSurface)%Q
  /\ left (tooltipRef (tooltip.show narrowSurface scenario "5" 60 0))
     = Some (80 - 100 / 2)%Q
  /\ ~ (80 - 100 / 2 == 100 / 2)%Q.
Proof. repeat split; discriminate. Qed.

(** C10, amended: when the tooltip centred on the anchor would pass both
    edges of the surface, which needs a tooltip wider than the surface,
    the test of the left edge wins: the tooltip is placed at half its
    width, and that is not the surface width less half its width. *)
Theorem show_left_priority env c content cellX cellY :
  overflowsLeft env cellX -> overflowsRight env cellX ->
  left (tooltipRef (tooltip.show env c content cellX cellY))
  = Some (clientWidth env / 2)%Q
  /\ (rect_width (svgRect env) < clientWidth env)%Q
  /\ ~ (clientWidth env / 2 == rect_width (svgRect env) - clientWidth env / 2)%Q.
Proof.
  intros Hl Hr. pose proof (overflows_both_wider env cellX Hl Hr) as Hw.
  split; [|split; [exact Hw|]].
  - cbn. f_equal. now apply adjustedX_near_left.
  - assert (clientWidth env == 2 * (clientWidth env / 2))%Q by field.
    lra.
Qed.

Lemma show_left_priority_witness :
  left (tooltipRef (tooltip.show narrowSurface scenario "5" 40 0))
  = Some (100 / 2)%Q
  /\ (80 < 100)%Q
  /\ ~ (100 / 2 == 80 - 100 / 2)%Q.
Proof.
  apply (show_left_priority narrowSurface scenario "5" 40 0); reflexivity.
Defined.

(** ** Refreshing and rendering *)

(** C7: a refresh with a width that is zero or less is rejected: the
    geometry computed before ([cellSize], [height]), the stored
    [dataPoints], [width], [fontColor] and [fontSize], the colour scale,
    the surface and the tooltip are what they were (nothing is drawn
    again), and the console receives one debug line. *)
Theorem refreshSVG_rejects_width
    c newDataPoints newWidth newFontColor newFontSize :
  (newWidth <= Fin 0)%num ->
  refreshSVG c newDataPoints newWidth newFontColor newFontSize
  = withConsole c (ConsoleDebug [LStr "newWidth illegal!"; LNum newWidth])
  /\ cellSize (refreshSVG c newDataPoints newWidth newFontColor newFontSize)
     = cellSize c
  /\ height (refreshSVG c newDataPoints newWidth newFontColor newFontSize)
     = height c
  /\ dataPoints (refreshSVG c newDataPoints newWidth newFontColor newFontSize)
     = dataPoints c
  /\ width (refreshSVG c newDataPoints newWidth newFontColor newFontSize)
     = width c
  /\ fontColor (refreshSVG c newDataPoints newWidth newFontColor newFontSize)
     = fontColor c
  /\ fontSize (refreshSVG c newDataPoints newWidth newFontColor newFontSize)
     = fontSize c
  /\ svgRef (refreshSVG c newDataPoints newWidth newFontColor newFontSize)
     = svgRef c.
Proof.
  unfold Num.le, refreshSVG. intros ->. repeat split.
Qed.

(** The mounted sample refreshed with three days of February at the
    width -5. *)
Lemma refreshSVG_rejects_width_witness :
  refreshSVG scenario (daily (ymd 2024 2 1) 3 1) (Fin (-5)) "#fff" (Fin 16)
  = withConsole scenario
      (ConsoleDebug [LStr "newWidth illegal!"; LNum (Fin (-5))])
  /\ svgRef (refreshSVG scenario (daily (ymd 2024 2 1) 3 1) (Fin (-5))
               "#fff" (Fin 16))
     = svgRef scenario.
Proof.
  destruct (refreshSVG_rejects_width scenario (daily (ymd 2024 2 1) 3 1)
              (Fin (-5)) "#fff" (Fin 16))
    as [H [_ [_ [_ [_ [_ [_ Hsvg]]]]]]].
  - reflexivity.
  - split; [exact H | exact Hsvg].
Defined.

(** C2, as stated, fails: refreshing the mounted sample with an empty
    sequence leaves a surface that differs from the one drawn before. *)
Lemma empty_refresh_changes_surface :
  dataPoints (refreshSVG scenario [] (Fin 200) "#666" (Fin 14)) = []
  /\ svgRef (refreshSVG scenario [] (Fin 200) "#666" (Fin 14))
     <> svgRef scenario.
Proof. split; [reflexivity|]. vm_compute. discriminate. Qed.

(** C2, amended: a render with an empty sequence empties the surface and
    stops there: it draws nothing, leaves [cellSize], [height] and every
    other part of the instance as they were, and reports on the error
    channel of the console, once. *)
Theorem generateSVG_empty c :
  dataPoints c = [] ->
  generateSVG c
  = withConsole (withSvg c []) (ConsoleError [LStr "Heatmap no data available"])
  /\ svgRef (generateSVG c) = []
  /\ cellSize (generateSVG c) = cellSize c
  /\ height (generateSVG c) = height c
  /\ console (generateSVG c)
     = console c ++ [ConsoleError [LStr "Heatmap no data available"]].
Proof.
  intros H. unfold generateSVG. cbn [dataPoints withSvg]. rewrite H.
  repeat split.
Qed.

Lemma generateSVG_empty_witness :
  generateSVG (withProps scenario [] (Fin 200) "#666" (Fin 14))
  = withConsole (withSvg (withProps scenario [] (Fin 200) "#666" (Fin 14)) [])
      (ConsoleError [LStr "Heatmap no data available"])
  /\ svgRef (generateSVG (withProps scenario [] (Fin 200) "#666" (Fin 14))) = []
  /\ cellSize (generateSVG (withProps scenario [] (Fin 200) "#666" (Fin 14)))
     = cellSize (withProps scenario [] (Fin 200) "#666" (Fin 14))
  /\ height (generateSVG (withProps scenario [] (Fin 200) "#666" (Fin 14)))
     = height (withProps scenario [] (Fin 200) "#666" (Fin 14))
  /\ console (generateSVG (withProps scenario [] (Fin 200) "#666" (Fin 14)))
     = console (withProps scenario [] (Fin 200) "#666" (Fin 14))
       ++ [ConsoleError [LStr "Heatmap no data available"]].
Proof.
  apply (generateSVG_empty (withProps scenario [] (Fin 200) "#666" (Fin 14))).
  reflexivity.
Defined.

(** ** The day cells *)

Lemma find_all_false {A} (f : A -> bool) (l : list A) :
  (forall a, In a l -> f a = false) -> find f l = None.
Proof.
  induction l as [|a l IH]; intros H; [reflexivity|].
  cbn. rewrite (H a (or_introl eq_refl)). apply IH.
  intros b Hb. apply H. now right.
Qed.

Lemma find_first {A} (f : A -> bool) (pre : list A) (a : A) (post : list A) :
  (forall b, In b pre -> f b = false) -> f a = true ->
  find f (pre ++ a :: post) = Some a.
Proof.
  induction pre as [|b pre IH]; intros Hpre Ha; cbn.
  - now rewrite Ha.
  - rewrite (Hpre b (or_introl eq_refl)). apply IH; [|assumption].
    intros b' Hb'. apply Hpre. now right.
Qed.

(** Every day [timeDays] lists gets one cell, and the cells are those. *)
Lemma cells_In c startDate endDate cell :
  In cell (cells c startDate endDate)
  <-> exists day, In day (timeDays startDate endDate)
                  /\ cell = cellOf c startDate day.
Proof.
  unfold cells. rewrite in_map_iff. split; intros [d [H1 H2]]; eauto.
Qed.

Lemma cells_dates c startDate endDate :
  map Cell.date (cells c startDate endDate) = timeDays startDate endDate.
Proof.
  unfold cells. rewrite map_map. cbn. apply map_id.
Qed.

(** The cells drawn are at local midnights from the first date on and
    before the last date. *)
Lemma cells_range c startDate endDate cell :
  In cell (cells c startDate endDate) ->
  startOfDay (Cell.date cell) = Cell.date cell
  /\ startDate <= Cell.date cell < endDate.
Proof.
  intros H. apply cells_In in H. destruct H as [day [Hday ->]].
  now apply timeDays_In in Hday.
Qed.

(** The position of the cell of a day: the column is the Monday-week
    distance from the first date, the row the week day counted from
    Monday. *)
Lemma cellOf_position c startDate day :
  Cell.x (cellOf c startDate day)
  = (Num.of_Z (Interval.count timeMonday
                 (Interval.floor timeMonday startDate)
                 (Interval.floor timeMonday day))
     * (cellSize c + Num.of_Z cellGap))%num
  /\ Cell.y (cellOf c startDate day)
     = (Num.of_Z ((getDay day + 6) mod 7) * (cellSize c + Num.of_Z cellGap))%num.
Proof. split; reflexivity. Qed.

(** C8: the cell of a day of the rendered range on which no data point
    falls has count 0 and the colour the scale gives to 0; when data
    points do fall on the day, the cell takes the count of the first of
    them in the sequence. *)
Theorem cell_default_and_first_match c startDate endDate day :
  In day (timeDays startDate endDate) ->
  In (cellOf c startDate day) (cells c startDate endDate)
  /\ Cell.date (cellOf c startDate day) = day
  /\ ((forall d, In d (dataPoints c) -> ~ sameDay (HeatmapDataPoint.date d) day) ->
      Cell.count (cellOf c startDate day) = 0%N
      /\ Cell.fill (cellOf c startDate day) = colorScale (scaleData c) 0)
  /\ (forall pre d post,
        dataPoints c = pre ++ d :: post ->
        (forall d', In d' pre -> ~ sameDay (HeatmapDataPoint.date d') day) ->
        sameDay (HeatmapDataPoint.date d) day ->
        Cell.count (cellOf c startDate day) = HeatmapDataPoint.count d).
Proof.
  intros Hday. split; [|split; [reflexivity|split]].
  - apply cells_In. eauto.
  - intros Hnone. unfold cellOf. cbn [Cell.count Cell.fill].
    rewrite find_all_false; [split; reflexivity|].
    intros d Hd. apply Z.eqb_neq. now apply Hnone.
  - intros pre d post Hdata Hpre Hd. unfold cellOf. cbn [Cell.count].
    rewrite Hdata, find_first; [reflexivity| |now apply Z.eqb_eq].
    intros d' Hd'. apply Z.eqb_neq. now apply Hpre.
Qed.

Lemma cell_default_and_first_match_witness :
  (Cell.count (cellOf gappy (ymd 2024 1 1) (ymd 2024 1 3)) = 0%N
   /\ Cell.fill (cellOf gappy (ymd 2024 1 1) (ymd 2024 1 3))
      = colorScale (scaleData gappy) 0)
  /\ Cell.count (cellOf gappy (ymd 2024 1 1) (ymd 2024 1 1)) = 3%N.
Proof.
  split.
  - destruct (cell_default_and_first_match gappy (ymd 2024 1 1) (ymd 2024 1 5)
                (ymd 2024 1 3)) as [_ [_ [H _]]].
    + vm_compute. auto.
    + apply H. intros d Hd. vm_compute in Hd.
      destruct Hd as [<-|[<-|[<-|[]]]]; vm_compute; discriminate.
  - destruct (cell_default_and_first_match gappy (ymd 2024 1 1) (ymd 2024 1 5)
                (ymd 2024 1 1)) as [_ [_ [_ H]]].
    + vm_compute. auto.
    + apply (H [] {| HeatmapDataPoint.date := ymd 2024 1 1;
                     HeatmapDataPoint.count := 3 |}
               [ {| HeatmapDataPoint.date := ymd 2024 1 1 + 9 * 3600000;
                    HeatmapDataPoint.count := 9 |};
                 {| HeatmapDataPoint.date := ymd 2024 1 5;
                    HeatmapDataPoint.count := 2 |} ]).
      * reflexivity.
      * intros d' [].
      * reflexivity.
Defined.

(** What [generateSVG] draws: the rectangles on the surface carry the
    cells of the days from the first date to the last. *)
Lemma rectCells_rects c l : flat_map rectCells (map (rectOf c) l) = l.
Proof. induction l as [|a l IH]; cbn; [reflexivity|now rewrite IH]. Qed.

Lemma rectCells_none {A} (f : A -> Element) (l : list A) :
  (forall a, rectCells (f a) = []) -> flat_map rectCells (map f l) = [].
Proof.
  intros H. induction l as [|a l IH]; cbn; [reflexivity|].
  now rewrite H, IH.
Qed.

Lemma rectCells_labels c startDate endDate weekCount :
  rectCells (generateYearLegendSVG c) = []
  /\ rectCells (generateMonthLabelsSVG c startDate endDate) = []
  /\ rectCells (generateWeekLabelsSVG c weekCount) = [].
Proof.
  split; [reflexivity|split].
  - cbn. now apply rectCells_none.
  - unfold generateWeekLabelsSVG. cbn [rectCells].
    apply rectCells_none. now intros [index day].
Qed.

(** A render of a sequence that is not empty, step by step. *)
Lemma generateSVG_nonempty c :
  dataPoints c <> [] ->
  generateSVG c
  = let startDate := firstDate (dataPoints c) in
    let endDate := lastDate (dataPoints c) in
    let weekCount := weekCountOf startDate endDate in
    let c1 := layout (withSvg c []) weekCount in
    let c2 := withSvg c1 [svgGroup c1 startDate endDate weekCount] in
    withConsole c2
      (ConsoleDebug [LStr "生成 SVG 完成，width："; LNum (width c2);
                     LStr "height："; LNum (height c2)]).
Proof.
  intros H. unfold generateSVG. cbv zeta.
  change (dataPoints (withSvg c [])) with (dataPoints c).
  destruct (dataPoints c); [congruence|reflexivity].
Qed.

Lemma cellSize_generateSVG c :
  dataPoints c <> [] ->
  cellSize (generateSVG c)
  = cellSizeOf (width c)
      (weekCountOf (firstDate (dataPoints c)) (lastDate (dataPoints c))).
Proof. intros H. now rewrite generateSVG_nonempty. Qed.

Lemma rectCells_group attrs children :
  rectCells (SvgGroup attrs children) = flat_map rectCells children.
Proof. reflexivity. Qed.

Lemma flat_map_step {A B} (f : A -> list B) a l :
  flat_map f (a :: l) = f a ++ flat_map f l.
Proof. reflexivity. Qed.

Lemma rectCells_svgGroup c startDate endDate weekCount :
  rectCells (svgGroup c startDate endDate weekCount)
  = cells c startDate endDate.
Proof.
  unfold svgGroup. rewrite rectCells_group, !flat_map_step.
  destruct (rectCells_labels c startDate endDate weekCount) as [H1 [H2 H3]].
  rewrite H1, H2, H3. unfold generateCellsSVG.
  rewrite rectCells_group, rectCells_rects.
  cbn [flat_map app]. apply app_nil_r.
Qed.

Lemma cellOf_ext c1 c2 startDate day :
  dataPoints c1 = dataPoints c2 -> cellSize c1 = cellSize c2 ->
  scaleData c1 = scaleData c2 ->
  cellOf c1 startDate day = cellOf c2 startDate day.
Proof. unfold cellOf. now intros -> -> ->. Qed.

Lemma renderedCells_generateSVG c :
  dataPoints c <> [] ->
  renderedCells (generateSVG c)
  = cells
      (withGeometry c
         (cellSizeOf (width c)
            (weekCountOf (firstDate (dataPoints c)) (lastDate (dataPoints c))))
         (height c))
      (firstDate (dataPoints c)) (lastDate (dataPoints c)).
Proof.
  intros H. rewrite generateSVG_nonempty by assumption. cbv zeta.
  unfold renderedCells.
  change (svgRef (withConsole ?a ?d)) with (svgRef a).
  change (svgRef (withSvg ?a ?l)) with l.
  rewrite flat_map_step, rectCells_svgGroup. cbn [flat_map].
  rewrite app_nil_r.
  unfold cells. apply map_ext. intros day.
  apply cellOf_ext; reflexivity.
Qed.

(** The rectangles of a render are dated at local midnights from the
    first date on and before the last date: a last date at local midnight
    gets no rectangle, and neither does a first date later in its day. *)
Lemma renderedCells_range c cell :
  dataPoints c <> [] ->
  In cell (renderedCells (generateSVG c)) ->
  startOfDay (Cell.date cell) = Cell.date cell
  /\ firstDate (dataPoints c) <= Cell.date cell < lastDate (dataPoints c).
Proof.
  intros H Hin. rewrite renderedCells_generateSVG in Hin by assumption.
  now apply cells_range in Hin.
Qed.

(** C1 at work on daily data for 2024-01-01 .. 2024-01-08 mounted at width
    200: the sequence has eight days and the surface seven rectangles,
    none for 2024-01-08; with every date at 10:00 instead of midnight
    there are seven again, none for 2024-01-01.  The rectangles that are
    drawn sit where the claim puts them (weeks 0,0,0,0,0,0,0 and days
    0..6 at a pitch of 14 + 3). *)
Theorem scenario_misses_a_day :
  map HeatmapDataPoint.date (dataPoints scenario)
  = map (ymd 2024 1) [1; 2; 3; 4; 5; 6; 7; 8]
  /\ map Cell.date (renderedCells scenario)
     = map (ymd 2024 1) [1; 2; 3; 4; 5; 6; 7]
  /\ map (fun cell => (Cell.x cell, Cell.y cell)) (renderedCells scenario)
     = map (fun day => (Fin 0, Fin (inject_Z (day * 17)))) [0; 1; 2; 3; 4; 5; 6]
  /\ map (fun d => startOfDay (HeatmapDataPoint.date d)) (dataPoints scenarioAtTen)
     = map (ymd 2024 1) [1; 2; 3; 4; 5; 6; 7; 8]
  /\ map Cell.date (renderedCells scenarioAtTen)
     = map (ymd 2024 1) [2; 3; 4; 5; 6; 7; 8].
Proof. vm_compute. repeat split. Qed.

(** ** The week count *)

(** C4, as stated, fails on its own example: from 2024-01-01 to
    2024-01-15 the week count is 3, while one Monday boundary only,
    2024-01-08, lies strictly between the two Monday floors. *)
Lemma weekCount_not_strictly_between :
  weekCountOf (ymd 2024 1 1) (ymd 2024 1 15) = 3
  /\ mondaysStrictlyBetween (Interval.floor timeMonday (ymd 2024 1 1))
                            (Interval.floor timeMonday (ymd 2024 1 15))
     = [ymd 2024 1 8]
  /\ weekCountOf (ymd 2024 1 1) (ymd 2024 1 15)
     <> Z.of_nat (List.length
                    (mondaysStrictlyBetween
                       (Interval.floor timeMonday (ymd 2024 1 1))
                       (Interval.floor timeMonday (ymd 2024 1 15))))
        + 1.
Proof. vm_compute. repeat split. discriminate. Qed.

(** C4, amended: for a start date at or before the end date, the week
    count is one more than the number of Monday boundaries after the
    Monday floor of the start date and up to the Monday floor of the end
    date, that floor included; it is also the distance of the two floors
    in weeks, plus one. *)
Theorem weekCount_counts_mondays startDate endDate :
  startDate <= endDate ->
  weekCountOf startDate endDate
  = Z.of_nat (List.length
                (mondaysAfterUpTo (Interval.floor timeMonday startDate)
                                  (Interval.floor timeMonday endDate)))
    + 1
  /\ weekCountOf startDate endDate
     = (Interval.floor timeMonday endDate - Interval.floor timeMonday startDate)
       / msPerWeek + 1.
Proof.
  intros Hle. split; [|apply weekCountOf_eq].
  rewrite weekCountOf_eq. f_equal. symmetry. unfold mondaysAfterUpTo.
  apply (range_length_after timeMonday msPerWeek (4 * msPerDay) msPerWeek_pos
           timeMonday_floori timeMonday_offseti timeMonday_counti).
  - apply (floor_boundary timeMonday msPerWeek (4 * msPerDay) msPerWeek_pos
             timeMonday_floori).
  - apply (floor_boundary timeMonday msPerWeek (4 * msPerDay) msPerWeek_pos
             timeMonday_floori).
  - now apply timeMonday_floor_mono.
Qed.

Lemma weekCount_counts_mondays_witness :
  weekCountOf (ymd 2024 1 3) (ymd 2024 1 15 + 1000)
  = Z.of_nat (List.length
                (mondaysAfterUpTo
                   (Interval.floor timeMonday (ymd 2024 1 3))
                   (Interval.floor timeMonday (ymd 2024 1 15 + 1000))))
    + 1
  /\ weekCountOf (ymd 2024 1 3) (ymd 2024 1 15 + 1000)
     = (Interval.floor timeMonday (ymd 2024 1 15 + 1000)
        - Interval.floor timeMonday (ymd 2024 1 3))
       / msPerWeek + 1.
Proof.
  apply (weekCount_counts_mondays (ymd 2024 1 3) (ymd 2024 1 15 + 1000)).
  vm_compute. discriminate.
Defined.

(** ** The cell size *)

Lemma ascending_first_last data :
  data <> [] -> ascending data = true -> firstDate data <= lastDate data.
Proof.
  destruct data as [|a l]; [congruence|]. intros _.
  unfold firstDate, lastDate. cbn [map hd].
  revert a. induction l as [|b l IH]; intros a H.
  - cbn. lia.
  - cbn [ascending] in H. apply andb_prop in H. destruct H as [Hab Hl].
    apply Z.leb_le in Hab. specialize (IH b Hl).
    cbn [map last] in *. lia.
Qed.

Lemma weekCount_pos c :
  dataPoints c <> [] -> ascending (dataPoints c) = true -> 1 <= weekCount c.
Proof.
  intros H1 H2. apply weekCountOf_pos. now apply ascending_first_last.
Qed.

Lemma Qeq_bool_inject_Z z : z <> 0 -> Qeq_bool (inject_Z z) 0 = false.
Proof.
  intros H. destruct (Qeq_bool (inject_Z z) 0) eqn:E; [|reflexivity].
  apply Qeq_bool_eq in E. unfold Qeq in E. cbn in E. lia.
Qed.

Lemma inject_Z_pos z : 0 < z -> (0 < inject_Z z)%Q.
Proof. intros H. unfold Qlt. cbn. lia. Qed.

Lemma Qle_bool_false x y : Qle_bool x y = false <-> (y < x)%Q.
Proof.
  split.
  - intros H. apply Qnot_le_lt. intros Hle. apply Qle_bool_iff in Hle. congruence.
  - intros H. destruct (Qle_bool x y) eqn:E; [|reflexivity].
    apply Qle_bool_iff in E. lra.
Qed.

(** The unclamped size for a finite width and a week count of at least
    one is the solution of the width equation. *)
Lemma unclamped_finite w n :
  1 <= n ->
  unclampedCellSize (Fin w) n
  = Fin ((w + - inject_Z ((n - 1) * cellGap)) / inject_Z (n + 2)).
Proof.
  intros H. unfold unclampedCellSize. cbn.
  now rewrite Qeq_bool_inject_Z by lia.
Qed.


Lemma Qcompare_inject_Z_pos z : 0 < z -> (inject_Z z ?= 0)%Q = Gt.
Proof. intros H. apply Qgt_alt. now apply inject_Z_pos. Qed.

Lemma unclamped_infinite n :
  1 <= n ->
  unclampedCellSize PosInf n = PosInf
  /\ unclampedCellSize NegInf n = NegInf
  /\ unclampedCellSize NaN n = NaN.
Proof.
  intros H. unfold unclampedCellSize. cbn.
  rewrite Qeq_bool_inject_Z, Qcompare_inject_Z_pos by lia. now cbn.
Qed.

Lemma lt_Fin a b : (Fin a < Fin b)%num <-> (a < b)%Q.
Proof.
  unfold Num.lt. cbn. rewrite negb_true_iff. apply Qle_bool_false.
Qed.

Lemma le_Fin a b : (Fin a <= Fin b)%num <-> (a <= b)%Q.
Proof. unfold Num.le. cbn. apply Qle_bool_iff. Qed.

Lemma min_Fin a b :
  Num.min (Fin a) (Fin b) = if Qle_bool a b then Fin a else Fin b.
Proof. reflexivity. Qed.

(** ** Binary64 *)

Lemma roundHalfEven_error m :
  (Qabs (inject_Z (Binary64.roundHalfEven m) - m) <= 1 # 2)%Q.
Proof.
  unfold Binary64.roundHalfEven. cbv zeta.
  pose proof (Qfloor_le m) as H1. pose proof (Qlt_floor m) as H2.
  rewrite inject_Z_plus in H2. change (inject_Z 1) with 1%Q in H2.
  apply Qabs_Qle_condition.
  destruct (Qcompare_spec (m - inject_Z (Qfloor m)) (1 # 2)) as [E|E|E].
  - destruct (Z.even (Qfloor m)).
    + lra.
    + rewrite inject_Z_plus. change (inject_Z 1) with 1%Q. lra.
  - lra.
  - rewrite inject_Z_plus. change (inject_Z 1) with 1%Q. lra.
Qed.

Lemma roundHalfEven_Z m k :
  (m == inject_Z k)%Q -> Binary64.roundHalfEven m = k.
Proof.
  intros E. unfold Binary64.roundHalfEven. cbv zeta.
  rewrite (Qfloor_comp _ _ E), Qfloor_Z.
  destruct (Qcompare_spec (m - inject_Z k) (1 # 2)) as [H|H|H];
    [lra | reflexivity | lra].
Qed.

Lemma pow2_pos e : (0 < 2 ^ e)%Q.
Proof. apply Qpower_0_lt. reflexivity. Qed.

Lemma pow2_Z k : 0 <= k -> (inject_Z (2 ^ k) == 2 ^ k)%Q.
Proof. intros H. now rewrite Zpower_Qpower. Qed.

Lemma pow2_plus a b : (2 ^ (a + b) == 2 ^ a * 2 ^ b)%Q.
Proof. apply Qpower_plus. discriminate. Qed.

Lemma pow2_le a b : a <= b -> (2 ^ a <= 2 ^ b)%Q.
Proof. intros H. apply Qpower_le_compat_l; [assumption|discriminate]. Qed.

Lemma exponent_le x : (0 < x)%Q -> (2 ^ Binary64.exponent x <= x)%Q.
Proof.
  intros Hx. unfold Binary64.exponent. cbv zeta.
  destruct (Qle_bool _ x) eqn:E; [now apply Qle_bool_imp_le|]. clear E.
  destruct x as [p q]. cbn [Qnum Qden].
  assert (Hp : 0 < p) by (unfold Qlt in Hx; cbn in Hx; lia).
  pose proof (Z.log2_spec p Hp) as [Hlp _].
  pose proof (Z.log2_spec (Zpos q) ltac:(lia)) as [_ Hlq].
  pose proof (Z.log2_nonneg p) as Hp0.
  pose proof (Z.log2_nonneg (Zpos q)) as Hq0.
  set (lp := Z.log2 p) in *. set (lq := Z.log2 (Zpos q)) in *.
  replace (lp - lq - 1) with (lp - Z.succ lq) by lia.
  rewrite Qpower_minus by discriminate.
  rewrite <- !pow2_Z by lia. rewrite (Qmake_Qdiv p q).
  assert (H1 : (inject_Z (2 ^ lp) <= inject_Z p)%Q) by (rewrite <- Zle_Qle; lia).
  assert (H2 : (inject_Z (Zpos q) <= inject_Z (2 ^ Z.succ lq))%Q)
    by (rewrite <- Zle_Qle; lia).
  assert (H3 : (0 < inject_Z (2 ^ lp))%Q)
    by (rewrite pow2_Z by lia; apply pow2_pos).
  assert (H4 : (0 < inject_Z (Zpos q))%Q) by reflexivity.
  set (a := inject_Z (2 ^ lp)) in *. set (b := inject_Z (2 ^ Z.succ lq)) in *.
  set (c := inject_Z p) in *. set (d := inject_Z (Zpos q)) in *.
  apply Qle_shift_div_r; [lra|].
  assert (E : (c / d * b == c * b / d)%Q) by (field; lra).
  rewrite E. apply Qle_shift_div_l; [assumption|]. nra.
Qed.

(** The error of a rounding that stays finite: half a unit in the last
    place. *)
Lemma round_error x r :
  Binary64.round x = Fin r ->
  (Qabs (r - x) <= 2 ^ (-53) * Qabs x + 2 ^ (-1075))%Q.
Proof.
  unfold Binary64.round.
  pose proof (Qabs_nonneg x) as Hax.
  pose proof (pow2_pos (-53)) as Hu. pose proof (pow2_pos (-1075)) as Heta.
  destruct (Qeq_bool x 0) eqn:E0.
  - intros H. injection H as <-. apply Qeq_bool_eq in E0.
    rewrite E0. change (Qabs (0 - 0)) with 0%Q. change (Qabs 0) with 0%Q. lra.
  - cbv zeta.
    set (e := Z.max (Binary64.exponent (Qabs x)) (-1022)).
    set (ulp := (2 ^ (e - 52))%Q).
    set (k := Binary64.roundHalfEven (x / ulp)).
    destruct (Qle_bool _ _); [destruct (Qle_bool 0 x); discriminate|].
    intros H. injection H as <-. rewrite (Qred_correct (inject_Z k * ulp)).
    assert (Hulp : (0 < ulp)%Q) by apply pow2_pos.
    pose proof (roundHalfEven_error (x / ulp)) as Hk. fold k in Hk.
    assert (E : (inject_Z k * ulp - x == (inject_Z k - x / ulp) * ulp)%Q)
      by (field; lra).
    rewrite E, Qabs_Qmult, (Qabs_pos ulp) by lra.
    assert (Hhalf : ((1 # 2) * ulp == 2 ^ (e - 53))%Q).
    { unfold ulp. replace (e - 52) with (e - 53 + 1) by lia.
      rewrite pow2_plus. change (2 ^ 1)%Q with 2%Q. field. }
    assert (Hb : (2 ^ (e - 53) <= 2 ^ (-53) * Qabs x + 2 ^ (-1075))%Q).
    { destruct (Z.max_spec (Binary64.exponent (Qabs x)) (-1022))
        as [[_ Hm] | [_ Hm]]; fold e in Hm; rewrite Hm.
      - change (-1022 - 53) with (-1075). nra.
      - assert (Hpos : (0 < Qabs x)%Q).
        { apply Qeq_bool_neq in E0.
          destruct (Qlt_le_dec 0 (Qabs x)) as [Hlt|Hle]; [assumption|].
          exfalso. apply E0. revert Hle. apply Qabs_case; intros; lra. }
        pose proof (exponent_le _ Hpos) as He.
        replace (Binary64.exponent (Qabs x) - 53)
          with (-53 + Binary64.exponent (Qabs x)) by lia.
        rewrite pow2_plus. nra. }
    assert (Hk' : (Qabs (inject_Z k - x / ulp) * ulp <= (1 # 2) * ulp)%Q) by nra.
    lra.
Qed.

(** A rounding stays finite when the number is not past [2 ^ 1023]. *)
Lemma round_finite x :
  (Qabs x <= 2 ^ 1023)%Q ->
  exists r, Binary64.round x = Fin r.
Proof.
  intros Hx. unfold Binary64.round.
  destruct (Qeq_bool x 0) eqn:E0; [now exists 0%Q|]. cbv zeta.
  set (e := Z.max (Binary64.exponent (Qabs x)) (-1022)).
  set (ulp := (2 ^ (e - 52))%Q).
  set (k := Binary64.roundHalfEven (x / ulp)).
  destruct (Qle_bool _ _) eqn:Eo; [|eexists; reflexivity].
  exfalso. apply Qle_bool_imp_le in Eo.
  assert (Hr : Binary64.round x
               = if Qle_bool (2 ^ 1024) (Qabs (Qred (inject_Z k * ulp)))
                 then (if Qle_bool 0 x then PosInf else NegInf)
                 else Fin (Qred (inject_Z k * ulp)))
    by (unfold Binary64.round; now rewrite E0).
  set (r := Qred (inject_Z k * ulp)) in *.
  (* the same bound as for a finite result *)
  assert (Hulp : (0 < ulp)%Q) by apply pow2_pos.
  pose proof (roundHalfEven_error (x / ulp)) as Hk. fold k in Hk.
  assert (E : (r - x == (inject_Z k - x / ulp) * ulp)%Q)
    by (unfold r; rewrite Qred_correct; field; lra).
  assert (Hhalf : ((1 # 2) * ulp == 2 ^ (e - 53))%Q).
  { unfold ulp. replace (e - 52) with (e - 53 + 1) by lia.
    rewrite pow2_plus. change (2 ^ 1)%Q with 2%Q. field. }
  pose proof (Qabs_nonneg x) as Hax.
  assert (Hb : (2 ^ (e - 53) <= 2 ^ (-53) * Qabs x + 2 ^ (-1075))%Q).
  { pose proof (pow2_pos (-53)) as Hu. pose proof (pow2_pos (-1075)) as Heta.
    destruct (Z.max_spec (Binary64.exponent (Qabs x)) (-1022))
      as [[_ Hm] | [_ Hm]]; fold e in Hm; rewrite Hm.
    - change (-1022 - 53) with (-1075). nra.
    - assert (Hpos : (0 < Qabs x)%Q).
      { apply Qeq_bool_neq in E0.
        destruct (Qlt_le_dec 0 (Qabs x)) as [Hlt|Hle]; [assumption|].
        exfalso. apply E0. revert Hle. apply Qabs_case; intros; lra. }
      pose proof (exponent_le _ Hpos) as He.
      replace (Binary64.exponent (Qabs x) - 53)
        with (-53 + Binary64.exponent (Qabs x)) by lia.
      rewrite pow2_plus. nra. }
  assert (Hd : (Qabs (r - x) <= 2 ^ (-53) * Qabs x + 2 ^ (-1075))%Q).
  { rewrite E, Qabs_Qmult, (Qabs_pos ulp) by lra.
    assert (Hk' : (Qabs (inject_Z k - x / ulp) * ulp <= (1 # 2) * ulp)%Q) by nra.
    lra. }
  pose proof (Qabs_triangle (r - x) x) as Ht.
  assert (Er : (r - x + x == r)%Q) by ring. rewrite Er in Ht.
  assert (Hc : (2 ^ 1023 + 2 ^ (-53) * 2 ^ 1023 + 2 ^ (-1075) < 2 ^ 1024)%Q)
    by (vm_compute; reflexivity).
  pose proof (pow2_pos (-53)) as Hu.
  set (A := (2 ^ 1023)%Q) in *. set (B := (2 ^ 1024)%Q) in *.
  set (u := (2 ^ (-53))%Q) in *. set (eta := (2 ^ (-1075))%Q) in *.
  clearbody A B u eta. nra.
Qed.

Lemma exponent_lt x : (0 < x)%Q -> (x < 2 ^ (Binary64.exponent x + 1))%Q.
Proof.
  intros Hx. unfold Binary64.exponent. cbv zeta.
  destruct (Qle_bool _ x) eqn:E.
  - clear E. destruct x as [p q]. cbn [Qnum Qden].
    assert (Hp : 0 < p) by (unfold Qlt in Hx; cbn in Hx; lia).
    pose proof (Z.log2_spec p Hp) as [_ Hlp].
    pose proof (Z.log2_spec (Zpos q) ltac:(lia)) as [Hlq _].
    pose proof (Z.log2_nonneg p) as Hp0.
    pose proof (Z.log2_nonneg (Zpos q)) as Hq0.
    set (lp := Z.log2 p) in *. set (lq := Z.log2 (Zpos q)) in *.
    replace (lp - lq + 1) with (Z.succ lp - lq) by lia.
    rewrite Qpower_minus by discriminate.
    rewrite <- !pow2_Z by lia. rewrite (Qmake_Qdiv p q).
    assert (H1 : (inject_Z p < inject_Z (2 ^ Z.succ lp))%Q)
      by (rewrite <- Zlt_Qlt; lia).
    assert (H2 : (inject_Z (2 ^ lq) <= inject_Z (Zpos q))%Q)
      by (rewrite <- Zle_Qle; lia).
    assert (H3 : (0 < inject_Z (2 ^ lq))%Q)
      by (rewrite pow2_Z by lia; apply pow2_pos).
    assert (H4 : (0 < inject_Z p)%Q) by (rewrite <- (Zlt_Qlt 0); lia).
    set (a := inject_Z (2 ^ Z.succ lp)) in *. set (b := inject_Z (2 ^ lq)) in *.
    set (c := inject_Z p) in *. set (d := inject_Z (Zpos q)) in *.
    apply Qlt_shift_div_r; [lra|].
    assert (E : (a / b * d == a * d / b)%Q) by (field; lra).
    rewrite E. apply Qlt_shift_div_l; [assumption|]. nra.
  - replace (Z.log2 (Qnum x) - Z.log2 (Z.pos (Qden x)) - 1 + 1)
      with (Z.log2 (Qnum x) - Z.log2 (Z.pos (Qden x))) by lia.
    destruct (Qlt_le_dec x (2 ^ (Z.log2 (Qnum x) - Z.log2 (Z.pos (Qden x)))))
      as [H|H]; [assumption|].
    apply Qle_bool_iff in H. congruence.
Qed.

Lemma Qred_inject_Z z : Qred (inject_Z z) = inject_Z z.
Proof.
  unfold Qred, inject_Z.
  pose proof (Z.ggcd_gcd z 1) as Hg.
  pose proof (Z.ggcd_correct_divisors z 1) as Hd.
  destruct (Z.ggcd z 1) as [g [a b]]. cbn [fst snd] in *.
  rewrite Z.gcd_1_r in Hg. subst g. destruct Hd as [Ha Hb].
  f_equal; [lia|]. replace b with 1 by lia. reflexivity.
Qed.

(** An integer below [2 ^ 53] is a double. *)
Lemma round_Z x z :
  (x == inject_Z z)%Q -> Z.abs z < 2 ^ 53 ->
  Binary64.round x = Fin (inject_Z z).
Proof.
  intros Ex Hz. unfold Binary64.round.
  destruct (Qeq_bool x 0) eqn:E0.
  - apply Qeq_bool_eq in E0. rewrite E0 in Ex.
    assert (z = 0) by (unfold Qeq in Ex; cbn in Ex; lia). now subst z.
  - cbv zeta. apply Qeq_bool_neq in E0.
    assert (Hax : (Qabs x == inject_Z (Z.abs z))%Q).
    { rewrite Ex. unfold inject_Z. now rewrite <- Zabs_Qabs. }
    assert (Hpos : (0 < Qabs x)%Q).
    { rewrite Hax. rewrite <- (Zlt_Qlt 0).
      assert (z <> 0) by (intros ->; apply E0; exact Ex). lia. }
    pose proof (exponent_le _ Hpos) as He.
    assert (He52 : Binary64.exponent (Qabs x) <= 52).
    { assert (H : (2 ^ Binary64.exponent (Qabs x) < 2 ^ 53)%Q).
      { eapply Qle_lt_trans; [exact He|]. rewrite Hax, <- pow2_Z by lia.
        rewrite <- Zlt_Qlt. exact Hz. }
      apply Qpower_lt_compat_l_inv in H; [lia|reflexivity]. }
    set (e := Z.max (Binary64.exponent (Qabs x)) (-1022)).
    assert (Hle : e <= 52) by (unfold e; lia).
    assert (Hulp : (0 < 2 ^ (e - 52))%Q) by apply pow2_pos.
    assert (Hinv : (2 ^ (e - 52) * inject_Z (2 ^ (52 - e)) == 1)%Q).
    { rewrite pow2_Z by lia. rewrite <- pow2_plus.
      replace (e - 52 + (52 - e)) with 0 by lia. reflexivity. }
    assert (Hk : Binary64.roundHalfEven (x / 2 ^ (e - 52)) = z * 2 ^ (52 - e)).
    { apply roundHalfEven_Z. rewrite inject_Z_mult, Ex.
      set (P := (2 ^ (e - 52))%Q) in *. set (I := inject_Z (2 ^ (52 - e))) in *.
      apply (Qmult_inj_r _ _ P); [lra|].
      assert (E : (inject_Z z / P * P == inject_Z z)%Q) by (field; lra).
      rewrite E. rewrite <- Qmult_assoc, (Qmult_comm I P), Hinv. ring. }
    rewrite Hk.
    assert (Hr : Qred (inject_Z (z * 2 ^ (52 - e)) * 2 ^ (e - 52)) = inject_Z z).
    { rewrite <- (Qred_inject_Z z). apply Qred_complete.
      rewrite inject_Z_mult, <- Qmult_assoc,
        (Qmult_comm (inject_Z (2 ^ (52 - e)))), Hinv. ring. }
    rewrite Hr.
    replace (Qle_bool (2 ^ 1024) (Qabs (inject_Z z))) with false; [reflexivity|].
    symmetry. apply Qle_bool_false. unfold inject_Z. rewrite <- Zabs_Qabs.
    rewrite <- pow2_Z by lia. change (Z.abs z # 1) with (inject_Z (Z.abs z)).
    rewrite <- Zlt_Qlt.
    assert (2 ^ 53 < 2 ^ 1024) by (apply Z.pow_lt_mono_r; lia). lia.
Qed.

Lemma roundHalfEven_ge m j :
  (inject_Z j <= m)%Q -> j <= Binary64.roundHalfEven m.
Proof.
  intros H. apply Qfloor_resp_le in H. rewrite Qfloor_Z in H.
  unfold Binary64.roundHalfEven. cbv zeta.
  destruct (_ ?= _)%Q; [destruct (Z.even _)| |]; lia.
Qed.

Lemma roundHalfEven_le m j :
  (m <= inject_Z j)%Q -> Binary64.roundHalfEven m <= j.
Proof.
  intros H. pose proof (Qfloor_resp_le _ _ H) as Hf. rewrite Qfloor_Z in Hf.
  pose proof (Qfloor_le m) as Hm.
  unfold Binary64.roundHalfEven. cbv zeta.
  destruct (Z.eq_dec (Qfloor m) j) as [E|E].
  - destruct (Qcompare_spec (m - inject_Z (Qfloor m)) (1 # 2)) as [C|C|C].
    + rewrite E in C. lra.
    + lia.
    + rewrite E in C. lra.
  - destruct (_ ?= _)%Q; [destruct (Z.even _)| |]; lia.
Qed.

Lemma Qabs_pos_neq x : ~ (x == 0)%Q -> (0 < Qabs x)%Q.
Proof.
  intros H. destruct (Qlt_le_dec 0 (Qabs x)) as [Hlt|Hle]; [assumption|].
  exfalso. apply H. revert Hle. apply Qabs_case; intros; lra.
Qed.

(** Rounding does not cross an integer below [2 ^ 53]. *)
Lemma round_le_Z x r c :
  0 <= c < 2 ^ 53 -> (x <= inject_Z c)%Q ->
  Binary64.round x = Fin r -> (r <= inject_Z c)%Q.
Proof.
  intros Hc Hx. unfold Binary64.round.
  assert (Hc0 : (0 <= inject_Z c)%Q) by (rewrite <- (Zle_Qle 0); lia).
  destruct (Qeq_bool x 0) eqn:E0; [intros H; injection H as <-; assumption|].
  cbv zeta. apply Qeq_bool_neq in E0.
  set (e := Z.max (Binary64.exponent (Qabs x)) (-1022)).
  pose proof (pow2_pos (e - 52)) as Hulp.
  set (rr := Qred _).
  assert (Hrr : (rr == inject_Z (Binary64.roundHalfEven (x / 2 ^ (e - 52)))
                       * 2 ^ (e - 52))%Q) by apply Qred_correct.
  clearbody rr.
  destruct (Qle_bool _ _); [destruct (Qle_bool 0 x); discriminate|].
  intros H. injection H as <-. rewrite Hrr.
  set (ulp := (2 ^ (e - 52))%Q) in *.
  destruct (Qlt_le_dec 0 x) as [Hpos|Hneg].
  - pose proof (exponent_le _ (Qabs_pos_neq x E0)) as He.
    pose proof (Qabs_pos x ltac:(lra)) as Habs.
    assert (He52 : Binary64.exponent (Qabs x) <= 52).
    { assert (H : (2 ^ Binary64.exponent (Qabs x) < 2 ^ 53)%Q).
      { apply Qle_lt_trans with x; [lra|]. eapply Qle_lt_trans; [exact Hx|].
        rewrite <- pow2_Z by lia. rewrite <- Zlt_Qlt. lia. }
      apply Qpower_lt_compat_l_inv in H; [lia|reflexivity]. }
    assert (Hle : e <= 52) by (unfold e; lia).
    assert (Hinv : (ulp * inject_Z (2 ^ (52 - e)) == 1)%Q).
    { unfold ulp. rewrite pow2_Z by lia. rewrite <- pow2_plus.
      replace (e - 52 + (52 - e)) with 0 by lia. reflexivity. }
    assert (Hk : Binary64.roundHalfEven (x / ulp) <= c * 2 ^ (52 - e)).
    { apply roundHalfEven_le. rewrite inject_Z_mult.
      apply Qle_shift_div_r; [assumption|].
      rewrite <- Qmult_assoc, (Qmult_comm _ ulp), Hinv. lra. }
    rewrite Zle_Qle in Hk. rewrite inject_Z_mult in Hk.
    set (k := inject_Z (Binary64.roundHalfEven (x / ulp))) in *.
    set (I := inject_Z (2 ^ (52 - e))) in *.
    assert (E : (inject_Z c == inject_Z c * I * ulp)%Q)
      by (rewrite <- Qmult_assoc, (Qmult_comm I ulp), Hinv; ring).
    rewrite E. nra.
  - assert (Hk : Binary64.roundHalfEven (x / ulp) <= 0).
    { apply roundHalfEven_le. change (inject_Z 0) with 0%Q.
      apply Qle_shift_div_r; [assumption|]. lra. }
    rewrite Zle_Qle in Hk. change (inject_Z 0) with 0%Q in Hk.
    set (k := inject_Z (Binary64.roundHalfEven (x / ulp))) in *. nra.
Qed.

Lemma round_ge_Z x r c :
  0 <= c < 2 ^ 53 -> (inject_Z c <= x)%Q ->
  Binary64.round x = Fin r -> (inject_Z c <= r)%Q.
Proof.
  intros Hc Hx. unfold Binary64.round.
  assert (Hc0 : (0 <= inject_Z c)%Q) by (rewrite <- (Zle_Qle 0); lia).
  destruct (Qeq_bool x 0) eqn:E0.
  { intros H; injection H as <-. apply Qeq_bool_eq in E0. lra. }
  cbv zeta. apply Qeq_bool_neq in E0.
  set (e := Z.max (Binary64.exponent (Qabs x)) (-1022)).
  pose proof (pow2_pos (e - 52)) as Hulp.
  set (rr := Qred _).
  assert (Hrr : (rr == inject_Z (Binary64.roundHalfEven (x / 2 ^ (e - 52)))
                       * 2 ^ (e - 52))%Q) by apply Qred_correct.
  clearbody rr.
  destruct (Qle_bool _ _); [destruct (Qle_bool 0 x); discriminate|].
  intros H. injection H as <-. rewrite Hrr.
  set (ulp := (2 ^ (e - 52))%Q) in *.
  assert (Hpos : (0 < x)%Q).
  { destruct (Qlt_le_dec 0 x) as [H|H]; [assumption|].
    exfalso. apply E0. lra. }
  destruct (Z_le_gt_dec e 52) as [Hle|Hgt].
  - assert (Hinv : (ulp * inject_Z (2 ^ (52 - e)) == 1)%Q).
    { unfold ulp. rewrite pow2_Z by lia. rewrite <- pow2_plus.
      replace (e - 52 + (52 - e)) with 0 by lia. reflexivity. }
    assert (Hk : c * 2 ^ (52 - e) <= Binary64.roundHalfEven (x / ulp)).
    { apply roundHalfEven_ge. rewrite inject_Z_mult.
      apply Qle_shift_div_l; [assumption|].
      rewrite <- Qmult_assoc, (Qmult_comm _ ulp), Hinv. lra. }
    rewrite Zle_Qle in Hk. rewrite inject_Z_mult in Hk.
    set (k := inject_Z (Binary64.roundHalfEven (x / ulp))) in *.
    set (I := inject_Z (2 ^ (52 - e))) in *.
    assert (E : (inject_Z c == inject_Z c * I * ulp)%Q)
      by (rewrite <- Qmult_assoc, (Qmult_comm I ulp), Hinv; ring).
    rewrite E. nra.
  - assert (Hex : e = Binary64.exponent (Qabs x)) by (unfold e; lia).
    pose proof (exponent_le _ (Qabs_pos_neq x E0)) as He.
    pose proof (Qabs_pos x ltac:(lra)) as Habs. rewrite <- Hex in He.
    assert (Hk : 2 ^ 52 <= Binary64.roundHalfEven (x / ulp)).
    { apply roundHalfEven_ge. rewrite pow2_Z by lia.
      apply Qle_shift_div_l; [assumption|]. unfold ulp.
      rewrite <- pow2_plus. replace (52 + (e - 52)) with e by lia. lra. }
    rewrite Zle_Qle in Hk. rewrite pow2_Z in Hk by lia.
    set (k := inject_Z (Binary64.roundHalfEven (x / ulp))) in *.
    assert (H53 : (inject_Z c <= 2 ^ 52 * ulp)%Q).
    { unfold ulp. rewrite <- pow2_plus. replace (52 + (e - 52)) with e by lia.
      apply Qle_trans with (2 ^ 53)%Q; [|apply pow2_le; lia].
      rewrite <- pow2_Z by lia. rewrite <- Zle_Qle. lia. }
    set (P := (2 ^ 52)%Q) in *. clearbody P. nra.
Qed.

(** The result of a rounding is in lowest terms. *)
Lemma round_canonical x r : Binary64.round x = Fin r -> Qred r = r.
Proof.
  unfold Binary64.round. destruct (Qeq_bool x 0).
  - intros H. injection H as <-. reflexivity.
  - cbv zeta. set (t := (_ * _)%Q).
    assert (Ht : Qred (Qred t) = Qred t)
      by (apply Qred_complete, Qred_correct).
    set (rr := Qred t) in *. clearbody rr.
    destruct (Qle_bool _ _); [destruct (Qle_bool 0 x); discriminate|].
    intros H. injection H as <-. exact Ht.
Qed.

(** The size of a rounding that stays finite. *)
Lemma round_size x r :
  Binary64.round x = Fin r -> (Qabs r <= 2 * Qabs x + 2 ^ (-1075))%Q.
Proof.
  intros H. pose proof (round_error x r H) as He.
  pose proof (Qabs_triangle (r - x) x) as Ht.
  assert (E : (r - x + x == r)%Q) by ring. rewrite E in Ht.
  assert (Hu : (2 ^ (-53) <= 1)%Q) by (vm_compute; discriminate).
  pose proof (Qabs_nonneg x). set (u := (2 ^ (-53))%Q) in *. clearbody u.
  pose proof (pow2_pos (-53)). nra.
Qed.

(** The operations on the week count are exact. *)
Lemma weekCount_exact n :
  1 <= n <= 2 ^ 25 ->
  Binary64.sub (Num.of_Z n) (Fin 1) = Num.of_Z (n - 1)
  /\ Binary64.add (Num.of_Z n) (Fin 2) = Num.of_Z (n + 2)
  /\ Binary64.mul (Num.of_Z (n - 1)) (Num.of_Z cellGap)
     = Num.of_Z ((n - 1) * cellGap)
  /\ Binary64.mul (Num.of_Z cellGap) (Num.of_Z (n - 1))
     = Num.of_Z ((n - 1) * cellGap)
  /\ Binary64.mul (Fin 14) (Num.of_Z (n + 2)) = Num.of_Z (14 * (n + 2))
  /\ Binary64.add (Num.of_Z (14 * (n + 2))) (Num.of_Z ((n - 1) * cellGap))
     = Num.of_Z (14 * (n + 2) + (n - 1) * cellGap).
Proof.
  intros Hn. change (2 ^ 25) with 33554432 in Hn.
  unfold Binary64.sub, Binary64.add, Binary64.mul, Num.sub, Num.of_Z, cellGap.
  cbn [Num.add Num.neg Num.mul Binary64.rounded].
  repeat split; apply round_Z;
    try (change (2 ^ 53) with 9007199254740992; lia).
  - unfold Z.sub. rewrite inject_Z_plus. reflexivity.
  - rewrite inject_Z_plus. reflexivity.
  - now rewrite inject_Z_mult.
  - rewrite inject_Z_mult. ring.
  - now rewrite inject_Z_mult.
  - now rewrite inject_Z_plus.
Qed.

(** The two roundings of the first assignment to [cellSize]. *)
Lemma unclamped64_finite w n :
  1 <= n <= 2 ^ 25 -> (Qabs w <= 2 ^ 1000)%Q ->
  exists s q,
    Binary64.round (w + - inject_Z ((n - 1) * cellGap)) = Fin s
    /\ Binary64.round (s / inject_Z (n + 2)) = Fin q
    /\ unclampedCellSize64 (Fin w) n = Fin q
    /\ (Qabs s <= 2 ^ 1003)%Q.
Proof.
  intros Hn Hw. destruct (weekCount_exact n Hn) as [E1 [E2 [E3 _]]].
  change (2 ^ 25) with 33554432 in Hn.
  unfold unclampedCellSize64. rewrite E1, E2, E3.
  unfold Binary64.sub, Num.sub, Num.of_Z.
  cbn [Num.neg Num.add Binary64.rounded].
  set (X := (w + - inject_Z ((n - 1) * cellGap))%Q).
  assert (Hg : (0 <= inject_Z ((n - 1) * cellGap) <= 2 ^ 27)%Q).
  { split; [rewrite <- (Zle_Qle 0); unfold cellGap; lia|].
    rewrite <- pow2_Z by lia. rewrite <- Zle_Qle.
    change (2 ^ 27) with 134217728. unfold cellGap. lia. }
  assert (HX : (Qabs X <= 2 ^ 1001)%Q).
  { pose proof (Qabs_triangle w (- inject_Z ((n - 1) * cellGap))) as Ht.
    fold X in Ht. rewrite Qabs_opp, (Qabs_pos (inject_Z _)) in Ht by lra.
    assert (Hc : (2 ^ 1000 + 2 ^ 27 <= 2 ^ 1001)%Q) by (vm_compute; discriminate).
    set (A := (2 ^ 1000)%Q) in *. set (B := (2 ^ 27)%Q) in *.
    set (C := (2 ^ 1001)%Q) in *. clearbody A B C. lra. }
  destruct (round_finite X) as [s Hs].
  { apply Qle_trans with (2 ^ 1001)%Q; [assumption|apply pow2_le; lia]. }
  pose proof (round_size X s Hs) as Hss.
  assert (Hs3 : (Qabs s <= 2 ^ 1003)%Q).
  { assert (Hc : (2 * 2 ^ 1001 + 2 ^ (-1075) <= 2 ^ 1003)%Q)
      by (vm_compute; discriminate).
    set (A := (2 ^ 1001)%Q) in *. set (B := (2 ^ (-1075))%Q) in *.
    set (C := (2 ^ 1003)%Q) in *. clearbody A B C. lra. }
  assert (Hd : (1 <= inject_Z (n + 2))%Q) by (rewrite <- (Zle_Qle 1); lia).
  destruct (round_finite (s / inject_Z (n + 2))) as [q Hq].
  { unfold Qdiv. rewrite Qabs_Qmult, Qabs_Qinv, (Qabs_pos (inject_Z _)) by lra.
    apply Qle_trans with (Qabs s).
    - apply Qle_shift_div_r; [lra|]. pose proof (Qabs_nonneg s). nra.
    - apply Qle_trans with (2 ^ 1003)%Q; [assumption|apply pow2_le; lia]. }
  exists s, q. rewrite Hs. unfold Binary64.div.
  cbn [Num.div]. rewrite Qeq_bool_inject_Z by lia. cbn [Binary64.rounded].
  repeat split; assumption.
Qed.

(** The residual of the width equation after the two roundings. *)
Lemma residual_bound X s q d U eta :
  (0 <= U <= 1)%Q -> (0 <= eta)%Q -> (1 <= d)%Q ->
  (Qabs (s - X) <= U * Qabs X + eta)%Q ->
  (Qabs (q - s / d) <= U * Qabs (s / d) + eta)%Q ->
  (Qabs (q * d - X) <= 4 * U * Qabs X + (d + 2) * eta)%Q.
Proof.
  intros HU Heta Hd H1 H2.
  assert (T1 : (Qabs (q * d - X) <= Qabs (q - s / d) * d + Qabs (s - X))%Q).
  { assert (E : (q * d - X == (q - s / d) * d + (s - X))%Q) by (field; lra).
    rewrite E. eapply Qle_trans; [apply Qabs_triangle|].
    rewrite Qabs_Qmult, (Qabs_pos d) by lra. lra. }
  assert (T2 : (Qabs (s / d) * d == Qabs s)%Q).
  { unfold Qdiv. rewrite Qabs_Qmult, Qabs_Qinv, (Qabs_pos d) by lra.
    field. lra. }
  assert (T3 : (Qabs s <= Qabs X + Qabs (s - X))%Q).
  { assert (E : (s == X + (s - X))%Q) by ring.
    rewrite E at 1. apply Qabs_triangle. }
  pose proof (Qabs_nonneg X). pose proof (Qabs_nonneg s).
  pose proof (Qabs_nonneg (s / d)). pose proof (Qabs_nonneg (s - X)).
  pose proof (Qabs_nonneg (q - s / d)).
  set (aX := Qabs X) in *. set (aS := Qabs s) in *.
  set (aSd := Qabs (s / d)) in *. set (e1 := Qabs (s - X)) in *.
  set (e2 := Qabs (q - s / d)) in *. set (R := Qabs (q * d - X)) in *.
  clearbody aX aS aSd e1 e2 R.
  assert (M1 : (e2 * d <= U * aS + d * eta)%Q) by nra.
  assert (M2 : (U * aS <= U * aX + U * e1)%Q) by nra.
  assert (M3 : (U * e1 <= U * aX + eta)%Q) by nra.
  assert (M4 : (0 <= U * aX)%Q) by nra.
  lra.
Qed.

(** The bound of the residual: two roundings of relative error
    [2 ^ -53], and the spacing [2 ^ -1074] near zero. *)
Lemma cellSize64_core w n :
  1 <= n <= 2 ^ 25 -> (Qabs w <= 2 ^ 1000)%Q ->
  exists size,
    cellSize64 (Fin w) n = Fin size
    /\ ((unclampedCellSize (Fin w) n <= Fin 14)%num ->
        unclampedCellSize64 (Fin w) n = Fin size
        /\ (Qabs (size * inject_Z (n + 2) + 3 * inject_Z (n - 1) - w)
            <= 2 ^ (-51) * Qabs (w - 3 * inject_Z (n - 1))
               + inject_Z (n + 4) * 2 ^ (-1075))%Q)
    /\ ((Fin 14 < unclampedCellSize (Fin w) n)%num -> size = 14%Q).
Proof.
  intros Hn Hw.
  destruct (unclamped64_finite w n Hn Hw) as [s [q [Hs [Hq [Hu _]]]]].
  change (2 ^ 25) with 33554432 in Hn.
  rewrite unclamped_finite by lia. unfold cellSize64. rewrite Hu, min_Fin.
  set (X := (w + - inject_Z ((n - 1) * cellGap))%Q) in *.
  set (d := inject_Z (n + 2)) in *.
  assert (Hd : (1 <= d)%Q) by (unfold d; rewrite <- (Zle_Qle 1); lia).
  assert (H14 : (inject_Z (14 * (n + 2)) == 14 * d)%Q)
    by (unfold d; now rewrite inject_Z_mult).
  assert (Hc : 0 <= 14 * (n + 2) < 2 ^ 53)
    by (change (2 ^ 53) with 9007199254740992; lia).
  assert (Hc' : 0 <= 14 < 2 ^ 53)
    by (change (2 ^ 53) with 9007199254740992; lia).
  assert (Ediv : forall y, (y / d * d == y)%Q) by (intros y; field; lra).
  destruct (Qlt_le_dec 14 (X / d)) as [Hgt|Hle].
  - (* the solution exceeds 14 *)
    assert (HX : (inject_Z (14 * (n + 2)) <= X)%Q).
    { rewrite H14. rewrite <- (Ediv X). nra. }
    pose proof (round_ge_Z X s _ Hc HX Hs) as Hs14.
    assert (Hsd : (inject_Z 14 <= s / d)%Q).
    { change (inject_Z 14) with 14%Q. apply Qle_shift_div_l; lra. }
    pose proof (round_ge_Z _ q _ Hc' Hsd Hq) as Hq14.
    change (inject_Z 14) with 14%Q in Hq14.
    assert (Hsize : (if Qle_bool q 14 then Fin q else Fin 14) = Fin 14).
    { destruct (Qle_bool q 14) eqn:E; [|reflexivity].
      apply Qle_bool_iff in E. f_equal.
      rewrite <- (round_canonical _ _ Hq).
      change 14%Q with (Qred 14). apply Qred_complete. lra. }
    exists 14%Q. split; [exact Hsize|]. split; [|reflexivity].
    intros H. apply le_Fin in H. lra.
  - (* the solution is at most 14 *)
    assert (HX : (X <= inject_Z (14 * (n + 2)))%Q).
    { rewrite H14. rewrite <- (Ediv X). nra. }
    pose proof (round_le_Z X s _ Hc HX Hs) as Hs14.
    assert (Hsd : (s / d <= inject_Z 14)%Q).
    { change (inject_Z 14) with 14%Q. apply Qle_shift_div_r; lra. }
    pose proof (round_le_Z _ q _ Hc' Hsd Hq) as Hq14.
    change (inject_Z 14) with 14%Q in Hq14.
    exists q. split.
    { apply Qle_bool_iff in Hq14. now rewrite Hq14. }
    split; [|intros H; apply lt_Fin in H; lra].
    intros _. split; [reflexivity|].
    pose proof (round_error _ _ Hs) as E1. pose proof (round_error _ _ Hq) as E2.
    assert (HU : (0 <= 2 ^ (-53) <= 1)%Q)
      by (split; vm_compute; discriminate).
    assert (Heta : (0 <= 2 ^ (-1075))%Q) by (vm_compute; discriminate).
    pose proof (residual_bound X s q d _ _ HU Heta Hd E1 E2) as HR.
    assert (EA : (q * d + 3 * inject_Z (n - 1) - w == q * d - X)%Q).
    { unfold X, cellGap. rewrite inject_Z_mult. change (inject_Z 3) with 3%Q.
      ring. }
    assert (EX : (w - 3 * inject_Z (n - 1) == X)%Q).
    { unfold X, cellGap. rewrite inject_Z_mult. change (inject_Z 3) with 3%Q.
      ring. }
    assert (EB : (inject_Z (n + 4) == d + 2)%Q).
    { unfold d. replace (n + 4) with (n + 2 + 2) by lia.
      now rewrite (inject_Z_plus (n + 2) 2). }
    assert (E51 : (2 ^ (-51) == 4 * 2 ^ (-53))%Q) by (vm_compute; reflexivity).
    rewrite EA, EX, EB, E51. exact HR.
Qed.

(** The week count of two dates a [Date] can hold. *)
Lemma weekCountOf_valid startDate endDate :
  validTime startDate -> validTime endDate ->
  weekCountOf startDate endDate <= 2 ^ 25.
Proof.
  unfold validTime. intros Hs He. rewrite weekCountOf_eq.
  pose proof (floor_bounds timeMonday msPerWeek (4 * msPerDay) msPerWeek_pos
                timeMonday_floori startDate) as H1.
  pose proof (floor_bounds timeMonday msPerWeek (4 * msPerDay) msPerWeek_pos
                timeMonday_floori endDate) as H2.
  change (2 ^ 25) with 33554432. unfold msPerWeek, msPerDay in *.
  set (a := Interval.floor timeMonday endDate) in *.
  set (b := Interval.floor timeMonday startDate) in *.
  clearbody a b. Z.to_euclidean_division_equations. lia.
Qed.



(** The rounding of [Binary64] gives the doubles the kernel computes:
    the cell size and the label position at the width 113 over 9 weeks
    and at the width 379.3 over 53 weeks. *)
Section Kernel.
Import PrimFloat.

Example binary64_kernel :
  unclampedCellSize64 (Fin 113) 9 = ofFloat ((113 - (9 - 1) * 3) / (9 + 2))%float
  /\ weekLabelX64 (unclampedCellSize64 (Fin 113) 9) 9
     = ofFloat (((113 - (9 - 1) * 3) / (9 + 2)) * (9 + 2) + 3 * (9 - 1))%float
  /\ unclampedCellSize64 (ofFloat 0x1.7b4cccccccccdp+8%float) 53
     = ofFloat ((0x1.7b4cccccccccdp+8 - (53 - 1) * 3) / (53 + 2))%float
  /\ weekLabelX64
       (unclampedCellSize64 (ofFloat 0x1.7b4cccccccccdp+8%float) 53) 53
     = ofFloat (((0x1.7b4cccccccccdp+8 - (53 - 1) * 3) / (53 + 2))
                * (53 + 2) + 3 * (53 - 1))%float
  /\ Binary64.round (1 # 10) = ofFloat 0x1.999999999999ap-4%float
  /\ Binary64.div (Fin 1) (Fin 3) = ofFloat (1 / 3)%float
  /\ Binary64.round (2 ^ 1024 - 2 ^ 970) = ofFloat infinity
  /\ Binary64.round (2 ^ (-1075)) = ofFloat 0%float
  /\ Binary64.round (3 * 2 ^ (-1075)) = ofFloat 0x1p-1073%float.
Proof. vm_compute. repeat split. Qed.

(** The four operations agree with the kernel's on every pair of the
    sample doubles. *)
Example binary64_kernel_operations :
  agreesOn PrimFloat.add Binary64.add = true
  /\ agreesOn PrimFloat.sub Binary64.sub = true
  /\ agreesOn PrimFloat.mul Binary64.mul = true
  /\ agreesOn PrimFloat.div Binary64.div = true.
Proof. vm_compute. repeat split. Qed.

End Kernel.

(** C3, amended: in binary64 the width equation holds up to rounding.
    In a render of a sequence that is not empty and is ordered by date,
    with dates a [Date] can hold, at a finite width of magnitude at most
    [2 ^ 1000]: whenever the unclamped solution of
    [cellSize * (weekCount + 2) + 3 * (weekCount - 1) = width] is at
    most 14, the cell size is the quotient the code computes and the
    left side is within [2 ^ -51 * |width - 3 * (weekCount - 1)|]
    (and [(weekCount + 4) * 2 ^ -1075] near zero) of the width; whenever
    the unclamped solution exceeds 14, the cell size is exactly 14. *)
Theorem cellSize_equation_binary64 c w :
  dataPoints c <> [] -> ascending (dataPoints c) = true ->
  validTime (firstDate (dataPoints c)) -> validTime (lastDate (dataPoints c)) ->
  width c = Fin w -> (Qabs w <= 2 ^ 1000)%Q ->
  exists size,
    cellSize64 (width c) (weekCount c) = Fin size
    /\ ((unclampedCellSize (width c) (weekCount c) <= Fin 14)%num ->
        unclampedCellSize64 (width c) (weekCount c) = Fin size
        /\ (Qabs (size * inject_Z (weekCount c + 2)
                  + 3 * inject_Z (weekCount c - 1) - w)
            <= 2 ^ (-51) * Qabs (w - 3 * inject_Z (weekCount c - 1))
               + inject_Z (weekCount c + 4) * 2 ^ (-1075))%Q)
    /\ ((Fin 14 < unclampedCellSize (width c) (weekCount c))%num ->
        size = 14%Q).
Proof.
  intros Hdata Hasc Hfirst Hlast Hw Hsize. rewrite Hw.
  apply cellSize64_core; [|assumption]. split.
  - now apply weekCount_pos.
  - now apply weekCountOf_valid.
Qed.

(** At the width 113 over nine weeks the solution is 89/11, under the
    cap. *)
Lemma cellSize_equation_binary64_witness :
  exists size,
    cellSize64 (width nineWeeks) (weekCount nineWeeks) = Fin size
    /\ ((unclampedCellSize (width nineWeeks) (weekCount nineWeeks)
         <= Fin 14)%num ->
        unclampedCellSize64 (width nineWeeks) (weekCount nineWeeks) = Fin size
        /\ (Qabs (size * inject_Z (weekCount nineWeeks + 2)
                  + 3 * inject_Z (weekCount nineWeeks - 1) - 113)
            <= 2 ^ (-51) * Qabs (113 - 3 * inject_Z (weekCount nineWeeks - 1))
               + inject_Z (weekCount nineWeeks + 4) * 2 ^ (-1075))%Q)
    /\ ((Fin 14 < unclampedCellSize (width nineWeeks) (weekCount nineWeeks))%num ->
        size = 14%Q).
Proof.
  apply (cellSize_equation_binary64 nineWeeks 113);
    [discriminate | vm_compute; reflexivity
     | vm_compute; split; discriminate | vm_compute; split; discriminate
     | reflexivity | vm_compute; discriminate].
Defined.

(** C3, as stated, fails: at the width 113 over nine weeks the
    unclamped solution, 89/11, is under the cap; the cell size the code
    computes is the double 8.090909090909092, and
    [cellSize * (weekCount + 2) + 3 * (weekCount - 1)] is not the width,
    neither as an exact number nor as the code computes it, which gives
    113.00000000000001. *)
Lemma width_equation_inexact :
  weekCount nineWeeks = 9
  /\ width nineWeeks = Fin 113
  /\ (unclampedCellSize (width nineWeeks) (weekCount nineWeeks) <= Fin 14)%num
  /\ cellSize64 (width nineWeeks) (weekCount nineWeeks)
     = Fin (4554776895863343 # 562949953421312)
  /\ ~ ((4554776895863343 # 562949953421312) * inject_Z (9 + 2)
        + 3 * inject_Z (9 - 1) == 113)%Q
  /\ weekLabelX64 (cellSize64 (width nineWeeks) (weekCount nineWeeks))
                  (weekCount nineWeeks)
     = Fin (7951668092076033 # 70368744177664)
  /\ ~ (Fin (7951668092076033 # 70368744177664) === width nineWeeks)%num.
Proof.
  assert (Hn : weekCount nineWeeks = 9) by (vm_compute; reflexivity).
  rewrite Hn. change (width nineWeeks) with (Fin 113).
  split; [reflexivity|]. split; [reflexivity|].
  split; [vm_compute; reflexivity|]. split; [vm_compute; reflexivity|].
  split; [vm_compute; discriminate|]. split; [vm_compute; reflexivity|].
  vm_compute. discriminate.
Qed.


(** At a positive width the size is capped at 14 whatever the dates. *)
Lemma cellSizeOf_le_14 w n :
  (Fin 0 < w)%num -> (cellSizeOf w n <= Fin 14)%num.
Proof.
  intros Hw. unfold cellSizeOf, unclampedCellSize.
  destruct w as [w| | |]; try discriminate.
  - apply lt_Fin in Hw. cbn [Num.sub Num.neg Num.add Num.of_Z Num.div].
    destruct (Qeq_bool (inject_Z (n + 2)) 0) eqn:E.
    + apply Qeq_bool_eq in E. unfold Qeq in E. cbn in E.
      replace n with (-2) by lia.
      replace ((w + - inject_Z ((-2 - 1) * cellGap) ?= 0)%Q) with Gt; [reflexivity|].
      symmetry. apply Qgt_alt. change (inject_Z ((-2 - 1) * cellGap)) with (-9)%Q.
      lra.
    + rewrite min_Fin. destruct (Qle_bool _ 14) eqn:F.
      * now apply le_Fin, Qle_bool_iff.
      * reflexivity.
  - cbn [Num.sub Num.neg Num.add Num.of_Z Num.div Num.sign].
    destruct (Qeq_bool (inject_Z (n + 2)) 0) eqn:E; [reflexivity|].
    destruct (inject_Z (n + 2) ?= 0)%Q eqn:F; try reflexivity.
    apply Qeq_alt, Qeq_bool_iff in F. congruence.
Qed.





(** ** The colour scale *)

Lemma Qle_bool_inject_Z x y : Qle_bool (inject_Z x) (inject_Z y) = (x <=? y).
Proof. unfold Qle_bool. cbn. now rewrite !Z.mul_1_r. Qed.

(** [Math.max] over the counts is the largest count; with 10 added to the
    arguments it is at least 10. *)
Lemma mathMax_counts data :
  data <> [] ->
  mathMax (map countNum data) = Num.of_Z (Z.of_N (maxCount data)).
Proof.
  induction data as [|a l IH]; [congruence|]. intros _.
  destruct l as [|b l].
  - cbn. unfold countNum, maxCount. cbn. now rewrite N.max_0_r.
  - specialize (IH ltac:(discriminate)).
    change (mathMax (map countNum (a :: b :: l)))
      with (Num.max (countNum a) (mathMax (map countNum (b :: l)))).
    rewrite IH. unfold countNum, Num.of_Z. cbn [Num.max Num.leb].
    rewrite Qle_bool_inject_Z.
    change (maxCount (a :: b :: l))
      with (N.max (HeatmapDataPoint.count a) (maxCount (b :: l))).
    destruct (Z.leb_spec (Z.of_N (HeatmapDataPoint.count a))
                         (Z.of_N (maxCount (b :: l))));
      do 2 f_equal; lia.
Qed.

Lemma mathMax_counts_10 data :
  mathMax (map countNum data ++ [Fin 10])
  = Num.of_Z (Z.max (Z.of_N (maxCount data)) 10).
Proof.
  induction data as [|a l IH]; [reflexivity|].
  change (mathMax (map countNum (a :: l) ++ [Fin 10]))
    with (Num.max (countNum a) (mathMax (map countNum l ++ [Fin 10]))).
  rewrite IH. unfold countNum, Num.of_Z. cbn [Num.max Num.leb].
  rewrite Qle_bool_inject_Z.
  change (maxCount (a :: l))
    with (N.max (HeatmapDataPoint.count a) (maxCount l)).
  destruct (Z.leb_spec (Z.of_N (HeatmapDataPoint.count a))
                       (Z.max (Z.of_N (maxCount l)) 10));
    do 2 f_equal; lia.
Qed.

(** The middle and the last control point of the domain. *)
Lemma midPoint_pos data : (5 <= midPoint data)%Q.
Proof.
  unfold midPoint.
  assert (H : (10 <= inject_Z (Z.max (Z.of_N (maxCount data)) 10))%Q).
  { change 10%Q with (inject_Z 10). rewrite <- Zle_Qle. lia. }
  apply Qle_shift_div_l; lra.
Qed.

Lemma topPoint_nonneg data : (0 <= topPoint data)%Q.
Proof. unfold topPoint. change 0%Q with (inject_Z 0). rewrite <- Zle_Qle. lia. Qed.

(** The scale of a sequence that is not empty clamps its argument to
    [[0, topPoint]] and interpolates on the three control points. *)
Lemma colorScale_clamped data v :
  data <> [] ->
  exists y,
    colorScale data v
    = Scale.polymap3 (Fin 0) (Fin (midPoint data)) (Fin (topPoint data))
        emptyColor midColor highColor (Fin y)
    /\ ((0 <= v <= topPoint data)%Q -> (y == v)%Q).
Proof.
  intros H. unfold colorScale.
  rewrite mathMax_counts, mathMax_counts_10 by assumption.
  unfold Scale.scaleLinear3, Scale.clamper.
  cbn [Num.gtb Num.ltb Num.of_Z Num.div].
  change (Qeq_bool 2 0) with false. cbv iota.
  fold (midPoint data). fold (topPoint data).
  pose proof (topPoint_nonneg data) as HM.
  apply Qle_bool_iff in HM. rewrite HM. cbn [negb].
  change (Num.of_Z (Z.of_N (maxCount data))) with (Fin (topPoint data)).
  rewrite min_Fin.
  destruct (Qle_bool (topPoint data) v) eqn:E.
  - cbn [Num.max Num.leb]. rewrite HM. eexists. split; [reflexivity|].
    apply Qle_bool_iff in E. lra.
  - cbn [Num.max Num.leb]. destruct (Qle_bool 0 v) eqn:F.
    + eexists. split; [reflexivity|]. reflexivity.
    + eexists. split; [reflexivity|]. apply Qle_bool_false in F. lra.
Qed.

Lemma Qeq_bool_false x y : Qeq_bool x y = false <-> ~ (x == y)%Q.
Proof.
  split; [apply Qeq_bool_neq|]. intros H.
  destruct (Qeq_bool x y) eqn:E; [|reflexivity].
  now apply Qeq_bool_eq in E.
Qed.

(** The green channel on the three control points, by segment. *)
Lemma green_polymap3 mid top y :
  (0 < mid)%Q -> (0 <= top)%Q ->
  green (Scale.polymap3 (Fin 0) (Fin mid) (Fin top)
           emptyColor midColor highColor (Fin y))
  = if Qle_bool mid y
    then if Qeq_bool (top + - mid) 0 then 149
         else clampi (Fin (inject_Z 201
                           + (y + - mid) / (top + - mid) * inject_Z (-104)))
    else clampi (Fin (inject_Z 237 + (y + - 0) / (mid + - 0) * inject_Z (-36))).
Proof.
  intros Hmid Htop. unfold Scale.polymap3.
  assert (E : Num.ltb (Fin top) (Fin 0) = false).
  { cbn. apply negb_false_iff. now apply Qle_bool_iff. }
  rewrite E. unfold Scale.bisect3. cbn [Num.leb].
  destruct (Qle_bool mid y) eqn:F.
  - unfold interpolateRgb. cbn [green midColor highColor].
    unfold Scale.normalize. cbn [Num.sub Num.neg Num.add Num.truthy Num.isNaN].
    destruct (Qeq_bool (top + - mid) 0) eqn:G; cbn [negb].
    + reflexivity.
    + cbn [Num.div]. rewrite G. reflexivity.
  - unfold interpolateRgb. cbn [green emptyColor midColor].
    unfold Scale.normalize. cbn [Num.sub Num.neg Num.add Num.truthy Num.isNaN].
    assert (G : Qeq_bool (mid + - 0) 0 = false) by (apply Qeq_bool_false; lra).
    rewrite G. cbn [negb Num.div]. rewrite G. reflexivity.
Qed.

Lemma clampi_mono p q : (p <= q)%Q -> clampi (Fin p) <= clampi (Fin q).
Proof.
  intros H. unfold clampi.
  assert (Qfloor (p + (1 # 2)) <= Qfloor (q + (1 # 2)))
    by (apply Qfloor_resp_le; lra).
  lia.
Qed.

Lemma Qdiv_le_mono a b d : (0 < d -> a <= b -> a / d <= b / d)%Q.
Proof.
  intros Hd Hab. unfold Qdiv. apply Qmult_le_compat_r; [assumption|].
  apply Qinv_le_0_compat. lra.
Qed.

Lemma Qdiv_nonneg a d : (0 < d -> 0 <= a -> 0 <= a / d)%Q.
Proof.
  intros Hd Ha. apply Qle_shift_div_l; [assumption|]. lra.
Qed.

Lemma Qdiv_lt_1 a d : (0 < d -> a < d -> a / d < 1)%Q.
Proof.
  intros Hd Ha. apply Qlt_shift_div_r; [assumption|]. lra.
Qed.

(** Along the domain the green channel does not grow. *)
Lemma green_polymap3_antitone mid top y1 y2 :
  (0 < mid)%Q -> (0 <= y1)%Q -> (y1 <= y2)%Q -> (y2 <= top)%Q ->
  green (Scale.polymap3 (Fin 0) (Fin mid) (Fin top)
           emptyColor midColor highColor (Fin y2))
  <= green (Scale.polymap3 (Fin 0) (Fin mid) (Fin top)
              emptyColor midColor highColor (Fin y1)).
Proof.
  intros Hmid H1 H12 H2.
  rewrite !green_polymap3 by lra.
  change (inject_Z 201) with 201%Q. change (inject_Z 237) with 237%Q.
  change (inject_Z (-104)) with (-104)%Q. change (inject_Z (-36)) with (-36)%Q.
  destruct (Qle_bool mid y1) eqn:F1; destruct (Qle_bool mid y2) eqn:F2.
  - apply Qle_bool_iff in F1, F2.
    destruct (Qeq_bool (top + - mid) 0) eqn:G; [lia|].
    apply Qeq_bool_false in G.
    assert (Hd : (0 < top + - mid)%Q) by lra.
    pose proof (Qdiv_le_mono (y1 + - mid) (y2 + - mid) _ Hd ltac:(lra)).
    apply clampi_mono. lra.
  - apply Qle_bool_iff in F1. apply Qle_bool_false in F2. lra.
  - apply Qle_bool_false in F1. apply Qle_bool_iff in F2.
    assert (Hd : (0 < mid + - 0)%Q) by lra.
    pose proof (Qdiv_lt_1 (y1 + - 0) _ Hd ltac:(lra)) as Ht1.
    transitivity (clampi (Fin 201)).
    + destruct (Qeq_bool (top + - mid) 0) eqn:G; [vm_compute; discriminate|].
      apply Qeq_bool_false in G.
      assert (Hd' : (0 < top + - mid)%Q) by lra.
      pose proof (Qdiv_nonneg (y2 + - mid) _ Hd' ltac:(lra)).
      apply clampi_mono. lra.
    + apply clampi_mono. lra.
  - apply Qle_bool_false in F1, F2.
    assert (Hd : (0 < mid + - 0)%Q) by lra.
    pose proof (Qdiv_le_mono (y1 + - 0) (y2 + - 0) _ Hd ltac:(lra)).
    apply clampi_mono. lra.
Qed.

(** At zero the scale gives the first colour of its range. *)
Lemma polymap3_zero mid top y :
  (0 < mid)%Q -> (0 <= top)%Q -> (y == 0)%Q ->
  Scale.polymap3 (Fin 0) (Fin mid) (Fin top)
    emptyColor midColor highColor (Fin y)
  = emptyColor.
Proof.
  intros Hmid Htop Hy. unfold Scale.polymap3.
  assert (E : Num.ltb (Fin top) (Fin 0) = false).
  { cbn. apply negb_false_iff. now apply Qle_bool_iff. }
  rewrite E. unfold Scale.bisect3. cbn [Num.leb].
  assert (F : Qle_bool mid y = false) by (apply Qle_bool_false; lra).
  rewrite F. unfold interpolateRgb, Scale.normalize.
  cbn [Num.sub Num.neg Num.add Num.truthy Num.isNaN].
  assert (G : Qeq_bool (mid + - 0) 0 = false) by (apply Qeq_bool_false; lra).
  rewrite G. cbn [negb Num.div]. rewrite G.
  assert (Ht : ((y + - 0) / (mid + - 0) == 0)%Q).
  { rewrite Hy. unfold Qdiv. lra. }
  assert (Hch : forall a b,
             (b - a =? 0) = false ->
             clampi (interpolateChannel a b (Fin ((y + - 0) / (mid + - 0))))
             = clampi (Fin (inject_Z a))).
  { intros a b Hab. unfold interpolateChannel. rewrite Hab.
    cbn [Num.of_Z Num.add Num.mul clampi]. do 2 f_equal.
    apply Qfloor_comp. rewrite Ht. lra. }
  rewrite !Hch by reflexivity. reflexivity.
Qed.

Lemma colorScale_zero data : data <> [] -> colorScale data 0 = emptyColor.
Proof.
  intros H. destruct (colorScale_clamped data 0 H) as [y [-> Hy]].
  pose proof (midPoint_pos data). pose proof (topPoint_nonneg data).
  apply polymap3_zero; [lra|assumption|]. apply Hy. lra.
Qed.

Lemma colorScale_green_antitone_Q data (a b : Q) :
  data <> [] -> (0 <= a)%Q -> (a <= b)%Q -> (b <= topPoint data)%Q ->
  green (colorScale data b) <= green (colorScale data a).
Proof.
  intros H Ha Hab Hb.
  destruct (colorScale_clamped data a H) as [ya [-> Hya]].
  destruct (colorScale_clamped data b H) as [yb [-> Hyb]].
  pose proof (midPoint_pos data).
  specialize (Hya ltac:(lra)). specialize (Hyb ltac:(lra)).
  apply green_polymap3_antitone; lra.
Qed.

(** C5, as stated, fails: with the counts of the sample, all 5, the green
    channel is 237 at the count 0 and 149 at the count 5, so it falls
    where the claim has it grow. *)
Lemma green_falls_on_sample :
  dataPoints scenario <> []
  /\ (0 < 5 <= maxCount (dataPoints scenario))%N
  /\ green (colorScale (dataPoints scenario) 0) = 237
  /\ green (colorScale (dataPoints scenario) 5) = 149
  /\ ~ (green (colorScale (dataPoints scenario) 5)
        >= green (colorScale (dataPoints scenario) 0)).
Proof.
  split; [discriminate|]. split; [vm_compute; split; [reflexivity|discriminate]|].
  split; [vm_compute; reflexivity|]. split; [vm_compute; reflexivity|].
  vm_compute. intros H. now apply H.
Qed.

(** C5, amended: for a sequence that is not empty the scale gives the
    empty-cell colour #ebedf0 to the count 0 whatever the data, and for
    two counts [a < b] within [[0, maxCount]] its green channel at [b] is
    less than or equal to its green channel at [a]: the ramp darkens. *)
Theorem colorScale_ramp data :
  data <> [] ->
  colorScale data 0 = RGB 0xeb 0xed 0xf0
  /\ (forall a b : N,
        (a < b)%N -> (b <= maxCount data)%N ->
        green (colorScale data (inject_Z (Z.of_N b)))
        <= green (colorScale data (inject_Z (Z.of_N a)))).
Proof.
  intros H. split; [now apply colorScale_zero|].
  intros a b Hab Hb. apply colorScale_green_antitone_Q; [assumption| | |].
  - change 0%Q with (inject_Z 0). rewrite <- Zle_Qle. lia.
  - rewrite <- Zle_Qle. lia.
  - unfold topPoint. rewrite <- Zle_Qle. lia.
Qed.

(** The sample of three entries (counts 3, 9, 2): the colour at 0, and
    the green channel at 9 against the one at 4. *)
Lemma colorScale_ramp_witness :
  colorScale (dataPoints gappy) 0 = RGB 0xeb 0xed 0xf0
  /\ green (colorScale (dataPoints gappy) (inject_Z (Z.of_N 9)))
     <= green (colorScale (dataPoints gappy) (inject_Z (Z.of_N 4))).
Proof.
  destruct (colorScale_ramp (dataPoints gappy)) as [H0 Hmono]; [discriminate|].
  split; [exact H0|]. apply Hmono; vm_compute; [reflexivity|discriminate].
Defined.

(** * Further properties *)

(** ** The tooltip on the surface *)

(** X1: a tooltip no wider than the surface is placed so that, centred
    on its position, it lies within the surface from edge to edge. *)
Theorem tooltip_within_surface env c content cellX cellY :
  (clientWidth env <= rect_width (svgRect env))%Q ->
  exists position,
    left (tooltipRef (tooltip.show env c content cellX cellY)) = Some position
    /\ (0 <= position - clientWidth env / 2)%Q
    /\ (position + clientWidth env / 2 <= rect_width (svgRect env))%Q.
Proof.
  intros Hfits. exists (tooltip.adjustedX env cellX). split; [reflexivity|].
  assert (Hhalf : (clientWidth env == 2 * (clientWidth env / 2))%Q) by field.
  destruct (Qlt_le_dec (anchorX env cellX - clientWidth env / 2) 0) as [Hl|Hl].
  - rewrite (adjustedX_near_left env cellX Hl). lra.
  - assert (Hnl : ~ overflowsLeft env cellX) by (unfold overflowsLeft; lra).
    destruct (Qlt_le_dec (rect_width (svgRect env))
                (anchorX env cellX + clientWidth env / 2)) as [Hr|Hr].
    + rewrite (adjustedX_near_right env cellX Hnl Hr). lra.
    + assert (Hnr : ~ overflowsRight env cellX) by (unfold overflowsRight; lra).
      rewrite (adjustedX_inside env cellX Hnl Hnr). lra.
Qed.

Lemma tooltip_within_surface_witness :
  exists position,
    left (tooltipRef (tooltip.show wideSurface scenario "5" 805 0))
    = Some position
    /\ (0 <= position - 60 / 2)%Q
    /\ (position + 60 / 2 <= 800)%Q.
Proof.
  apply (tooltip_within_surface wideSurface scenario "5" 805 0).
  discriminate.
Defined.
(** ** What a render depends on *)

Lemma svgGroup_ext c1 c2 startDate endDate n :
  dataPoints c1 = dataPoints c2 -> cellSize c1 = cellSize c2 ->
  fontColor c1 = fontColor c2 -> scaleData c1 = scaleData c2 ->
  svgGroup c1 startDate endDate n = svgGroup c2 startDate endDate n.
Proof.
  intros Hd Hs Hf Hsc.
  unfold svgGroup, generateYearLegendSVG, generateMonthLabelsSVG,
    generateWeekLabelsSVG, generateCellsSVG, cells, rectOf, cellOf.
  now rewrite Hd, Hs, Hf, Hsc.
Qed.

Lemma layout_fields c n :
  dataPoints (layout c n) = dataPoints c
  /\ width (layout c n) = width c
  /\ fontColor (layout c n) = fontColor c
  /\ scaleData (layout c n) = scaleData c
  /\ cellSize (layout c n) = cellSizeOf (width c) n
  /\ height (layout c n) = heightOf (cellSizeOf (width c) n).
Proof. repeat split. Qed.

(** The parts of the instance a render leaves alone. *)
Lemma generateSVG_props c :
  dataPoints (generateSVG c) = dataPoints c
  /\ width (generateSVG c) = width c
  /\ fontColor (generateSVG c) = fontColor c
  /\ scaleData (generateSVG c) = scaleData c.
Proof.
  unfold generateSVG. cbv zeta.
  change (dataPoints (withSvg c [])) with (dataPoints c).
  destruct (dataPoints c) eqn:E; repeat split; try assumption.
Qed.

Lemma generateSVG_nothing c :
  dataPoints c = [] ->
  svgRef (generateSVG c) = []
  /\ cellSize (generateSVG c) = cellSize c
  /\ height (generateSVG c) = height c.
Proof.
  intros H. unfold generateSVG. cbn [dataPoints withSvg]. rewrite H.
  repeat split.
Qed.

Lemma generateSVG_ext c1 c2 :
  dataPoints c1 = dataPoints c2 -> width c1 = width c2 ->
  fontColor c1 = fontColor c2 -> scaleData c1 = scaleData c2 ->
  svgRef (generateSVG c1) = svgRef (generateSVG c2)
  /\ (dataPoints c1 <> [] ->
      cellSize (generateSVG c1) = cellSize (generateSVG c2)
      /\ height (generateSVG c1) = height (generateSVG c2)).
Proof.
  intros Hd Hw Hf Hs.
  assert (Hcase : dataPoints c1 = [] \/ dataPoints c1 <> [])
    by (destruct (dataPoints c1); [left|right]; easy).
  destruct Hcase as [E|H1].
  - split; [|congruence].
    destruct (generateSVG_nothing c1 E) as [-> _].
    destruct (generateSVG_nothing c2 (eq_trans (eq_sym Hd) E)) as [-> _].
    reflexivity.
  - assert (H2 : dataPoints c2 <> []) by congruence.
    rewrite (generateSVG_nonempty c1 H1), (generateSVG_nonempty c2 H2).
    cbv zeta. rewrite <- Hd.
    set (s := firstDate (dataPoints c1)). set (e := lastDate (dataPoints c1)).
    set (n := weekCountOf s e).
    change (svgRef (withConsole ?a ?d)) with (svgRef a).
    change (cellSize (withConsole ?a ?d)) with (cellSize a).
    change (height (withConsole ?a ?d)) with (height a).
    change (svgRef (withSvg ?a ?l)) with l.
    change (cellSize (withSvg ?a ?l)) with (cellSize a).
    change (height (withSvg ?a ?l)) with (height a).
    destruct (layout_fields (withSvg c1 []) n) as [A1 [A2 [A3 [A4 [A5 A6]]]]].
    destruct (layout_fields (withSvg c2 []) n) as [B1 [B2 [B3 [B4 [B5 B6]]]]].
    change (width (withSvg c1 [])) with (width c1) in A5, A6.
    change (width (withSvg c2 [])) with (width c2) in B5, B6.
    change (dataPoints (withSvg c1 [])) with (dataPoints c1) in A1.
    change (dataPoints (withSvg c2 [])) with (dataPoints c2) in B1.
    change (fontColor (withSvg c1 [])) with (fontColor c1) in A3.
    change (fontColor (withSvg c2 [])) with (fontColor c2) in B3.
    change (scaleData (withSvg c1 [])) with (scaleData c1) in A4.
    change (scaleData (withSvg c2 [])) with (scaleData c2) in B4.
    split; [|intros _; split; congruence].
    f_equal. apply svgGroup_ext; congruence.
Qed.

(** X2: what a render draws and the geometry it computes are functions
    of the data points, the width, the font colour and the colour scale
    alone: the surface, the cell size and the height left by an earlier
    render, the tooltip and the console have no part in them. *)
Theorem generateSVG_depends_on_props c1 c2 :
  dataPoints c1 = dataPoints c2 -> width c1 = width c2 ->
  fontColor c1 = fontColor c2 -> scaleData c1 = scaleData c2 ->
  svgRef (generateSVG c1) = svgRef (generateSVG c2)
  /\ (dataPoints c1 <> [] ->
      cellSize (generateSVG c1) = cellSize (generateSVG c2)
      /\ height (generateSVG c1) = height (generateSVG c2)).
Proof. apply generateSVG_ext. Qed.

(** The sample once mounted, against the same props before any render. *)
Lemma generateSVG_depends_on_props_witness :
  svgRef (generateSVG scenario)
  = svgRef (generateSVG (create (daily (ymd 2024 1 1) 8 5) (Fin 200) "#666" (Fin 14)))
  /\ cellSize (generateSVG scenario)
     = cellSize (generateSVG (create (daily (ymd 2024 1 1) 8 5) (Fin 200) "#666" (Fin 14)))
  /\ height (generateSVG scenario)
     = height (generateSVG (create (daily (ymd 2024 1 1) 8 5) (Fin 200) "#666" (Fin 14))).
Proof.
  destruct (generateSVG_depends_on_props scenario
              (create (daily (ymd 2024 1 1) 8 5) (Fin 200) "#666" (Fin 14)))
    as [H1 H2]; try reflexivity.
  split; [exact H1|]. apply H2. discriminate.
Defined.

(** X3: rendering again changes neither the surface nor the geometry. *)
Theorem generateSVG_idempotent c :
  svgRef (generateSVG (generateSVG c)) = svgRef (generateSVG c)
  /\ cellSize (generateSVG (generateSVG c)) = cellSize (generateSVG c)
  /\ height (generateSVG (generateSVG c)) = height (generateSVG c).
Proof.
  destruct (generateSVG_props c) as [Hd [Hw [Hf Hs]]].
  destruct (generateSVG_ext (generateSVG c) c Hd Hw Hf Hs) as [Hsvg Hgeo].
  split; [exact Hsvg|].
  assert (Hcase : dataPoints c = [] \/ dataPoints c <> [])
    by (destruct (dataPoints c); [left|right]; easy).
  destruct Hcase as [E|H1].
  - assert (E' : dataPoints (generateSVG c) = []) by congruence.
    destruct (generateSVG_nothing _ E') as [_ [-> ->]]. split; reflexivity.
  - apply Hgeo. congruence.
Qed.
(** ** The grid *)


Lemma weekIndex_eq startDate day :
  weekIndex startDate day
  = (Interval.floor timeMonday day - Interval.floor timeMonday startDate)
    / msPerWeek.
Proof.
  unfold weekIndex.
  rewrite (count_eq timeMonday msPerWeek timeMonday_counti).
  now rewrite !timeMonday_floor_idem.
Qed.

Lemma weekIndex_exact startDate day :
  Interval.floor timeMonday day
  = Interval.floor timeMonday startDate + weekIndex startDate day * msPerWeek.
Proof.
  pose proof (weekCountOf_exact startDate day) as H.
  unfold weekCountOf in H. fold (weekIndex startDate day) in H. lia.
Qed.

(** A local midnight is its Monday floor plus as many days as its row. *)
Lemma midnight_from_monday day :
  startOfDay day = day ->
  day = Interval.floor timeMonday day + dayIndex day * msPerDay.
Proof.
  intros Hmid. unfold Interval.floor. rewrite timeMonday_floori.
  unfold dayIndex, getDay, dayNumber, startOfDay, timeInDay in *.
  change msPerWeek with 604800000. change msPerDay with 86400000 in *.
  Z.to_euclidean_division_equations. lia.
Qed.

Lemma day_from_indices startDate endDate day :
  In day (timeDays startDate endDate) ->
  day = Interval.floor timeMonday startDate
        + weekIndex startDate day * msPerWeek
        + dayIndex day * msPerDay.
Proof.
  intros Hday. apply timeDays_In in Hday. destruct Hday as [Hmid _].
  rewrite <- weekIndex_exact. now apply midnight_from_monday.
Qed.

(** X4: every day of the rendered range has its column between 0 and
    [weekCount - 1] and its row between 0 and 6, and the day is found
    again from the two: it is the Monday floor of the start date plus
    [column] weeks and [row] days. *)
Theorem cell_indices startDate endDate day :
  In day (timeDays startDate endDate) ->
  0 <= weekIndex startDate day <= weekCountOf startDate endDate - 1
  /\ 0 <= dayIndex day <= 6
  /\ day = Interval.floor timeMonday startDate
           + weekIndex startDate day * msPerWeek
           + dayIndex day * msPerDay.
Proof.
  intros Hday. apply timeDays_In in Hday. destruct Hday as [Hmid [Hs He]].
  pose proof (weekIndex_exact startDate day) as Hd.
  pose proof (weekCountOf_exact startDate endDate) as Hn.
  pose proof (timeMonday_floor_mono startDate day Hs) as H1.
  pose proof (timeMonday_floor_mono day endDate ltac:(lia)) as H2.
  pose proof msPerWeek_pos as Hw.
  split; [split; nia|]. split.
  - unfold dayIndex. pose proof (Z.mod_pos_bound (getDay day + 6) 7). lia.
  - rewrite <- Hd. now apply midnight_from_monday.
Qed.

Lemma cell_indices_witness :
  0 <= weekIndex (ymd 2024 1 3) (ymd 2024 1 14)
    <= weekCountOf (ymd 2024 1 3) (ymd 2024 1 16) - 1
  /\ 0 <= dayIndex (ymd 2024 1 14) <= 6
  /\ ymd 2024 1 14
     = Interval.floor timeMonday (ymd 2024 1 3)
       + weekIndex (ymd 2024 1 3) (ymd 2024 1 14) * msPerWeek
       + dayIndex (ymd 2024 1 14) * msPerDay.
Proof.
  apply (cell_indices (ymd 2024 1 3) (ymd 2024 1 16) (ymd 2024 1 14)).
  apply timeDays_In. vm_compute. repeat split; discriminate.
Defined.

(** X5: two different days of the rendered range differ in their column
    or in their row: no two rectangles share a place in the grid. *)
Theorem cell_places_distinct startDate endDate day1 day2 :
  In day1 (timeDays startDate endDate) ->
  In day2 (timeDays startDate endDate) ->
  day1 <> day2 ->
  (weekIndex startDate day1, dayIndex day1)
  <> (weekIndex startDate day2, dayIndex day2).
Proof.
  intros H1 H2 Hne Heq. apply Hne. injection Heq as Hw Hd.
  rewrite (day_from_indices _ _ _ H1), (day_from_indices _ _ _ H2).
  now rewrite Hw, Hd.
Qed.

Lemma cell_places_distinct_witness :
  (weekIndex (ymd 2024 1 3) (ymd 2024 1 7), dayIndex (ymd 2024 1 7))
  <> (weekIndex (ymd 2024 1 3) (ymd 2024 1 14), dayIndex (ymd 2024 1 14)).
Proof.
  apply (cell_places_distinct (ymd 2024 1 3) (ymd 2024 1 16)).
  - apply timeDays_In. vm_compute. repeat split; discriminate.
  - apply timeDays_In. vm_compute. repeat split; discriminate.
  - vm_compute. discriminate.
Defined.

(** X6: the rectangles of a render of a sequence that is not empty are
    dated, each date once, at exactly the local midnights from the first
    date on and before the last date. *)
Theorem rendered_days c :
  dataPoints c <> [] ->
  NoDup (map Cell.date (renderedCells (generateSVG c)))
  /\ (forall d,
        In d (map Cell.date (renderedCells (generateSVG c)))
        <-> startOfDay d = d
            /\ firstDate (dataPoints c) <= d < lastDate (dataPoints c)).
Proof.
  intros H. rewrite renderedCells_generateSVG by assumption.
  rewrite cells_dates. split.
  - apply timeDays_NoDup.
  - intros d. apply timeDays_In.
Qed.

Lemma rendered_days_witness :
  NoDup (map Cell.date (renderedCells (generateSVG gappy)))
  /\ (forall d,
        In d (map Cell.date (renderedCells (generateSVG gappy)))
        <-> startOfDay d = d
            /\ firstDate (dataPoints gappy) <= d < lastDate (dataPoints gappy)).
Proof. apply (rendered_days gappy). discriminate. Defined.
(** ** The grid on the canvas *)





Lemma height_generateSVG c :
  dataPoints c <> [] ->
  height (generateSVG c)
  = heightOf (cellSizeOf (width c)
                (weekCountOf (firstDate (dataPoints c)) (lastDate (dataPoints c)))).
Proof. intros H. now rewrite generateSVG_nonempty. Qed.



(** ** The geometry and the width *)

Lemma cellSizeOf_mono w1 w2 n :
  1 <= n -> (w1 <= w2)%num -> (cellSizeOf w1 n <= cellSizeOf w2 n)%num.
Proof.
  intros Hn Hle. unfold cellSizeOf.
  destruct (unclamped_infinite n Hn) as [Hp [Hm _]].
  pose proof (inject_Z_pos (n + 2) ltac:(lia)) as Hd.
  destruct w1 as [w1| | |], w2 as [w2| | |]; try discriminate;
    rewrite ?Hp, ?Hm, ?unclamped_finite, ?min_Fin by assumption;
    try reflexivity.
  - apply le_Fin in Hle.
    pose proof (Qdiv_le_mono (w1 + - inject_Z ((n - 1) * cellGap))
                  (w2 + - inject_Z ((n - 1) * cellGap)) _ Hd ltac:(lra)) as Hu.
    set (u1 := ((w1 + - inject_Z ((n - 1) * cellGap)) / inject_Z (n + 2))%Q) in *.
    set (u2 := ((w2 + - inject_Z ((n - 1) * cellGap)) / inject_Z (n + 2))%Q) in *.
    destruct (Qle_bool u1 14) eqn:E1; destruct (Qle_bool u2 14) eqn:E2;
      apply le_Fin.
    + assumption.
    + now apply Qle_bool_iff in E1.
    + apply Qle_bool_false in E1. apply Qle_bool_iff in E2. lra.
    + lra.
  - destruct (Qle_bool _ 14) eqn:E1; [|reflexivity].
    now apply le_Fin, Qle_bool_iff.
  - now destruct (Qle_bool _ 14).
Qed.

(** X8: of two renders of the same sequence, ordered by date, the one at
    the larger width has the larger or the same cell size. *)
Theorem cellSize_grows_with_width c1 c2 :
  dataPoints c1 <> [] -> ascending (dataPoints c1) = true ->
  dataPoints c2 = dataPoints c1 ->
  (width c1 <= width c2)%num ->
  (cellSize (generateSVG c1) <= cellSize (generateSVG c2))%num.
Proof.
  intros Hdata Hasc Heq Hle.
  rewrite !cellSize_generateSVG by congruence. rewrite Heq.
  apply cellSizeOf_mono; [|assumption].
  now apply weekCountOf_pos, ascending_first_last.
Qed.

Lemma cellSize_grows_with_width_witness :
  (cellSize (generateSVG scenarioNarrow) <= cellSize (generateSVG scenario))%num.
Proof.
  apply (cellSize_grows_with_width scenarioNarrow scenario);
    [discriminate | vm_compute; reflexivity | vm_compute; reflexivity
    | vm_compute; reflexivity].
Defined.

(** X9: the height of a render is 12.5 cell sizes and six gaps, whatever
    the number of weeks, and at a positive width it is at most 193. *)
Theorem height_of_render c :
  dataPoints c <> [] ->
  height (generateSVG c)
  = (Fin (25 # 2) * cellSize (generateSVG c) + Fin 18)%num
  /\ ((Fin 0 < width c)%num -> (height (generateSVG c) <= Fin 193)%num).
Proof.
  intros Hdata. rewrite height_generateSVG, cellSize_generateSVG by assumption.
  split; [reflexivity|]. intros Hw.
  pose proof (cellSizeOf_le_14 (width c)
                (weekCountOf (firstDate (dataPoints c)) (lastDate (dataPoints c)))
                Hw) as Hle.
  destruct (cellSizeOf _ _) as [q| | |]; try discriminate.
  - apply le_Fin in Hle. unfold heightOf, dayCount, cellGap, Num.of_Z.
    cbn [Num.add Num.mul]. apply le_Fin.
    change (inject_Z 7) with 7%Q. change (inject_Z ((7 - 1) * 3)) with 18%Q.
    lra.
  - reflexivity.
Qed.

Lemma height_of_render_witness :
  height (generateSVG scenario)
  = (Fin (25 # 2) * cellSize (generateSVG scenario) + Fin 18)%num
  /\ (height (generateSVG scenario) <= Fin 193)%num.
Proof.
  destruct (height_of_render scenario) as [H1 H2]; [discriminate|].
  split; [exact H1|]. apply H2. reflexivity.
Defined.

(** ** The colour scale outside and at the ends of its domain *)

Lemma colorScale_unfold data v :
  data <> [] ->
  colorScale data v
  = Scale.polymap3 (Fin 0) (Fin (midPoint data)) (Fin (topPoint data))
      emptyColor midColor highColor
      (Num.max (Fin 0) (Num.min (Fin (topPoint data)) (Fin v))).
Proof.
  intros H. unfold colorScale.
  rewrite mathMax_counts, mathMax_counts_10 by assumption.
  unfold Scale.scaleLinear3, Scale.clamper.
  cbn [Num.gtb Num.ltb Num.of_Z Num.div].
  change (Qeq_bool 2 0) with false. cbv iota.
  fold (midPoint data). fold (topPoint data).
  pose proof (topPoint_nonneg data) as HM.
  apply Qle_bool_iff in HM. rewrite HM. reflexivity.
Qed.

Lemma interpolate_at_one a b t :
  (t == 1)%Q ->
  clampi (interpolateChannel a b (Fin t)) = Z.max 0 (Z.min 255 b).
Proof.
  intros Ht. unfold interpolateChannel.
  assert (Hfloor : forall z, Qfloor (inject_Z z + (1 # 2)) = z).
  { intros z. pose proof (Qfloor_le (inject_Z z + (1 # 2))) as H1.
    pose proof (Qlt_floor (inject_Z z + (1 # 2))) as H2.
    assert (H3 : (inject_Z (Qfloor (inject_Z z + (1 # 2))) < inject_Z (z + 1))%Q)
      by (rewrite inject_Z_plus; change (inject_Z 1) with 1%Q; lra).
    assert (H4 : (inject_Z z < inject_Z (Qfloor (inject_Z z + (1 # 2)) + 1))%Q)
      by lra.
    rewrite <- Zlt_Qlt in H3, H4. lia. }
  destruct (b - a =? 0) eqn:E.
  - apply Z.eqb_eq in E. replace b with a by lia.
    cbn [Num.of_Z clampi]. now rewrite Hfloor.
  - cbn [Num.of_Z Num.add Num.mul clampi]. do 2 f_equal.
    rewrite <- (Hfloor b) at 2. apply Qfloor_comp.
    unfold Z.sub. rewrite Ht, inject_Z_plus, inject_Z_opp. lra.
Qed.

(** X10: the scale of a sequence that is not empty clamps: a value of
    zero or less gets the empty-cell colour, and a value at or above the
    largest count gets the colour of the largest count. *)
Theorem colorScale_clamps data v :
  data <> [] ->
  ((v <= 0)%Q -> colorScale data v = emptyColor)
  /\ ((topPoint data <= v)%Q ->
      colorScale data v = colorScale data (topPoint data)).
Proof.
  intros H. pose proof (topPoint_nonneg data) as HM.
  pose proof (midPoint_pos data) as Hmid.
  rewrite !colorScale_unfold by assumption. rewrite !min_Fin. split.
  - intros Hv. destruct (Qle_bool (topPoint data) v) eqn:E.
    + apply Qle_bool_iff in E. cbn [Num.max Num.leb].
      destruct (Qle_bool 0 (topPoint data));
        apply polymap3_zero; lra.
    + cbn [Num.max Num.leb]. destruct (Qle_bool 0 v) eqn:F.
      * apply Qle_bool_iff in F. apply polymap3_zero; lra.
      * apply polymap3_zero; lra.
  - intros Hv. apply Qle_bool_iff in Hv. rewrite Hv.
    assert (Hrefl : Qle_bool (topPoint data) (topPoint data) = true)
      by (apply Qle_bool_iff; lra).
    now rewrite Hrefl.
Qed.

Lemma colorScale_clamps_witness :
  colorScale (dataPoints gappy) (-3) = emptyColor
  /\ colorScale (dataPoints gappy) 40
     = colorScale (dataPoints gappy) (topPoint (dataPoints gappy)).
Proof.
  destruct (colorScale_clamps (dataPoints gappy) (-3)) as [H1 _];
    [discriminate|].
  destruct (colorScale_clamps (dataPoints gappy) 40) as [_ H2];
    [discriminate|].
  split; [apply H1; discriminate | apply H2; vm_compute; discriminate].
Defined.

Lemma clamp_range top v :
  (0 <= top)%Q ->
  exists y,
    Num.max (Fin 0) (Num.min (Fin top) (Fin v)) = Fin y
    /\ (0 <= y <= top)%Q.
Proof.
  intros Htop. rewrite min_Fin.
  destruct (Qle_bool top v) eqn:E; cbn [Num.max Num.leb].
  - apply Qle_bool_iff in Htop. rewrite Htop. apply Qle_bool_iff in Htop.
    exists top. split; [reflexivity|lra].
  - apply Qle_bool_false in E. destruct (Qle_bool 0 v) eqn:F.
    + apply Qle_bool_iff in F. exists v. split; [reflexivity|lra].
    + exists 0%Q. split; [reflexivity|lra].
Qed.

(** X11: the darkest colour of the ramp is the colour of the largest count
    only when that count exceeds 5: then the largest count is coloured
    #196127; when it is 5 or less every value is coloured with a green
    channel of 149 or more. *)
Theorem colorScale_top data :
  data <> [] ->
  ((5 < maxCount data)%N -> colorScale data (topPoint data) = highColor)
  /\ ((maxCount data <= 5)%N -> forall v, 149 <= green (colorScale data v)).
Proof.
  intros H. pose proof (topPoint_nonneg data) as HM.
  split.
  - intros Hbig.
    rewrite colorScale_unfold by assumption. rewrite min_Fin.
    assert (Hrefl : Qle_bool (topPoint data) (topPoint data) = true)
      by (apply Qle_bool_iff; lra).
    rewrite Hrefl. cbn [Num.max Num.leb].
    apply Qle_bool_iff in HM. rewrite HM. apply Qle_bool_iff in HM.
    assert (Hlt : (midPoint data < topPoint data)%Q).
    { unfold midPoint, topPoint. apply Qlt_shift_div_r; [reflexivity|].
      assert (Hmax : (inject_Z (Z.max (Z.of_N (maxCount data)) 10)
                      < inject_Z (2 * Z.of_N (maxCount data)))%Q)
        by (rewrite <- Zlt_Qlt; lia).
      rewrite inject_Z_mult in Hmax. change (inject_Z 2) with 2%Q in Hmax. lra. }
    pose proof (midPoint_pos data) as Hmid.
    unfold Scale.polymap3.
    assert (E : Num.ltb (Fin (topPoint data)) (Fin 0) = false)
      by (cbn; apply negb_false_iff, Qle_bool_iff; lra).
    rewrite E. unfold Scale.bisect3. cbn [Num.leb].
    assert (F : Qle_bool (midPoint data) (topPoint data) = true)
      by (apply Qle_bool_iff; lra).
    rewrite F. unfold interpolateRgb, Scale.normalize.
    cbn [Num.sub Num.neg Num.add Num.truthy Num.isNaN].
    assert (G : Qeq_bool (topPoint data + - midPoint data) 0 = false)
      by (apply Qeq_bool_false; lra).
    rewrite G. cbn [negb Num.div]. rewrite G.
    assert (Ht : ((topPoint data + - midPoint data)
                  / (topPoint data + - midPoint data) == 1)%Q)
      by (field; lra).
    rewrite !(interpolate_at_one _ _ _ Ht). reflexivity.
  - intros Hsmall v. rewrite colorScale_unfold by assumption.
    destruct (clamp_range (topPoint data) v HM) as [y [-> [Hy0 Hy1]]].
    pose proof (midPoint_pos data) as Hmid.
    assert (Hmid5 : (midPoint data == 5)%Q).
    { unfold midPoint. replace (Z.max (Z.of_N (maxCount data)) 10) with 10 by lia.
      reflexivity. }
    assert (Htop5 : (topPoint data <= 5)%Q).
    { unfold topPoint. change 5%Q with (inject_Z 5). rewrite <- Zle_Qle. lia. }
    rewrite green_polymap3 by lra.
    destruct (Qle_bool (midPoint data) y) eqn:F.
    + apply Qle_bool_iff in F.
      assert (G : Qeq_bool (topPoint data + - midPoint data) 0 = true)
        by (apply Qeq_bool_iff; lra).
      rewrite G. lia.
    + apply Qle_bool_false in F.
      assert (Hd : (0 < midPoint data + - 0)%Q) by lra.
      pose proof (Qdiv_lt_1 (y + - 0) _ Hd ltac:(lra)) as Ht.
      change (inject_Z 237) with 237%Q. change (inject_Z (-36)) with (-36)%Q.
      transitivity (clampi (Fin 201)); [vm_compute; discriminate|].
      apply clampi_mono. lra.
Qed.

(** The sample of counts 3, 9, 2 reaches the darkest colour at 9; the
    sample of counts all 5 stays at a green channel of 149 or more. *)
Lemma colorScale_top_witness :
  colorScale (dataPoints gappy) (topPoint (dataPoints gappy)) = highColor
  /\ 149 <= green (colorScale (dataPoints scenario) 3).
Proof.
  destruct (colorScale_top (dataPoints gappy)) as [H1 _]; [discriminate|].
  destruct (colorScale_top (dataPoints scenario)) as [_ H2]; [discriminate|].
  split; [apply H1; reflexivity | apply H2; vm_compute; discriminate].
Defined.

(** ** The year legend and the cells *)

Lemma sumN_cons a l : sumN (a :: l) = (a + sumN l)%N.
Proof. reflexivity. Qed.

Lemma yearCount_sum data :
  yearCount data = sumN (map HeatmapDataPoint.count data).
Proof.
  unfold yearCount.
  assert (H : forall acc,
             fold_left (fun sum d => (sum + HeatmapDataPoint.count d)%N) data acc
             = (acc + sumN (map HeatmapDataPoint.count data))%N).
  { induction data as [|d l IH]; intros acc; cbn [fold_left map].
    - change (sumN []) with 0%N. lia.
    - rewrite IH, sumN_cons. lia. }
  now rewrite H.
Qed.

Lemma cellCountSum_sum l : cellCountSum l = sumN (map Cell.count l).
Proof.
  induction l as [|a l IH]; [reflexivity|].
  cbn [map]. rewrite sumN_cons, <- IH. reflexivity.
Qed.

Lemma cellOf_count c startDate day :
  Cell.count (cellOf c startDate day) = countOn (dataPoints c) day.
Proof. reflexivity. Qed.

Lemma countOn_cons d l day :
  countOn (d :: l) day
  = if toDateString (HeatmapDataPoint.date d) =? toDateString day
    then HeatmapDataPoint.count d
    else countOn l day.
Proof.
  unfold countOn. cbn [find].
  now destruct (toDateString (HeatmapDataPoint.date d) =? toDateString day).
Qed.

(** Days on different calendar days draw on different data points, so
    their counts add up to no more than all the counts. *)
Lemma countOn_sum_le data : forall days,
  NoDup (map toDateString days) ->
  (sumN (map (countOn data) days) <= sumN (map HeatmapDataPoint.count data))%N.
Proof.
  induction data as [|d l IH]; intros days Hnd.
  - rewrite (map_ext _ (fun _ => 0%N)) by reflexivity.
    clear Hnd. change (sumN (map HeatmapDataPoint.count [])) with 0%N.
    induction days as [|day days IHd]; cbn [map]; [reflexivity|].
    rewrite sumN_cons. lia.
  - specialize (IH days Hnd). cbn [map]. rewrite sumN_cons.
    enough (H : (sumN (map (countOn (d :: l)) days)
                 <= HeatmapDataPoint.count d + sumN (map (countOn l) days))%N)
      by lia.
    clear IH. induction days as [|day days IHd]; cbn [map].
    { change (sumN []) with 0%N. lia. }
    rewrite !sumN_cons.
    inversion Hnd as [|x xs Hnotin Hnd']; subst.
    rewrite countOn_cons.
    destruct (Z.eqb_spec (toDateString (HeatmapDataPoint.date d))
                         (toDateString day)) as [Heq|Hne].
    + assert (Hrest : map (countOn (d :: l)) days = map (countOn l) days).
      { apply map_ext_in. intros day' Hin. rewrite countOn_cons.
        destruct (Z.eqb_spec (toDateString (HeatmapDataPoint.date d))
                             (toDateString day')) as [Heq'|_]; [|reflexivity].
        exfalso. apply Hnotin. rewrite <- Heq, Heq'. now apply in_map. }
      rewrite Hrest. lia.
    + specialize (IHd Hnd'). lia.
Qed.

Lemma timeDays_days_NoDup startDate endDate :
  NoDup (map toDateString (timeDays startDate endDate)).
Proof.
  apply Finite.Injective_map_NoDup_in; [|apply timeDays_NoDup].
  intros d1 d2 H1 H2 Heq.
  apply timeDays_In in H1, H2. destruct H1 as [H1 _], H2 as [H2 _].
  unfold toDateString, dayNumber, startOfDay, timeInDay in *.
  change msPerDay with 86400000 in *.
  Z.to_euclidean_division_equations. lia.
Qed.

Lemma texts_group attrs children :
  texts (SvgGroup attrs children) = flat_map texts children.
Proof. reflexivity. Qed.

Lemma legend_texts c :
  texts (generateYearLegendSVG c)
  = [("最近一年记录 " ++ decimal (yearCount (dataPoints c)) ++ " 条笔记")%string].
Proof. reflexivity. Qed.

Lemma surface_texts c :
  dataPoints c <> [] ->
  exists labels,
    flat_map texts (svgRef (generateSVG c))
    = ("最近一年记录 " ++ decimal (yearCount (dataPoints c)) ++ " 条笔记")%string
      :: labels.
Proof.
  intros H. rewrite generateSVG_nonempty by assumption. cbv zeta.
  change (svgRef (withConsole ?a ?d)) with (svgRef a).
  change (svgRef (withSvg ?a ?l)) with l.
  rewrite flat_map_step. unfold svgGroup.
  rewrite texts_group, flat_map_step, legend_texts.
  destruct (layout_fields (withSvg c [])
              (weekCountOf (firstDate (dataPoints c)) (lastDate (dataPoints c))))
    as [-> _].
  change (dataPoints (withSvg c [])) with (dataPoints c).
  rewrite <- !app_assoc. cbn [app].
  eexists. reflexivity.
Qed.

Lemma yearCount_fold_le data : forall acc,
  (acc <= fold_left (fun sum d => sum + HeatmapDataPoint.count d) data acc)%N.
Proof.
  induction data as [|d l IH]; intros acc; [apply N.le_refl|].
  cbn [fold_left]. specialize (IH (acc + HeatmapDataPoint.count d)%N). lia.
Qed.

(** Below [2 ^ 53] the sum the code makes in doubles is the sum. *)
Lemma yearCount64_exact data :
  (yearCount data < 2 ^ 53)%N ->
  yearCount64 data = Num.of_Z (Z.of_N (yearCount data)).
Proof.
  unfold yearCount64, yearCount.
  change (Fin 0) with (Num.of_Z (Z.of_N 0)).
  generalize 0%N as acc. induction data as [|d l IH]; intros acc H;
    [reflexivity|].
  cbn [fold_left] in *. rewrite <- (IH _ H). f_equal.
  pose proof (yearCount_fold_le l (acc + HeatmapDataPoint.count d)) as Hle.
  unfold Binary64.add, countNum, Num.of_Z. cbn [Num.add Binary64.rounded].
  apply round_Z.
  - rewrite <- inject_Z_plus. now rewrite N2Z.inj_add.
  - change (2 ^ 53)%N with 9007199254740992%N in H.
    change (2 ^ 53) with 9007199254740992. lia.
Qed.

(** X12: when the counts add up to less than [2 ^ 53], the sum the code
    makes in doubles is their sum; the first text of a render is the
    year legend with that sum, and the counts the rectangles show add up
    to no more: a day shows the first of its data points only, and a
    data point whose day gets no rectangle is not shown. *)
Theorem cells_sum_le_legend c :
  dataPoints c <> [] ->
  (yearCount (dataPoints c) < 2 ^ 53)%N ->
  yearCount64 (dataPoints c) = Num.of_Z (Z.of_N (yearCount (dataPoints c)))
  /\ (exists labels,
        flat_map texts (svgRef (generateSVG c))
        = ("最近一年记录 " ++ decimal (yearCount (dataPoints c)) ++ " 条笔记")%string
          :: labels)
  /\ yearCount (dataPoints c) = sumN (map HeatmapDataPoint.count (dataPoints c))
  /\ (cellCountSum (renderedCells (generateSVG c))
      <= yearCount (dataPoints c))%N.
Proof.
  intros H Hsum. split; [now apply yearCount64_exact|].
  split; [now apply surface_texts|]. split; [apply yearCount_sum|].
  rewrite renderedCells_generateSVG by assumption.
  rewrite cellCountSum_sum, yearCount_sum. unfold cells.
  rewrite map_map.
  rewrite (map_ext _ (countOn (dataPoints c))) by reflexivity.
  apply countOn_sum_le, timeDays_days_NoDup.
Qed.

(** The sample with a day entered twice: the legend prints 14, the
    rectangles show 3. *)
Lemma cells_sum_le_legend_witness :
  yearCount (dataPoints gappy) = 14%N
  /\ cellCountSum (renderedCells (generateSVG gappy)) = 3%N
  /\ yearCount64 (dataPoints gappy) = Fin 14
  /\ (cellCountSum (renderedCells (generateSVG gappy))
      <= yearCount (dataPoints gappy))%N.
Proof.
  split; [vm_compute; reflexivity|]. split; [vm_compute; reflexivity|].
  destruct (cells_sum_le_legend gappy) as [H1 [_ [_ H2]]];
    [discriminate | vm_compute; reflexivity |].
  split; [|exact H2]. rewrite H1. vm_compute. reflexivity.
Defined.

(** ** The generated data *)

Lemma randomDataLoop_closed random fuel : forall i currentDate endDate,
  (endDate - currentDate) / msPerDay + 1 <= Z.of_nat fuel ->
  randomDataLoop random fuel i currentDate endDate
  = map (fun k =>
           {| HeatmapDataPoint.date := addDays currentDate (Z.of_nat k);
              HeatmapDataPoint.count := Z.to_N (Qfloor (random (i + k)%nat * 20)) |})
        (seq 0 (Z.to_nat ((endDate - currentDate) / msPerDay + 1))).
Proof.
  induction fuel as [|fuel IH]; intros i cur endD Hfuel.
  - cbn [randomDataLoop]. replace (Z.to_nat _) with 0%nat by lia. reflexivity.
  - cbn [randomDataLoop]. destruct (Z.leb_spec cur endD) as [Hle|Hgt].
    + assert (Hn : (endD - addDays cur 1) / msPerDay + 1
                   = (endD - cur) / msPerDay).
      { unfold addDays.
        replace (endD - (cur + 1 * msPerDay)) with (endD - cur + (-1) * msPerDay)
          by lia.
        rewrite Z.div_add by (unfold msPerDay; lia). lia. }
      assert (Hpos : 0 <= (endD - cur) / msPerDay)
        by (apply Z.div_pos; [lia|reflexivity]).
      rewrite IH by lia. rewrite Hn.
      replace (Z.to_nat ((endD - cur) / msPerDay + 1))
        with (S (Z.to_nat ((endD - cur) / msPerDay))) by lia.
      cbn [seq map]. f_equal.
      * f_equal; [unfold addDays; lia|]. now rewrite Nat.add_0_r.
      * rewrite <- seq_shift, map_map. apply map_ext. intros k.
        f_equal; [unfold addDays; lia|]. do 4 f_equal. lia.
    + assert (Hneg : (endD - cur) / msPerDay < 0)
        by (apply Z.div_lt_upper_bound; [reflexivity|lia]).
      replace (Z.to_nat _) with 0%nat by lia. reflexivity.
Qed.

(** The loop is given fuel enough: the data are the points of the whole
    days from the start date to the end date. *)
Lemma generateRandomData_closed random startDate endDate :
  generateRandomData random startDate endDate
  = map (randomPoint random startDate)
        (seq 0 (Z.to_nat ((endDate - startDate) / msPerDay + 1))).
Proof.
  unfold generateRandomData. rewrite randomDataLoop_closed by lia.
  reflexivity.
Qed.

Lemma ascending_step a b l :
  ascending (a :: b :: l)
  = (HeatmapDataPoint.date a <=? HeatmapDataPoint.date b) && ascending (b :: l).
Proof. reflexivity. Qed.

Lemma ascending_points random startDate n : forall a,
  ascending (map (randomPoint random startDate) (seq a n)) = true.
Proof.
  induction n as [|n IH]; intros a; [reflexivity|].
  destruct n as [|n]; [reflexivity|].
  specialize (IH (S a)).
  change (seq a (S (S n))) with (a :: S a :: seq (S (S a)) n).
  change (seq (S a) (S n)) with (S a :: seq (S (S a)) n) in IH.
  cbn [map] in *. rewrite ascending_step, IH, andb_true_r.
  apply Z.leb_le. cbn [randomPoint HeatmapDataPoint.date].
  unfold addDays, msPerDay. lia.
Qed.

Lemma last_map_seq {A} (f : nat -> A) n a d :
  last (map f (seq a (S n))) d = f (a + n)%nat.
Proof.
  revert a. induction n as [|n IH]; intros a.
  - cbn. now rewrite Nat.add_0_r.
  - change (seq a (S (S n))) with (a :: seq (S a) (S n)).
    cbn [map]. change (last (?x :: map f (seq (S a) (S n))) d)
      with (last (map f (seq (S a) (S n))) d).
    rewrite IH. f_equal. lia.
Qed.

(** X13: for a start date at or before the end date, [generateRandomData]
    gives one point for each whole day from the start date on, ordered
    by date, the first at the start date and the last less than a day
    before the end date or at it; with draws in [[0, 1)] every count is
    below 20. *)
Theorem generateRandomData_days random startDate endDate :
  startDate <= endDate ->
  List.length (generateRandomData random startDate endDate)
  = Z.to_nat ((endDate - startDate) / msPerDay + 1)
  /\ generateRandomData random startDate endDate <> []
  /\ ascending (generateRandomData random startDate endDate) = true
  /\ firstDate (generateRandomData random startDate endDate) = startDate
  /\ endDate - msPerDay
     < lastDate (generateRandomData random startDate endDate) <= endDate
  /\ (forall k d,
        nth_error (generateRandomData random startDate endDate) k = Some d ->
        HeatmapDataPoint.date d = startDate + Z.of_nat k * msPerDay)
  /\ ((forall k, (0 <= random k < 1)%Q) ->
      forall d, In d (generateRandomData random startDate endDate) ->
                (HeatmapDataPoint.count d < 20)%N).
Proof.
  intros Hle. rewrite generateRandomData_closed.
  assert (Hq : 0 <= (endDate - startDate) / msPerDay)
    by (apply Z.div_pos; [lia|reflexivity]).
  pose proof (Z.div_mod (endDate - startDate) msPerDay ltac:(discriminate)) as Hdm.
  pose proof (Z.mod_pos_bound (endDate - startDate) msPerDay msPerDay_pos) as Hr.
  set (q := (endDate - startDate) / msPerDay) in *.
  replace (Z.to_nat (q + 1)) with (S (Z.to_nat q)) by lia.
  split; [now rewrite length_map, length_seq|].
  split; [discriminate|].
  split; [apply ascending_points|].
  split; [cbn; unfold addDays; lia|].
  split.
  { unfold lastDate. rewrite map_map, last_map_seq.
    cbn [randomPoint HeatmapDataPoint.date]. unfold addDays. nia. }
  split.
  - intros k d Hk. apply nth_error_In in Hk as Hin.
    rewrite nth_error_map in Hk.
    destruct (nth_error (seq 0 (S (Z.to_nat q))) k) as [j|] eqn:E; [|discriminate].
    assert (Hj : j = k).
    { pose proof (nth_error_Some (seq 0 (S (Z.to_nat q))) k) as Hs.
      assert (Hlt : (k < List.length (seq 0 (S (Z.to_nat q))))%nat)
        by (apply Hs; congruence).
      rewrite length_seq in Hlt.
      rewrite (nth_error_nth' _ 0%nat) in E by (now rewrite length_seq).
      rewrite seq_nth in E by assumption. injection E as <-. reflexivity. }
    subst j. cbn in Hk. injection Hk as <-. reflexivity.
  - intros Hrand d Hin. apply in_map_iff in Hin. destruct Hin as [k [<- _]].
    cbn [randomPoint HeatmapDataPoint.count].
    destruct (Hrand k) as [H0 H1].
    assert (Hfl : Qfloor (random k * 20) < 20).
    { rewrite Zlt_Qlt. eapply Qle_lt_trans; [apply Qfloor_le|].
      change (inject_Z 20) with 20%Q. lra. }
    assert (Hfl0 : 0 <= Qfloor (random k * 20)).
    { change 0 with (Qfloor 0). apply Qfloor_resp_le. lra. }
    lia.
Qed.

(** Eight days from 2024-01-01 10:00 with draws all 1/2. *)
Lemma generateRandomData_days_witness :
  List.length (generateRandomData halves (ymd 2024 1 1 + 36000000)
                                  (ymd 2024 1 8 + 36000000))
  = 8%nat
  /\ ascending (generateRandomData halves (ymd 2024 1 1 + 36000000)
                                   (ymd 2024 1 8 + 36000000)) = true
  /\ forall d,
       In d (generateRandomData halves (ymd 2024 1 1 + 36000000)
                                (ymd 2024 1 8 + 36000000)) ->
       (HeatmapDataPoint.count d < 20)%N.
Proof.
  destruct (generateRandomData_days halves (ymd 2024 1 1 + 36000000)
              (ymd 2024 1 8 + 36000000))
    as [H1 [_ [H2 [_ [_ [_ H3]]]]]].
  - vm_compute. discriminate.
  - split; [exact H1|]. split; [exact H2|]. apply H3.
    intros k. unfold halves. split; [discriminate|reflexivity].
Defined.

(** ** The calendar *)

(** The civil date of a day number has its month in 1..12 and its day in
    1..31, and the day number of that civil date is the day number. *)
Lemma civil_ranges z :
  1 <= snd (fst (civil_from_days z)) <= 12
  /\ 1 <= snd (civil_from_days z) <= 31.
Proof.
  unfold civil_from_days. cbn [fst snd].
  set (z' := z + 719468). set (era := z' / 146097).
  set (doe := z' - era * 146097).
  assert (Hdoe : 0 <= doe <= 146096)
    by (subst doe era; Z.to_euclidean_division_equations; lia).
  clearbody doe. clear z' era.
  set (yoe := (doe - doe / 1460 + doe / 36524 - doe / 146096) / 365).
  set (doy := doe - (365 * yoe + yoe / 4 - yoe / 100)).
  assert (Hdoy : 0 <= doy <= 365)
    by (subst doy yoe; Z.to_euclidean_division_equations; lia).
  clearbody doy.
  set (mp := (5 * doy + 2) / 153).
  assert (Hmp : 0 <= mp <= 11)
    by (subst mp; Z.to_euclidean_division_equations; lia).
  assert (Hd : 1 <= doy - (153 * mp + 2) / 5 + 1 <= 31)
    by (subst mp; Z.to_euclidean_division_equations; lia).
  clearbody mp.
  destruct (mp <? 10) eqn:E; [apply Z.ltb_lt in E|apply Z.ltb_ge in E];
    split; lia.
Qed.

Lemma civil_round_trip z :
  days_from_civil (fst (fst (civil_from_days z)))
                  (snd (fst (civil_from_days z)))
                  (snd (civil_from_days z))
  = z.
Proof.
  unfold civil_from_days, days_from_civil. cbn [fst snd].
  set (z' := z + 719468). set (era := z' / 146097).
  set (doe := z' - era * 146097).
  assert (Hdoe : 0 <= doe <= 146096)
    by (subst doe era; Z.to_euclidean_division_equations; lia).
  assert (Hz : z = era * 146097 + doe - 719468) by (subst doe z'; lia).
  clearbody doe era. clear z'. subst z.
  set (yoe := (doe - doe / 1460 + doe / 36524 - doe / 146096) / 365).
  assert (Hyoe : 0 <= yoe <= 399)
    by (subst yoe; Z.to_euclidean_division_equations; lia).
  set (doy := doe - (365 * yoe + yoe / 4 - yoe / 100)).
  assert (Hdoy : 0 <= doy <= 365)
    by (subst doy yoe; Z.to_euclidean_division_equations; lia).
  assert (Hdoe2 : doe = yoe * 365 + yoe / 4 - yoe / 100 + doy)
    by (subst doy; lia).
  clearbody doy.
  set (mp := (5 * doy + 2) / 153).
  assert (Hmp : 0 <= mp <= 11)
    by (subst mp; Z.to_euclidean_division_equations; lia).
  assert (Hdoy2 : (153 * mp + 2) / 5 + (doy - (153 * mp + 2) / 5 + 1) - 1 = doy)
    by lia.
  set (d := doy - (153 * mp + 2) / 5 + 1) in *.
  clearbody d mp.
  destruct (mp <? 10) eqn:E; [apply Z.ltb_lt in E|apply Z.ltb_ge in E].
  - replace (mp + 3 <=? 2) with false by (symmetry; apply Z.leb_gt; lia).
    replace (2 <? mp + 3) with true by (symmetry; apply Z.ltb_lt; lia).
    replace (mp + 3 - 3) with mp by lia.
    replace ((yoe + era * 400) / 400) with era
      by (Z.to_euclidean_division_equations; lia).
    replace (yoe + era * 400 - era * 400) with yoe by lia. lia.
  - replace (mp - 9 <=? 2) with true by (symmetry; apply Z.leb_le; lia).
    replace (2 <? mp - 9) with false by (symmetry; apply Z.ltb_ge; lia).
    replace (mp - 9 + 9) with mp by lia.
    replace (yoe + era * 400 + 1 - 1) with (yoe + era * 400) by lia.
    replace ((yoe + era * 400) / 400) with era
      by (Z.to_euclidean_division_equations; lia).
    replace (yoe + era * 400 - era * 400) with yoe by lia. lia.
Qed.

(** The same month and day a year earlier lies 365 or 366 days back. *)
Lemma days_from_civil_year_before y m d :
  days_from_civil (y - 1) m d = days_from_civil y m d - 365
  \/ days_from_civil (y - 1) m d = days_from_civil y m d - 366.
Proof.
  unfold days_from_civil.
  destruct (m <=? 2); set (doy := (153 * _ + 2) / 5 + d - 1); clearbody doy;
    Z.to_euclidean_division_equations; lia.
Qed.

Lemma yearBefore_span t :
  yearBefore t = t - 365 * msPerDay \/ yearBefore t = t - 366 * msPerDay.
Proof.
  unfold yearBefore, getFullYear, getMonth, getDate.
  replace (snd (fst (civil_from_days (dayNumber t))) - 1 + 1)
    with (snd (fst (civil_from_days (dayNumber t)))) by lia.
  pose proof (civil_round_trip (dayNumber t)) as Hrt.
  pose proof (Z.div_mod t msPerDay ltac:(discriminate)) as Hdm.
  fold (dayNumber t) in Hdm. fold (timeInDay t) in Hdm.
  destruct (days_from_civil_year_before
              (fst (fst (civil_from_days (dayNumber t))))
              (snd (fst (civil_from_days (dayNumber t))))
              (snd (civil_from_days (dayNumber t)))) as [H|H];
    rewrite H, Hrt; [left|right]; lia.
Qed.

(** ** A year of generated data *)

Lemma getHeatmapDataPoints_closed random t :
  exists n,
    (n = 365 \/ n = 366)
    /\ yearBefore t = t - n * msPerDay
    /\ getHeatmapDataPoints random t
       = map (randomPoint random (yearBefore t)) (seq 0 (S (Z.to_nat n))).
Proof.
  unfold getHeatmapDataPoints. rewrite generateRandomData_closed.
  assert (Hq : forall n, yearBefore t = t - n * msPerDay ->
                         (t - yearBefore t) / msPerDay = n).
  { intros n H. rewrite H. replace (t - (t - n * msPerDay)) with (n * msPerDay)
      by lia. apply Z.div_mul. discriminate. }
  destruct (yearBefore_span t) as [H|H]; [exists 365|exists 366];
    (split; [auto|]); (split; [exact H|]); rewrite (Hq _ H); reflexivity.
Qed.

Lemma generated_year random t :
  (List.length (getHeatmapDataPoints random t) = 366%nat
   \/ List.length (getHeatmapDataPoints random t) = 367%nat)
  /\ ascending (getHeatmapDataPoints random t) = true
  /\ firstDate (getHeatmapDataPoints random t) = yearBefore t
  /\ lastDate (getHeatmapDataPoints random t) = t
  /\ lastDate (getHeatmapDataPoints random t)
     = firstDate (getHeatmapDataPoints random t)
       + Z.of_nat (List.length (getHeatmapDataPoints random t) - 1) * msPerDay.
Proof.
  destruct (getHeatmapDataPoints_closed random t) as [n [Hn [Hy ->]]].
  rewrite length_map, length_seq.
  split; [destruct Hn as [-> | ->]; [left|right]; reflexivity|].
  split; [apply ascending_points|].
  assert (Hfirst : firstDate (map (randomPoint random (yearBefore t))
                                  (seq 0 (S (Z.to_nat n))))
                   = yearBefore t)
    by (cbn; unfold addDays; lia).
  assert (Hlast : lastDate (map (randomPoint random (yearBefore t))
                                (seq 0 (S (Z.to_nat n))))
                  = t).
  { unfold lastDate. rewrite map_map, last_map_seq.
    cbn [randomPoint HeatmapDataPoint.date]. unfold addDays.
    rewrite Hy. unfold msPerDay. destruct Hn as [-> | ->]; lia. }
  rewrite Hfirst, Hlast. repeat split.
  rewrite Hy. unfold msPerDay. destruct Hn as [-> | ->]; lia.
Qed.

Lemma nth_error_map_seq {A} (f : nat -> A) n k d :
  nth_error (map f (seq 0 n)) k = Some d -> d = f k.
Proof.
  intros H. rewrite nth_error_map in H.
  destruct (nth_error (seq 0 n) k) as [j|] eqn:E; [|discriminate].
  assert (Hk : (k < List.length (seq 0 n))%nat)
    by (apply nth_error_Some; congruence).
  rewrite length_seq in Hk.
  rewrite (nth_error_nth' _ 0%nat) in E by (now rewrite length_seq).
  rewrite seq_nth in E by assumption. injection E as <-.
  cbn in H. now injection H as <-.
Qed.

(** X14: [getHeatmapDataPoints] gives 366 or 367 points, ordered by date,
    a day apart (the [k]-th is dated [k] days after the first), from the
    same time of day a year before the present time to the present time
    itself. *)
Theorem getHeatmapDataPoints_year random t :
  (List.length (getHeatmapDataPoints random t) = 366%nat
   \/ List.length (getHeatmapDataPoints random t) = 367%nat)
  /\ ascending (getHeatmapDataPoints random t) = true
  /\ firstDate (getHeatmapDataPoints random t) = yearBefore t
  /\ lastDate (getHeatmapDataPoints random t) = t
  /\ lastDate (getHeatmapDataPoints random t)
     = firstDate (getHeatmapDataPoints random t)
       + Z.of_nat (List.length (getHeatmapDataPoints random t) - 1) * msPerDay
  /\ (forall k d,
        nth_error (getHeatmapDataPoints random t) k = Some d ->
        HeatmapDataPoint.date d = yearBefore t + Z.of_nat k * msPerDay)
  /\ (forall k d1 d2,
        nth_error (getHeatmapDataPoints random t) k = Some d1 ->
        nth_error (getHeatmapDataPoints random t) (S k) = Some d2 ->
        HeatmapDataPoint.date d2 = HeatmapDataPoint.date d1 + msPerDay).
Proof.
  destruct (generated_year random t) as [H1 [H2 [H3 [H4 H5]]]].
  assert (Hk : forall k d,
             nth_error (getHeatmapDataPoints random t) k = Some d ->
             HeatmapDataPoint.date d = yearBefore t + Z.of_nat k * msPerDay).
  { destruct (getHeatmapDataPoints_closed random t) as [n [_ [_ ->]]].
    intros k d H. apply nth_error_map_seq in H. subst d. reflexivity. }
  repeat (split; [assumption|]).
  intros k d1 d2 Hd1 Hd2. rewrite (Hk _ _ Hd1), (Hk _ _ Hd2). lia.
Qed.

(** The days [timeDays] lists over a span of [n] whole days are [n]. *)
Lemma timeDays_length_span start n :
  1 <= n ->
  List.length (timeDays start (start + n * msPerDay)) = Z.to_nat n.
Proof.
  intros Hn. unfold timeDays.
  rewrite (range_closed timeDay msPerDay 0 msPerDay_pos
             timeDay_floori timeDay_offseti timeDay_counti).
  pose proof (ceil_bounds timeDay msPerDay 0 msPerDay_pos
                timeDay_floori timeDay_offseti start) as Hc.
  pose proof msPerDay_pos as Hd.
  destruct (Z.ltb_spec (Interval.ceil timeDay start) (start + n * msPerDay))
    as [Hlt|Hge]; [|nia].
  rewrite length_map, length_seq. f_equal. unfold steps.
  assert (H : (start + n * msPerDay - 1 - Interval.ceil timeDay start) / msPerDay
              = n - 1).
  { symmetry. apply (Z.div_unique _ _ _
      (start + n * msPerDay - 1 - Interval.ceil timeDay start - (n - 1) * msPerDay));
      lia. }
  lia.
Qed.

(** X15: a render of the data [getHeatmapDataPoints] gives draws one
    rectangle fewer than there are data points. *)
Theorem generated_year_rendered random t c :
  dataPoints c = getHeatmapDataPoints random t ->
  S (List.length (renderedCells (generateSVG c)))
  = List.length (dataPoints c).
Proof.
  intros Hdata.
  destruct (generated_year random t) as [Hlen [_ [Hf [Hl Hspan]]]].
  rewrite <- Hdata in *.
  assert (Hne : dataPoints c <> [])
    by (intros E; rewrite E in Hlen; destruct Hlen; discriminate).
  rewrite renderedCells_generateSVG by assumption.
  unfold cells. rewrite length_map, Hspan, timeDays_length_span;
    destruct Hlen as [-> | ->]; lia.
Qed.

(** The data of 2 November 2024, 10:00: 367 points, 366 rectangles. *)
Lemma generated_year_rendered_witness :
  S (List.length
       (renderedCells
          (generateSVG (create (getHeatmapDataPoints halves (now hostReading))
                               (Fin 700) "#333" (Fin 16)))))
  = List.length
      (dataPoints (create (getHeatmapDataPoints halves (now hostReading))
                          (Fin 700) "#333" (Fin 16))).
Proof.
  apply (generated_year_rendered halves (now hostReading)). reflexivity.
Defined.

(** ** The plugin and the host *)

Lemma refreshEach_rejected host : forall l k,
  (getEditorWidth (activeLeaf host) <= Fin 0)%num ->
  refreshEach host k l
  = map (fun oc =>
           (fst oc,
            withConsole (snd oc)
              (ConsoleDebug [LStr "newWidth illegal!";
                             LNum (getEditorWidth (activeLeaf host))])))
        l.
Proof.
  induction l as [|[o c] l IH]; intros k H; [reflexivity|].
  cbn [refreshEach map fst snd]. rewrite IH by assumption.
  unfold refreshSVG. unfold Num.le in H. now rewrite H.
Qed.

(** X16: when the host has no Markdown view in front, or the view has no
    element of the class its mode asks for ([.markdown-preview-sizer] in
    the mode [preview], [.cm-content] otherwise), [getEditorWidth] is 0
    and [refreshHeatmaps] redraws nothing: every heatmap keeps its
    surface, its geometry and its props, and gets one debug line. *)
Theorem refreshHeatmaps_without_editor host p :
  activeLeaf host = OtherView
  \/ (exists dataMode previewSizer cmContent,
        activeLeaf host = MarkdownLeaf dataMode previewSizer cmContent
        /\ (if String.eqb dataMode "preview" then previewSizer else cmContent)
           = None) ->
  getEditorWidth (activeLeaf host) = Fin 0
  /\ heatmaps (refreshHeatmaps host p)
     = map (fun oc =>
              (fst oc,
               withConsole (snd oc)
                 (ConsoleDebug [LStr "newWidth illegal!"; LNum (Fin 0)])))
           (heatmaps p)
  /\ map (fun oc => svgRef (snd oc)) (heatmaps (refreshHeatmaps host p))
     = map (fun oc => svgRef (snd oc)) (heatmaps p)
  /\ map (fun oc => dataPoints (snd oc)) (heatmaps (refreshHeatmaps host p))
     = map (fun oc => dataPoints (snd oc)) (heatmaps p)
  /\ map (fun oc => cellSize (snd oc)) (heatmaps (refreshHeatmaps host p))
     = map (fun oc => cellSize (snd oc)) (heatmaps p).
Proof.
  intros Hleaf.
  assert (Hw : getEditorWidth (activeLeaf host) = Fin 0).
  { destruct Hleaf as [-> | [mode [ps [cm [-> Hnone]]]]]; [reflexivity|].
    cbn [getEditorWidth]. now rewrite Hnone. }
  split; [exact Hw|].
  cbn [refreshHeatmaps heatmaps].
  rewrite refreshEach_rejected by (rewrite Hw; reflexivity).
  rewrite Hw. split; [reflexivity|].
  rewrite !map_map. repeat split.
Qed.

(** A view in reading mode that has a [.cm-content], 650 wide, and no
    [.markdown-preview-sizer]. *)
Lemma refreshHeatmaps_without_editor_witness :
  getEditorWidth (activeLeaf hostWithoutSizer) = Fin 0
  /\ map (fun oc => svgRef (snd oc))
         (heatmaps (refreshHeatmaps hostWithoutSizer pluginOfTwo))
     = [svgRef scenario; svgRef gappy].
Proof.
  destruct (refreshHeatmaps_without_editor hostWithoutSizer pluginOfTwo)
    as [H1 [_ [H2 _]]].
  - right. exists "preview"%string, None, (Some 650%Q).
    split; reflexivity.
  - split; [exact H1|]. rewrite H2. reflexivity.
Defined.

Lemma weekCount_of_a_year first n :
  n = 365 \/ n = 366 ->
  weekCountOf first (first + n * msPerDay) = 53
  \/ weekCountOf first (first + n * msPerDay) = 54.
Proof.
  intros Hn.
  pose proof (weekCountOf_exact first (first + n * msPerDay)) as Hex.
  pose proof (floor_bounds timeMonday msPerWeek (4 * msPerDay) msPerWeek_pos
                timeMonday_floori first) as H1.
  pose proof (floor_bounds timeMonday msPerWeek (4 * msPerDay) msPerWeek_pos
                timeMonday_floori (first + n * msPerDay)) as H2.
  unfold msPerWeek, msPerDay in *. destruct Hn as [-> | ->]; lia.
Qed.

Lemma cellSizeOf_zero_width n :
  2 <= n -> (cellSizeOf (Fin 0) n < Fin 0)%num.
Proof.
  intros Hn. unfold cellSizeOf. rewrite unclamped_finite, min_Fin by lia.
  pose proof (inject_Z_pos (n + 2) ltac:(lia)) as Hd.
  assert (Hk : (0 < inject_Z ((n - 1) * cellGap))%Q)
    by (apply inject_Z_pos; unfold cellGap; lia).
  assert (Hu : ((0 + - inject_Z ((n - 1) * cellGap)) / inject_Z (n + 2) < 0)%Q).
  { apply Qlt_shift_div_r; [assumption|]. lra. }
  destruct (Qle_bool _ 14) eqn:E.
  - now apply lt_Fin.
  - apply Qle_bool_false in E. lra.
Qed.

Lemma onMount_view c :
  dataPoints (onMount c) = dataPoints (generateSVG c)
  /\ renderedCells (onMount c) = renderedCells (generateSVG c)
  /\ cellSize (onMount c) = cellSize (generateSVG c)
  /\ width (onMount c) = width (generateSVG c).
Proof. split; [|split; [|split]]; reflexivity. Qed.

Lemma weekCount_ext c1 c2 :
  dataPoints c1 = dataPoints c2 -> weekCount c1 = weekCount c2.
Proof. unfold weekCount. now intros ->. Qed.

(** What [generateSVG] makes of a year of generated data. *)
Lemma generateSVG_year c random t :
  dataPoints c = getHeatmapDataPoints random t ->
  dataPoints (generateSVG c) = dataPoints c
  /\ width (generateSVG c) = width c
  /\ (weekCount c = 53 \/ weekCount c = 54)
  /\ List.length (renderedCells (generateSVG c))
     = (List.length (dataPoints c) - 1)%nat
  /\ cellSize (generateSVG c) = cellSizeOf (width c) (weekCount c).
Proof.
  intros Hdata.
  destruct (generated_year random t) as [Hlen [Hasc [Hf [Hl Hspan]]]].
  rewrite <- Hdata in Hlen, Hasc, Hf, Hl, Hspan.
  assert (Hne : dataPoints c <> [])
    by (intros E; rewrite E in Hlen; destruct Hlen; discriminate).
  destruct (generateSVG_props c) as [Hd [Hw _]].
  split; [exact Hd|]. split; [exact Hw|]. split; [|split].
  - unfold weekCount. rewrite Hspan. apply weekCount_of_a_year.
    destruct Hlen as [-> | ->]; [left|right]; reflexivity.
  - rewrite renderedCells_generateSVG by assumption.
    unfold cells. rewrite length_map.
    change (dataPoints (withGeometry c _ _)) with (dataPoints c).
    rewrite Hspan, timeDays_length_span; destruct Hlen as [-> | ->]; lia.
  - now rewrite cellSize_generateSVG.
Qed.

(** X17: the data of a year span 53 or 54 weeks; a heatmap the processor
    mounts while [getEditorWidth] answers 0 is drawn all the same, with
    a cell for each day but one, at the width 0 and with a cell size
    below zero, and is the last of the heatmaps of the plugin. *)
Theorem mount_without_editor host object p :
  getEditorWidth (activeLeaf host) = Fin 0 ->
  exists heatmap,
    heatmaps (processCodeBlock host object p) = heatmaps p ++ [(object, heatmap)]
    /\ (weekCount heatmap = 53 \/ weekCount heatmap = 54)
    /\ List.length (renderedCells heatmap)
       = (List.length (dataPoints heatmap) - 1)%nat
    /\ (cellSize heatmap < Fin 0)%num.
Proof.
  intros Hwidth.
  set (data := getHeatmapDataPoints (randomOf host 0) (now host)).
  set (c0 := create data (Fin 0) (themeFontColor host)
                    (getFontSize (baseFontSize host))).
  exists (onMount c0). split.
  { unfold processCodeBlock. cbn [heatmaps]. rewrite Hwidth. reflexivity. }
  destruct (onMount_view c0) as [Hd1 [Hr1 [Hc1 _]]].
  destruct (generateSVG_year c0 (randomOf host 0) (now host) eq_refl)
    as [Hd [_ [Hweeks [Hcells Hsize]]]].
  rewrite (weekCount_ext (onMount c0) c0) by (now rewrite Hd1).
  rewrite Hr1, Hc1, Hd1, Hd, Hsize.
  split; [exact Hweeks|]. split; [exact Hcells|].
  change (width c0) with (Fin 0). apply cellSizeOf_zero_width.
  destruct Hweeks as [-> | ->]; lia.
Qed.

Lemma mount_without_editor_witness :
  exists heatmap,
    heatmaps (processCodeBlock hostWithoutEditor 2 pluginOfTwo)
    = heatmaps pluginOfTwo ++ [(2%nat, heatmap)]
    /\ (weekCount heatmap = 53 \/ weekCount heatmap = 54)
    /\ List.length (renderedCells heatmap)
       = (List.length (dataPoints heatmap) - 1)%nat
    /\ (cellSize heatmap < Fin 0)%num.
Proof.
  apply (mount_without_editor hostWithoutEditor 2 pluginOfTwo). reflexivity.
Defined.

(** ** The heatmaps of the plugin *)

Lemma unloadFrom_cons object o c l :
  unloadFrom object ((o, c) :: l)
  = if Nat.eqb o object then l else (o, c) :: unloadFrom object l.
Proof.
  unfold unloadFrom. cbn [indexOf]. destruct (Nat.eqb o object); [reflexivity|].
  now destruct (indexOf object l).
Qed.

Lemma unloadFrom_absent object l :
  ~ In object (map fst l) -> unloadFrom object l = l.
Proof.
  induction l as [|[o c] l IH]; intros H; [reflexivity|].
  rewrite unloadFrom_cons. cbn in H.
  destruct (Nat.eqb_spec o object) as [->|Hne]; [tauto|].
  rewrite IH; tauto.
Qed.

Lemma unloadFrom_In object l :
  NoDup (map fst l) ->
  forall o c, In (o, c) (unloadFrom object l) <-> In (o, c) l /\ o <> object.
Proof.
  induction l as [|[o' c'] l IH]; intros Hnd o c; [cbn; tauto|].
  rewrite unloadFrom_cons. cbn [map fst] in Hnd.
  inversion Hnd as [|x xs Hnotin Hnd']; subst.
  destruct (Nat.eqb_spec o' object) as [->|Hne].
  - cbn [In]. split.
    + intros Hin. split; [now right|]. intros ->.
      apply Hnotin. change object with (fst (object, c)). now apply in_map.
    + intros [[Heq|Hin] Hneq]; [congruence|assumption].
  - cbn [In]. rewrite IH by assumption. split.
    + intros [Heq|[Hin Hneq]]; [|tauto]. injection Heq as <- <-. tauto.
    + intros [[Heq|Hin] Hneq]; tauto.
Qed.

Lemma unloadFrom_ids object l :
  NoDup (map fst l) -> NoDup (map fst (unloadFrom object l)).
Proof.
  induction l as [|[o c] l IH]; intros Hnd; [constructor|].
  rewrite unloadFrom_cons. cbn [map fst] in Hnd.
  inversion Hnd as [|x xs Hnotin Hnd']; subst.
  destruct (Nat.eqb o object); [assumption|].
  cbn [map fst]. constructor; [|now apply IH].
  intros Hin. apply Hnotin. apply in_map_iff in Hin.
  destruct Hin as [[o1 c1] [Hfst Hin]]. cbn in Hfst. subst o1.
  apply (unloadFrom_In object l Hnd') in Hin.
  change o with (fst (o, c1)). apply in_map. tauto.
Qed.

(** X18: while the heatmaps of the plugin are distinct objects,
    [child.onunload] of a heatmap takes exactly that heatmap off the
    array and leaves the others, still distinct; unloading a heatmap
    that is not on the array changes nothing; and unloading the heatmap
    the processor has just pushed gives the array back as it was. *)
Theorem childOnunload_removes host object p :
  NoDup (map fst (heatmaps p)) ->
  (forall o c,
     In (o, c) (heatmaps (childOnunload object p))
     <-> In (o, c) (heatmaps p) /\ o <> object)
  /\ NoDup (map fst (heatmaps (childOnunload object p)))
  /\ (~ In object (map fst (heatmaps p)) ->
      heatmaps (childOnunload object p) = heatmaps p
      /\ heatmaps (childOnunload object (processCodeBlock host object p))
         = heatmaps p).
Proof.
  intros Hnd. change (heatmaps (childOnunload object p))
    with (unloadFrom object (heatmaps p)).
  split; [now apply unloadFrom_In|]. split; [now apply unloadFrom_ids|].
  intros Hfresh. split; [now apply unloadFrom_absent|].
  change (heatmaps (childOnunload object (processCodeBlock host object p)))
    with (unloadFrom object (heatmaps (processCodeBlock host object p))).
  cbn [processCodeBlock heatmaps].
  induction (heatmaps p) as [|[o c] l IH].
  - cbn [app]. rewrite unloadFrom_cons. now rewrite Nat.eqb_refl.
  - cbn [app]. rewrite unloadFrom_cons. cbn [map fst] in *.
    inversion Hnd; subst.
    destruct (Nat.eqb_spec o object) as [->|Hne]; [cbn in Hfresh; tauto|].
    rewrite IH; [reflexivity|assumption|]. cbn in Hfresh. tauto.
Qed.

Lemma childOnunload_removes_witness :
  (forall o c,
     In (o, c) (heatmaps (childOnunload 0 pluginOfTwo))
     <-> In (o, c) (heatmaps pluginOfTwo) /\ o <> 0%nat)
  /\ NoDup (map fst (heatmaps (childOnunload 0 pluginOfTwo)))
  /\ (~ In 0%nat (map fst (heatmaps (childOnunload 0 pluginOfTwo))) ->
      heatmaps (childOnunload 0 (childOnunload 0 pluginOfTwo))
      = heatmaps (childOnunload 0 pluginOfTwo)).
Proof.
  destruct (childOnunload_removes hostReading 0 pluginOfTwo) as [H1 [H2 _]].
  - cbn. repeat constructor; cbn; intuition discriminate.
  - split; [exact H1|]. split; [exact H2|]. intros Hfresh.
    destruct (childOnunload_removes hostReading 0 (childOnunload 0 pluginOfTwo))
      as [_ [_ H3]]; [exact H2|].
    now apply H3.
Defined.

Lemma refreshEach_ids host : forall l k,
  map fst (refreshEach host k l) = map fst l.
Proof.
  induction l as [|[o c] l IH]; intros k; [reflexivity|].
  cbn [refreshEach map fst]. now rewrite IH.
Qed.

Lemma refreshEach_In host o c : forall l k,
  In (o, c) (refreshEach host k l) ->
  exists c0 j,
    In (o, c0) l
    /\ c = refreshSVG c0 (getHeatmapDataPoints (randomOf host j) (now host))
             (getEditorWidth (activeLeaf host)) (themeFontColor host)
             (getFontSize (baseFontSize host)).
Proof.
  induction l as [|[o' c'] l IH]; intros k Hin; [destruct Hin|].
  cbn [refreshEach] in Hin. destruct Hin as [Heq|Hin].
  - injection Heq as <- <-. exists c', k. split; [now left|reflexivity].
  - destruct (IH _ Hin) as [c0 [j [H1 H2]]]. exists c0, j.
    split; [now right|exact H2].
Qed.

(** X19: when [getEditorWidth] answers a positive width, [refreshHeatmaps]
    keeps the heatmaps and their order and redraws every one of them
    from a new year of data: at that width, over 53 or 54 weeks, with a
    cell for each day but one and the cell size of the width equation,
    capped at 14. *)
Theorem refreshHeatmaps_with_editor host p w :
  getEditorWidth (activeLeaf host) = Fin w ->
  (0 < w)%Q ->
  map fst (heatmaps (refreshHeatmaps host p)) = map fst (heatmaps p)
  /\ forall o c,
       In (o, c) (heatmaps (refreshHeatmaps host p)) ->
       width c = Fin w
       /\ (exists j, dataPoints c
                     = getHeatmapDataPoints (randomOf host j) (now host))
       /\ (weekCount c = 53 \/ weekCount c = 54)
       /\ List.length (renderedCells c) = (List.length (dataPoints c) - 1)%nat
       /\ cellSize c = cellSizeOf (Fin w) (weekCount c).
Proof.
  intros Hwidth Hpos. cbn [refreshHeatmaps heatmaps].
  split; [apply refreshEach_ids|].
  intros o c Hin.
  destruct (refreshEach_In _ _ _ _ _ Hin) as [c0 [j [_ ->]]].
  rewrite Hwidth. unfold refreshSVG.
  replace (Num.leb (Fin w) (Fin 0)) with false
    by (symmetry; cbn; apply Qle_bool_false; lra).
  set (c1 := withProps c0 _ _ _ _).
  destruct (generateSVG_year c1 (randomOf host j) (now host) eq_refl)
    as [Hd [Hw [Hweeks [Hcells Hsize]]]].
  rewrite (weekCount_ext (generateSVG c1) c1 Hd), Hd.
  split; [exact Hw|]. split; [exists j; reflexivity|].
  split; [exact Hweeks|]. split; [exact Hcells|exact Hsize].
Qed.

Lemma refreshHeatmaps_with_editor_witness :
  map fst (heatmaps (refreshHeatmaps hostReading pluginOfTwo))
  = map fst (heatmaps pluginOfTwo)
  /\ forall o c,
       In (o, c) (heatmaps (refreshHeatmaps hostReading pluginOfTwo)) ->
       width c = Fin 700
       /\ (exists j, dataPoints c
                     = getHeatmapDataPoints (randomOf hostReading j)
                         (now hostReading))
       /\ (weekCount c = 53 \/ weekCount c = 54)
       /\ List.length (renderedCells c) = (List.length (dataPoints c) - 1)%nat
       /\ cellSize c = cellSizeOf (Fin 700) (weekCount c).
Proof.
  apply (refreshHeatmaps_with_editor hostReading pluginOfTwo 700);
    [reflexivity | reflexivity].
Defined.

(** X20: after the listener of [config-changed] the two flags of the
    plugin are those of the host, the heatmaps are the same objects in
    the same order, and a second event under the same configuration
    changes nothing: the heatmaps are not refreshed again. *)
Theorem onConfigChanged_settles host p :
  readableLineLength (onConfigChanged host p) = configReadableLineLength host
  /\ showLineNumber (onConfigChanged host p) = configShowLineNumber host
  /\ map fst (heatmaps (onConfigChanged host p)) = map fst (heatmaps p)
  /\ onConfigChanged host (onConfigChanged host p) = onConfigChanged host p.
Proof.
  assert (Hflags :
    readableLineLength (onConfigChanged host p) = configReadableLineLength host
    /\ showLineNumber (onConfigChanged host p) = configShowLineNumber host).
  { unfold onConfigChanged. cbv zeta.
    destruct (readableLineLength p) eqn:E1, (showLineNumber p) eqn:E2,
      (configReadableLineLength host) eqn:E3,
      (configShowLineNumber host) eqn:E4;
      cbn [Bool.eqb negb orb refreshHeatmaps readableLineLength showLineNumber];
      split; congruence. }
  destruct Hflags as [H1 H2]. split; [exact H1|]. split; [exact H2|]. split.
  - unfold onConfigChanged. cbv zeta.
    destruct (negb _ || negb _); [|reflexivity].
    cbn [refreshHeatmaps heatmaps]. apply refreshEach_ids.
  - set (q := onConfigChanged host p) in *.
    unfold onConfigChanged at 1. cbv zeta. rewrite H1, H2.
    now rewrite !Bool.eqb_reflx.
Qed.

(** X21: the text of a month label is the number of the month of its
    date followed by the character for month: for no date does the
    label fall back to the English abbreviation. *)
Theorem month_label_chinese date :
  monthLabelText (timeFormat_b date)
  = (decimal (Z.to_N (getMonth date + 1)) ++ "月")%string.
Proof.
  unfold timeFormat_b, getMonth.
  destruct (civil_ranges (dayNumber date)) as [Hm _].
  set (m := snd (fst (civil_from_days (dayNumber date)))) in *.
  clearbody m.
  assert (Hcases : m = 1 \/ m = 2 \/ m = 3 \/ m = 4 \/ m = 5 \/ m = 6
                   \/ m = 7 \/ m = 8 \/ m = 9 \/ m = 10 \/ m = 11 \/ m = 12)
    by lia.
  repeat (destruct Hcases as [-> | Hcases]; [vm_compute; reflexivity|]).
  subst m. vm_compute. reflexivity.
Qed.

(** ** The week labels *)





